(** * Amount detection in medical documents: model and properties

    A shallow embedding of the normalizer, the classifier, the currency
    detector and the [/final] route of the service, followed by the
    properties stated about them.

    Conventions of the embedding:
    - a JavaScript string is the list of its UTF-16 code units;
    - a JavaScript number is an IEEE-754 binary64 value, represented with
      the [spec_float] type of the standard library (precision 53,
      exponent bound 1024);
    - regular expression literals are values of a small syntax tree run by
      a backtracking matcher that follows the ECMAScript priorities
      (leftmost match, greedy quantifiers, alternatives left to right);
    - host functions that depend on Unicode tables ([toLowerCase]) or on
      external services (OCR, LLM) are section variables. *)

From Stdlib Require Import String Ascii ZArith NArith List Bool SpecFloat Lia.
Import ListNotations.
Open Scope list_scope.

(* ================================================================= *)
(** ** JavaScript strings *)

Module JsString.

Definition char := N.
Definition jsstring := list char.

(** Literals: an ASCII Rocq string read as a list of code units. *)
Definition js (s : string) : jsstring :=
  map N_of_ascii (list_ascii_of_string s).

(** The code unit of an ASCII character. *)
Definition code (a : ascii) : char := N_of_ascii a.

Definition in_range (lo hi c : N) : bool := (lo <=? c)%N && (c <=? hi)%N.

Definition one_of (cs : list N) (c : N) : bool := existsb (N.eqb c) cs.

(** [\d] *)
Definition isDigit (c : char) : bool := in_range 48 57 c.

(** [\s], which is also the set removed by [String.prototype.trim]:
    tab, line feed, vertical tab, form feed, carriage return, space,
    no-break space, U+1680, U+2000..U+200A, U+2028, U+2029, U+202F,
    U+205F, U+3000 and U+FEFF. *)
Definition isWhiteSpace (c : char) : bool :=
  in_range 9 13 c
  || one_of [32; 160; 5760; 8232; 8233; 8239; 8287; 12288; 65279]%N c
  || in_range 8192 8202 c.

(** [\w] without the unicode flag. *)
Definition isWordChar (c : char) : bool :=
  in_range 48 57 c || in_range 65 90 c || in_range 97 122 c || (c =? 95)%N.

Definition isAsciiLetter (c : char) : bool :=
  in_range 65 90 c || in_range 97 122 c.

(** Canonicalisation used by the [i] flag without the [u] flag.  The
    patterns of this program only contain ASCII characters and the three
    caseless symbols U+00A3, U+20AC and U+20B9; a code unit above 127 is
    never mapped below 128 by the canonicalisation, so comparing through
    the ASCII upper case is exact for them. *)
Definition canonicalize (c : char) : char :=
  if in_range 97 122 c then (c - 32)%N else c.

(** ASCII lower case; agrees with [String.prototype.toLowerCase] on
    strings whose code units are all below 128. *)
Definition asciiToLowerCase (s : jsstring) : jsstring :=
  map (fun c => if in_range 65 90 c then (c + 32)%N else c) s.

Fixpoint str_eqb (a b : jsstring) : bool :=
  match a, b with
  | [], [] => true
  | x :: a', y :: b' => (x =? y)%N && str_eqb a' b'
  | _, _ => false
  end.

Fixpoint dropWhile (p : char -> bool) (s : jsstring) : jsstring :=
  match s with
  | [] => []
  | c :: s' => if p c then dropWhile p s' else s
  end.

(** [s.trim()] *)
Definition trim (s : jsstring) : jsstring :=
  rev (dropWhile isWhiteSpace (rev (dropWhile isWhiteSpace s))).

Fixpoint startsWith (p s : jsstring) : bool :=
  match p, s with
  | [], _ => true
  | _ :: _, [] => false
  | x :: p', y :: s' => (x =? y)%N && startsWith p' s'
  end.

(** [s.includes(needle)] *)
Fixpoint includes (needle s : jsstring) : bool :=
  startsWith needle s ||
  match s with
  | [] => false
  | _ :: s' => includes needle s'
  end.

(** [s.replace(/[class]/g, '')] for a one-character class. *)
Definition removeAll (p : char -> bool) (s : jsstring) : jsstring :=
  filter (fun c => negb (p c)) s.

(** [s.replace(/[class]/g, r)] for a one-character class and a
    one-character replacement. *)
Definition replaceAll (p : char -> bool) (r : char) (s : jsstring) : jsstring :=
  map (fun c => if p c then r else c) s.

(** [s.split(sep)] for a one-character separator string: always at least
    one part. *)
Fixpoint splitOn (p : char -> bool) (s : jsstring) : list jsstring :=
  match s with
  | [] => [[]]
  | c :: s' =>
      if p c then [] :: splitOn p s'
      else match splitOn p s' with
           | [] => [[c]]
           | part :: parts => (c :: part) :: parts
           end
  end.

(** [s.split(/[class]+/)]: the separators are the maximal runs of
    characters of the class. *)
Fixpoint splitRunsFrom (p : char -> bool) (inRun : bool) (s : jsstring)
  : list jsstring :=
  match s with
  | [] => [[]]
  | c :: s' =>
      if p c then
        if inRun then splitRunsFrom p true s' else [] :: splitRunsFrom p true s'
      else match splitRunsFrom p false s' with
           | [] => [[c]]
           | part :: parts => (c :: part) :: parts
           end
  end.

Definition splitRuns (p : char -> bool) (s : jsstring) : list jsstring :=
  splitRunsFrom p false s.

(** [s.substring(0, n)] *)
Definition substring0 (n : nat) (s : jsstring) : jsstring := firstn n s.

(** [s.substring(a, b)] for [a <= b]. *)
Definition slice (a b : nat) (s : jsstring) : jsstring :=
  firstn (b - a) (skipn a s).

(** A field of a request body as the handlers use it: absent, a string,
    or a JSON value of another type, of which only the truthiness
    matters ([null], [false] and [0] are falsy; [true], the other
    numbers, the arrays and the objects are truthy, and none of them has
    a [replace] method). *)
Inductive field :=
| Absent
| Str (s : jsstring)
| Other (truthy : bool).

(** [!!v] on a field. *)
Definition toBoolean (v : field) : bool :=
  match v with
  | Absent => false
  | Str [] => false
  | Str (_ :: _) => true
  | Other truthy => truthy
  end.

End JsString.
Import JsString.

(* ================================================================= *)
(** ** JavaScript numbers *)

Module JsNumber.

Definition number := spec_float.

Definition prec : Z := 53.
Definition emax : Z := 1024.

Definition NaN : number := S754_nan.
Definition zero : number := S754_zero false.

(** The number value of an integer (rounded to nearest, ties to even). *)
Definition ofZ (z : Z) : number := binary_normalize prec emax z 0 false.

(** The number value of the decimal [digits * 10^(-scale)] for
    [0 <= digits], rounded once to the nearest binary64 value. *)
Definition ofDecimal (digits : Z) (scale : Z) : number :=
  if (scale <=? 0)%Z then ofZ (digits * 10 ^ (- scale))
  else match digits with
       | Zpos p =>
           SFdiv prec emax (S754_finite false p 0)
                 (S754_finite false (Z.to_pos (10 ^ scale)) 0)
       | _ => zero
       end.

Definition add : number -> number -> number := SFadd prec emax.
Definition sub : number -> number -> number := SFsub prec emax.
Definition mul : number -> number -> number := SFmul prec emax.
Definition div : number -> number -> number := SFdiv prec emax.
Definition opp : number -> number := SFopp.
Definition abs : number -> number := SFabs.

(** [x < y], [x <= y], [x > y], [x === y] *)
Definition ltb : number -> number -> bool := SFltb.
Definition leb : number -> number -> bool := SFleb.
Definition gtb (x y : number) : bool := SFltb y x.
Definition eqb : number -> number -> bool := SFeqb.

Definition isNaN (x : number) : bool :=
  match x with S754_nan => true | _ => false end.

(** [Number.isFinite(x)] *)
Definition isFinite (x : number) : bool :=
  match x with
  | S754_zero _ | S754_finite _ _ _ => true
  | _ => false
  end.

(** Truthiness of a number: false for [+0], [-0] and [NaN]. *)
Definition truthy (x : number) : bool :=
  match x with
  | S754_zero _ | S754_nan => false
  | _ => true
  end.

(** The comparison used by [Set] and [Map] keys. *)
Definition sameValueZero (x y : number) : bool :=
  match x, y with
  | S754_nan, S754_nan => true
  | _, _ => SFeqb x y
  end.

Definition isNegative (x : number) : bool :=
  match x with
  | S754_zero s | S754_infinity s | S754_finite s _ _ => s
  | S754_nan => false
  end.

(** [Math.min(x, y)] and [Math.max(x, y)]: [NaN] if an argument is [NaN],
    and [-0] is below [+0]. *)
Definition min (x y : number) : number :=
  if isNaN x || isNaN y then NaN
  else if ltb x y then x
  else if ltb y x then y
  else if isNegative x then x else y.

Definition max (x y : number) : number :=
  if isNaN x || isNaN y then NaN
  else if ltb x y then y
  else if ltb y x then x
  else if isNegative x then y else x.

(** [Math.max(...xs)] *)
Definition maxList (xs : list number) : number :=
  fold_left max xs (S754_infinity true).

(** [Math.round(x)]: the nearest integer, a tie going up. *)
Definition round (x : number) : number :=
  match x with
  | S754_finite s m e =>
      match e with
      | Zneg d =>
          let q := Z.shiftr (Zpos m) (Zpos d) in
          let r := Z.land (Zpos m) (Z.ones (Zpos d)) in
          let half := Z.shiftl 1 (Zpos d - 1) in
          if s then
            let n := if (half <? r)%Z then (q + 1)%Z else q in
            match n with
            | Z0 => S754_zero true
            | _ => ofZ (- n)
            end
          else ofZ (if (half <=? r)%Z then q + 1 else q)
      | _ => x
      end
  | _ => x
  end.

(** Decimal digits at the head of a string, as their values. *)
Fixpoint takeDigits (s : jsstring) : list Z * jsstring :=
  match s with
  | c :: s' =>
      if isDigit c then
        let '(ds, rest) := takeDigits s' in (Z.of_N (c - 48) :: ds, rest)
      else ([], s)
  | [] => ([], [])
  end.

Definition digitsValue (ds : list Z) : Z :=
  fold_left (fun acc d => (10 * acc + d)%Z) ds 0%Z.

Definition takeSign (s : jsstring) : bool * jsstring :=
  match s with
  | 43%N :: r => (false, r)
  | 45%N :: r => (true, r)
  | _ => (false, s)
  end.

(** [parseFloat(s)]: the longest prefix of [s], after leading white
    space, that is a decimal literal (sign, [Infinity], digits, fraction,
    exponent); [NaN] when there is none. *)
Definition parseFloat (s : jsstring) : number :=
  let '(neg, s1) := takeSign (dropWhile isWhiteSpace s) in
  if startsWith (js "Infinity") s1 then S754_infinity neg
  else
    let '(ip, s2) := takeDigits s1 in
    let '(fp, s3) :=
      match s2 with
      | 46%N :: r =>
          match ip, fst (takeDigits r) with
          | [], [] => ([], s2)
          | _, _ => takeDigits r
          end
      | _ => ([], s2)
      end in
    match ip, fp with
    | [], [] => NaN
    | _, _ =>
        let ex :=
          match s3 with
          | c :: r =>
              if (c =? 101)%N || (c =? 69)%N then
                let '(eneg, r1) := takeSign r in
                let ed := fst (takeDigits r1) in
                if eneg then (- digitsValue ed)%Z else digitsValue ed
              else 0%Z
          | [] => 0%Z
          end in
        let v := ofDecimal (digitsValue (ip ++ fp)) (Z.of_nat (length fp) - ex) in
        if neg then opp v else v
    end.

(** [parseFloat(x.toFixed(2))].  [toFixed(2)] picks the integer [n] with
    [n / 100] nearest to the exact value of [|x|] (the larger on a tie)
    and prints it with two decimals; parsing it back gives the binary64
    value nearest to [n / 100].  From [1e21] on [toFixed] prints the
    number itself, which parses back to it. *)
Definition parseFloat_toFixed2 (x : number) : number :=
  match x with
  | S754_finite s m e =>
      if leb (ofDecimal 1 (-21)) (abs x) then x
      else
        let n :=
          match e with
          | Zneg d => Z.shiftr (100 * Zpos m + Z.shiftl 1 (Zpos d - 1)) (Zpos d)
          | _ => (100 * Zpos m * 2 ^ e)%Z
          end in
        let v := ofDecimal n 2 in
        if s then opp v else v
  | S754_zero _ => zero
  | _ => x
  end.

End JsNumber.
Import JsNumber.

(* ================================================================= *)
(** ** Configuration (config/config.js) *)

Record Config := {
  minOcrConfidence : number;
  minNormalizationConfidence : number;
  minClassificationConfidence : number
}.

(** Number literal [d * 10^(-k)], e.g. [lit 1 2] for [0.01]. *)
Definition lit (d k : Z) : number := ofDecimal d k.

(** [x || d] on numbers. *)
Definition orDefault (x d : number) : number := if truthy x then x else d.

(** The thresholds when the environment sets none of them. *)
Definition defaultConfig : Config :=
  {| minOcrConfidence := orDefault NaN (lit 2 1);
     minNormalizationConfidence := orDefault NaN (lit 3 1);
     minClassificationConfidence := orDefault NaN (lit 4 1) |}.

(* ================================================================= *)
(** ** Normalizer (services/normalizer.service.js) *)

Module Normalizer.

(** [this.digitCorrections] *)
Definition digitCorrections (c : char) : option char :=
  if one_of [108; 76; 73; 105]%N c then Some 49%N        (* l L I i -> 1 *)
  else if one_of [79; 111; 68]%N c then Some 48%N        (* O o D -> 0 *)
  else if one_of [83; 115]%N c then Some 53%N            (* S s -> 5 *)
  else if one_of [90; 122]%N c then Some 50%N            (* Z z -> 2 *)
  else if one_of [66; 98]%N c then Some 56%N             (* B b -> 8 *)
  else if one_of [71; 103]%N c then Some 54%N            (* G g -> 6 *)
  else if one_of [84; 116]%N c then Some 55%N            (* T t -> 7 *)
  else None.

(** [/[Rs\.\$€£₹]/gi]: the characters R, r, S, s, '.', '$', U+20AC,
    U+00A3 and U+20B9. *)
Definition isCurrencyChar (c : char) : bool :=
  one_of [82; 114; 83; 115; 46; 36; 8364; 163; 8377]%N c.

(** [/\d/.test(ch)] on a character that may be the empty string. *)
Definition isDigitAt (ch : option char) : bool :=
  match ch with Some c => isDigit c | None => false end.

(** [/[0-9.,]/.test(char)] *)
Definition isNumericChar (c : char) : bool :=
  isDigit c || (c =? 46)%N || (c =? 44)%N.

(** One iteration of the correction loop, at index [i]. *)
Definition scanStep (fixed : jsstring) (result : jsstring) (i : nat) : jsstring :=
  match nth_error fixed i with
  | None => result
  | Some char =>
      let prevChar := if (0 <? i)%nat then nth_error fixed (i - 1) else None in
      let nextChar :=
        if (i <? length fixed - 1)%nat then nth_error fixed (i + 1) else None in
      let hasAdjacentDigit := isDigitAt prevChar || isDigitAt nextChar in
      match digitCorrections char with
      | Some d =>
          if hasAdjacentDigit then result ++ [d]
          else if isNumericChar char then result ++ [char]
          else result
      | None =>
          if isNumericChar char then result ++ [char] else result
      end
  end.

Definition scan (fixed : jsstring) : jsstring :=
  fold_left (scanStep fixed) (seq 0 (length fixed)) [].

(** The token after [trim] and the two stripping replacements. *)
Definition strip (token : jsstring) : jsstring :=
  removeAll isWhiteSpace (removeAll isCurrencyChar (trim token)).

(** Keep the first '.' only. *)
Definition collapseDots (fixed : jsstring) : jsstring :=
  let parts := splitOn (N.eqb 46) fixed in
  if (2 <? length parts)%nat
  then hd [] parts ++ [46%N] ++ concat (tl parts)
  else fixed.

Definition fixOcrDigits (token : jsstring) : jsstring :=
  match token with
  | [] => []
  | _ =>
      let fixed := strip token in
      let fixed := scan fixed in
      let fixed := removeAll (N.eqb 44) fixed in
      let fixed := removeAll (fun c => negb (isDigit c || (c =? 46)%N)) fixed in
      collapseDots fixed
  end.

Inductive ParsedType := type_number.

Record Parsed := {
  p_type : ParsedType;
  p_value : number;
  p_original : jsstring;
  p_normalized : jsstring
}.

Definition parseNumeric (token : jsstring) : option Parsed :=
  let fixed := fixOcrDigits token in
  match fixed with
  | [] => None
  | _ =>
      if str_eqb fixed (js ".") then None
      else if includes (js "%") token then None
      else
        let value := parseFloat fixed in
        if negb (isFinite value) || ltb value zero then None
        else if ltb value (lit 1 2) then None
        else
          let roundedValue := div (round (mul value (ofZ 100))) (ofZ 100) in
          Some {| p_type := type_number;
                  p_value := roundedValue;
                  p_original := token;
                  p_normalized := fixed |}
  end.

Inductive Reason := duplicate | percentage | invalid_format.

Record Detail := {
  d_original : jsstring;
  d_normalized : jsstring;
  d_value : option number;
  d_success : bool;
  d_reason : option Reason
}.

Record NormalizeResult := {
  normalized_amounts : list number;
  normalization_confidence : number;
  details : list Detail
}.

(** [seenValues.has(v)] *)
Definition setHas (seen : list number) (v : number) : bool :=
  existsb (sameValueZero v) seen.

(** The local state of the loop of [normalizeTokens]. *)
Record LoopState := {
  normalizedAmounts : list number;
  detailsAcc : list Detail;
  seenValues : list number;
  successfulParsed : Z
}.

Definition initState : LoopState :=
  {| normalizedAmounts := []; detailsAcc := []; seenValues := [];
     successfulParsed := 0 |}.

Definition isSome {A} (o : option A) : bool :=
  match o with Some _ => true | None => false end.

Definition loopBody (st : LoopState) (token : jsstring) : LoopState :=
  let parsed := parseNumeric token in
  match parsed with
  | Some p =>
      match p_type p with
      | type_number =>
          if setHas (seenValues st) (p_value p) then
            {| normalizedAmounts := normalizedAmounts st;
               detailsAcc := detailsAcc st ++
                 [{| d_original := p_original p;
                     d_normalized := p_normalized p;
                     d_value := Some (p_value p);
                     d_success := false;
                     d_reason := Some duplicate |}];
               seenValues := seenValues st;
               successfulParsed := successfulParsed st |}
          else
            {| normalizedAmounts := normalizedAmounts st ++ [p_value p];
               detailsAcc := detailsAcc st ++
                 [{| d_original := p_original p;
                     d_normalized := p_normalized p;
                     d_value := Some (p_value p);
                     d_success := true;
                     d_reason := None |}];
               seenValues := seenValues st ++ [p_value p];
               successfulParsed := successfulParsed st + 1 |}
      end
  | None =>
      {| normalizedAmounts := normalizedAmounts st;
         detailsAcc := detailsAcc st ++
           [{| d_original := token;
               d_normalized := fixOcrDigits token;
               d_value := None;
               d_success := false;
               d_reason := Some (if isSome parsed then percentage
                                 else invalid_format) |}];
         seenValues := seenValues st;
         successfulParsed := successfulParsed st |}
  end.

Section WithConfig.
Variable config : Config.

Definition calculateNormalizationConfidence (successRate : number)
    (amountCount : nat) : number :=
  match amountCount with
  | O => zero
  | _ =>
      let confidence := add (lit 5 1) (mul successRate (lit 4 1)) in
      let confidence :=
        if (2 <=? amountCount)%nat && (amountCount <=? 10)%nat
        then add confidence (lit 1 1) else confidence in
      let confidence :=
        if (amountCount =? 1)%nat then mul confidence (lit 9 1) else confidence in
      JsNumber.max (orDefault (minNormalizationConfidence config) (lit 3 1))
                   (JsNumber.min (lit 99 2) confidence)
  end.

Definition normalizeTokens (rawTokens : list jsstring) : NormalizeResult :=
  match rawTokens with
  | [] => {| normalized_amounts := [];
             normalization_confidence := zero;
             details := [] |}
  | _ =>
      let st := fold_left loopBody rawTokens initState in
      let successRate :=
        div (ofZ (successfulParsed st)) (ofZ (Z.of_nat (length rawTokens))) in
      let confidence :=
        calculateNormalizationConfidence successRate
          (length (normalizedAmounts st)) in
      {| normalized_amounts := normalizedAmounts st;
         normalization_confidence := parseFloat_toFixed2 confidence;
         details := detailsAcc st |}
  end.

End WithConfig.

(** The messages of [validateAmounts]. *)
Inductive AmountIssue :=
| NoAmounts
| NegativeAmount (amount : number)
| LargeAmount (amount : number)
| SmallAmount (amount : number)
| TooManyDuplicates.

Record AmountsValidation := {
  av_valid : bool;
  av_issues : list AmountIssue
}.

(** [new Set(amounts)], as the list of its members in insertion order. *)
Definition setOf (amounts : list number) : list number :=
  fold_left (fun set a => if setHas set a then set else set ++ [a]) amounts [].

(** The body of the loop of [validateAmounts]. *)
Definition amountIssues (issues : list AmountIssue) (amount : number)
  : list AmountIssue :=
  let issues :=
    if ltb amount zero then issues ++ [NegativeAmount amount] else issues in
  let issues :=
    if gtb amount (ofZ 10000000) then issues ++ [LargeAmount amount]
    else issues in
  if ltb amount (lit 1 2) then issues ++ [SmallAmount amount] else issues.

(** [validateAmounts(amounts)]; [None] stands for an argument that is
    [null] or [undefined]. *)
Definition validateAmounts (amounts : option (list number))
  : AmountsValidation :=
  match amounts with
  | None | Some [] => {| av_valid := false; av_issues := [NoAmounts] |}
  | Some amounts =>
      let issues := fold_left amountIssues amounts [] in
      let uniqueAmounts := setOf amounts in
      let issues :=
        if ltb (ofZ (Z.of_nat (length uniqueAmounts)))
               (mul (ofZ (Z.of_nat (length amounts))) (lit 5 1))
        then issues ++ [TooManyDuplicates] else issues in
      {| av_valid := (length issues =? 0)%nat; av_issues := issues |}
  end.

End Normalizer.

(* ================================================================= *)
(** ** Regular expressions *)

Module Regex.

(** The fragment of the pattern syntax that the program uses. *)
Inductive regex :=
| Empty
| Chr (c : char)                                (* a literal character *)
| CharSet (ranges : list (N * N))               (* [...] , \d, \s *)
| Seq (r1 r2 : regex)
| Alt (r1 r2 : regex)                           (* r1|r2 *)
| Rep (r : regex) (min : nat) (max : option nat) (* greedy r{min,max} *)
| WordBoundary                                  (* \b *)
| Group (r : regex).                            (* the capturing group 1 *)

Definition inRanges (ranges : list (N * N)) (c : char) : bool :=
  existsb (fun '(lo, hi) => in_range lo hi c) ranges.

Definition asciiUpper (c : char) : char :=
  if in_range 97 122 c then (c - 32)%N else c.
Definition asciiLower (c : char) : char :=
  if in_range 65 90 c then (c + 32)%N else c.

(** Character comparison, through the canonicalisation under flag [i]. *)
Definition chrMatches (ignoreCase : bool) (c x : char) : bool :=
  if ignoreCase then (canonicalize c =? canonicalize x)%N else (c =? x)%N.

Definition setMatches (ignoreCase : bool) (ranges : list (N * N)) (x : char)
  : bool :=
  if ignoreCase
  then inRanges ranges x || inRanges ranges (asciiUpper x)
       || inRanges ranges (asciiLower x)
  else inRanges ranges x.

(** The state of the matcher: the index reached, the character before
    it, the characters from it on, and the span of group 1. *)
Record MState := {
  pos : nat;
  prev : option char;
  rest : jsstring;
  cap : option (nat * nat)
}.

Definition isWordAt (ch : option char) : bool :=
  match ch with Some c => isWordChar c | None => false end.

Definition step (st : MState) (x : char) (xs : jsstring) : MState :=
  {| pos := S (pos st); prev := Some x; rest := xs; cap := cap st |}.

(** The backtracking matcher, in continuation-passing style: [run r st k]
    tries the ways [r] can match at [st] in priority order and returns
    the first one that the continuation [k] accepts.  A repetition first
    makes its [min] iterations, then goes on as long as an iteration
    consumes a character; each iteration lowers [min] or shortens the
    rest, so the bound on the number of iterations is never reached. *)
Fixpoint run (ic : bool) (r : regex) (st : MState)
    (k : MState -> option MState) {struct r} : option MState :=
  match r with
  | Empty => k st
  | Chr c =>
      match rest st with
      | x :: xs => if chrMatches ic c x then k (step st x xs) else None
      | [] => None
      end
  | CharSet ranges =>
      match rest st with
      | x :: xs => if setMatches ic ranges x then k (step st x xs) else None
      | [] => None
      end
  | Seq r1 r2 => run ic r1 st (fun st' => run ic r2 st' k)
  | Alt r1 r2 =>
      match run ic r1 st k with
      | Some res => Some res
      | None => run ic r2 st k
      end
  | Rep r1 mn mx =>
      (fix rep (fuel : nat) (mn : nat) (mx : option nat) (x : MState)
           {struct fuel} : option MState :=
         match mx with
         | Some O => k x
         | _ =>
             match fuel with
             | O => None
             | S fuel' =>
                 let d := fun y =>
                   if (mn =? 0)%nat && (pos y =? pos x)%nat then None
                   else rep fuel' (Nat.pred mn) (option_map Nat.pred mx) y in
                 match mn with
                 | S _ => run ic r1 x d
                 | O =>
                     match run ic r1 x d with
                     | Some res => Some res
                     | None => k x
                     end
                 end
             end
         end) (mn + length (rest st) + 1)%nat mn mx st
  | WordBoundary =>
      if xorb (isWordAt (prev st)) (isWordAt (hd_error (rest st)))
      then k st else None
  | Group r1 =>
      run ic r1 st (fun st' =>
        k {| pos := pos st'; prev := prev st'; rest := rest st';
             cap := Some (pos st, pos st') |})
  end.

(** A match: [match.index], the end index, and the span of group 1. *)
Record Match := {
  m_index : nat;
  m_end : nat;
  m_group : option (nat * nat)
}.

(** The leftmost match that starts at [pos] or later. *)
Fixpoint execFrom (ic : bool) (r : regex) (pos : nat) (prev : option char)
    (rest : jsstring) : option Match :=
  match run ic r {| pos := pos; prev := prev; rest := rest; cap := None |}
            (fun st => Some st) with
  | Some st =>
      Some {| m_index := pos; m_end := Regex.pos st; m_group := cap st |}
  | None =>
      match rest with
      | [] => None
      | c :: rest' => execFrom ic r (S pos) (Some c) rest'
      end
  end.

(** [r.exec(s)] with [r.lastIndex = lastIndex]. *)
Definition execAt (ic : bool) (r : regex) (s : jsstring) (lastIndex : nat)
  : option Match :=
  if (length s <? lastIndex)%nat then None
  else execFrom ic r lastIndex
         (match lastIndex with O => None | S i => nth_error s i end)
         (skipn lastIndex s).

(** [r.test(s)] for a pattern without the [g] flag, or with
    [lastIndex] reset to 0. *)
Definition test (ic : bool) (r : regex) (s : jsstring) : bool :=
  match execAt ic r s 0 with Some _ => true | None => false end.

(** [[...s.matchAll(r)]]: the successive matches, each search starting
    where the last match ended (one further after an empty match). *)
Fixpoint matchAllFrom (fuel : nat) (ic : bool) (r : regex) (s : jsstring)
    (lastIndex : nat) : list Match :=
  match fuel with
  | O => []
  | S fuel' =>
      match execAt ic r s lastIndex with
      | None => []
      | Some m =>
          let next := if (m_end m =? m_index m)%nat then S (m_end m)
                      else m_end m in
          m :: matchAllFrom fuel' ic r s next
      end
  end.

Definition matchAll (ic : bool) (r : regex) (s : jsstring) : list Match :=
  matchAllFrom (S (length s)) ic r s 0.

(** [match[0]] and [match[1]] *)
Definition matched (s : jsstring) (m : Match) : jsstring :=
  slice (m_index m) (m_end m) s.
Definition group1 (s : jsstring) (m : Match) : option jsstring :=
  match m_group m with
  | Some (a, b) => Some (slice a b s)
  | None => None
  end.

(** Pattern builders. *)
Definition str (s : string) : regex :=
  fold_right (fun c r => Seq (Chr c) r) Empty (js s).
Definition opt (r : regex) : regex := Rep r 0 (Some 1%nat).
Definition star (r : regex) : regex := Rep r 0 None.
Definition plus (r : regex) : regex := Rep r 1 None.
Fixpoint alts (rs : list regex) : regex :=
  match rs with
  | [] => Empty
  | [r] => r
  | r :: rs' => Alt r (alts rs')
  end.
Fixpoint seqs (rs : list regex) : regex :=
  match rs with
  | [] => Empty
  | [r] => r
  | r :: rs' => Seq r (seqs rs')
  end.

(** The ranges of a set that lists single characters, and of a range
    [a-b]. *)
Definition chars (s : string) : list (N * N) := map (fun c => (c, c)) (js s).
Definition range (a b : ascii) : list (N * N) := [(code a, code b)].

(** [\d] and [\s] as sets. *)
Definition digit : regex := CharSet [(48, 57)]%N.
Definition space : regex :=
  CharSet [(9, 13); (32, 32); (160, 160); (5760, 5760); (8192, 8202);
           (8232, 8233); (8239, 8239); (8287, 8287); (12288, 12288);
           (65279, 65279)]%N.

End Regex.

(* ================================================================= *)
(** ** Classifier (services/classifier.service.js) *)

Module Classifier.
Import Regex.

Inductive AmountType :=
| total_bill | paid | due | subtotal | tax | discount | service_charge.

Definition type_eqb (a b : AmountType) : bool :=
  match a, b with
  | total_bill, total_bill | paid, paid | due, due | subtotal, subtotal
  | tax, tax | discount, discount | service_charge, service_charge => true
  | _, _ => false
  end.

(** A classification rule; every pattern of the table has the flag [i]
    and no other.  Priorities and scores are small integers, on which the
    arithmetic of binary64 numbers is exact; they are kept in [Z]. *)
Record Rule := {
  r_type : AmountType;
  keywords : list jsstring;
  patterns : list regex;
  priority : Z
}.

Definition word (s : string) : regex := seqs [WordBoundary; str s; WordBoundary].

(** [this.classificationRules] *)
Definition classificationRules : list Rule :=
  [ {| r_type := total_bill;
       keywords := map js ["total amount"; "grand total"; "invoice total";
                           "net amount"; "total"; "t0tal"; "t0tal:"]%string;
       patterns := [seqs [str "t"; CharSet (chars "0o"); str "tal"]];
       priority := 10 |};
    {| r_type := paid;
       keywords := map js ["amount paid"; "paid"; "received"; "payment";
                           "cash"; "pald"; "pald:"]%string;
       patterns := [seqs [str "pa"; CharSet (chars "il"); str "d"]];
       priority := 9 |};
    {| r_type := due;
       keywords := map js ["balance due"; "due"; "balance"; "remaining";
                           "outstanding"; "due:"; "balance:"]%string;
       patterns := [word "due"; word "balance"];
       priority := 9 |};
    {| r_type := subtotal;
       keywords := map js ["subtotal"; "sub-total"; "sub total";
                           "before tax"]%string;
       patterns := [seqs [str "sub"; star space; str "total"]];
       priority := 8 |};
    {| r_type := tax;
       keywords := map js ["tax"; "gst"; "vat"; "cgst"; "sgst"; "igst"]%string;
       patterns := [word "tax"; word "gst"; word "vat"];
       priority := 7 |};
    {| r_type := discount;
       keywords := map js ["discount"; "off"; "reduction"]%string;
       patterns := [str "discount"];
       priority := 6 |};
    {| r_type := service_charge;
       keywords := map js ["room charges"; "consultation"; "lab tests";
                           "medicines"; "charges"]%string;
       patterns := [str "charges"; str "consultation"];
       priority := 5 |} ].

(** [/[|\n\r]+/] *)
Definition isSeparator (c : char) : bool := one_of [124; 10; 13]%N c.

Definition findContextSnippets (text : jsstring) : list jsstring :=
  filter (fun s => (0 <? length s)%nat)
         (map trim (splitRuns isSeparator text)).

(** The character sets [[l1IO0-9,]] and [[l1IO0-9]]. *)
Definition amountChars : list (N * N) :=
  chars "l1IO" ++ range "0" "9" ++ chars ",".
Definition fractionChars : list (N * N) := chars "l1IO" ++ range "0" "9".

(** [([l1IO0-9,]+(?:\.[l1IO0-9]{1,2})?)] *)
Definition amountGroup : regex :=
  Group (Seq (plus (CharSet amountChars))
             (opt (Seq (str ".") (Rep (CharSet fractionChars) 1 (Some 2%nat))))).

Definition euro : regex := Chr 8364%N.
Definition pound : regex := Chr 163%N.
Definition rupee : regex := Chr 8377%N.

(** [Rs\.?] *)
Definition rs : regex := Seq (str "Rs") (opt (str ".")).

(** The two patterns of [extractAmountsFromSnippet], both with flags
    [gi]. *)
Definition amountPatterns : list regex :=
  [ seqs [alts [rs; str "INR"; str "USD"; str "EUR"; str "GBP";
                str "$"; euro; pound; rupee];
          star space; amountGroup];
    seqs [str ":"; star space;
          opt (alts [rs; str "INR"; str "$"; euro; pound; rupee]);
          star space; amountGroup] ].

Record SnippetAmount := {
  sa_value : number;
  sa_raw : jsstring;
  sa_position : nat
}.

(** The chain of replacements applied to a captured amount. *)
Definition normalizeCapture (valueStr : jsstring) : jsstring :=
  replaceAll (N.eqb 79) 48%N
    (replaceAll (one_of [105; 73]%N) 49%N
      (replaceAll (one_of [108; 76]%N) 49%N
        (removeAll (fun c => (c =? 44)%N || isWhiteSpace c) valueStr))).

(** The body of the inner loop of [extractAmountsFromSnippet]. *)
Definition amountOfMatch (snippet : jsstring) (amounts : list SnippetAmount)
    (m : Match) : list SnippetAmount :=
  match group1 snippet m with
  | None | Some [] => amounts
  | Some valueStr =>
      let normalized := normalizeCapture valueStr in
      let value := parseFloat normalized in
      if isFinite value && gtb value zero then
        amounts ++
          [{| sa_value := div (round (mul value (ofZ 100))) (ofZ 100);
              sa_raw := matched snippet m;
              sa_position := m_index m |}]
      else amounts
  end.

(** [map.set(k, v)] on a [Map] kept as the list of its entries in
    insertion order: an existing key keeps its place. *)
Fixpoint mapSet {A} (entries : list (number * A)) (k : number) (v : A)
  : list (number * A) :=
  match entries with
  | [] => [(k, v)]
  | (k', v') :: entries' =>
      if sameValueZero k' k then (k', v) :: entries'
      else (k', v') :: mapSet entries' k v
  end.

(** [[...new Map(amounts.map(a => [a.value, a])).values()]] *)
Definition uniqueByValue (amounts : list SnippetAmount) : list SnippetAmount :=
  map snd (fold_left (fun m a => mapSet m (sa_value a) a) amounts []).

Definition extractAmountsFromSnippet (snippet : jsstring) : list SnippetAmount :=
  let amounts :=
    fold_left
      (fun amounts pattern =>
         fold_left (amountOfMatch snippet) (matchAll true pattern snippet) amounts)
      amountPatterns [] in
  uniqueByValue amounts.

Record TypeMatch := {
  tm_type : AmountType;
  tm_confidence : number;
  tm_keywords : list jsstring;
  tm_patternMatched : bool;
  tm_score : Z
}.

(** The pattern loop of a rule: the first pattern that matches adds
    twice the priority and ends the loop. *)
Fixpoint checkPatterns (prio : Z) (snippet : jsstring) (ps : list regex)
    (score : Z) : Z * bool :=
  match ps with
  | [] => (score, false)
  | p :: ps' =>
      if test true p snippet then ((score + prio * 2)%Z, true)
      else checkPatterns prio snippet ps' score
  end.

Section WithHost.
(** [String.prototype.toLowerCase] of the host. *)
Variable toLowerCase : jsstring -> jsstring.
Variable config : Config.

(** The keyword loop of a rule. *)
Definition checkKeywords (prio : Z) (lowerSnippet : jsstring)
    (kws : list jsstring) (score : Z) : Z * list jsstring :=
  fold_left
    (fun '(score, matchedKeywords) keyword =>
       if includes (toLowerCase keyword) lowerSnippet
       then ((score + prio)%Z, matchedKeywords ++ [keyword])
       else (score, matchedKeywords))
    kws (score, []).

(** [Math.min(0.95, 0.5 + (score / 30))] *)
Definition confidenceOfScore (score : Z) : number :=
  JsNumber.min (lit 95 2) (add (lit 5 1) (div (ofZ score) (ofZ 30))).

(** The body of the loop over the rules; the state is
    [(bestMatch, highestScore)]. *)
Definition ruleStep (snippet lowerSnippet : jsstring)
    (st : option TypeMatch * Z) (rule : Rule) : option TypeMatch * Z :=
  let '(bestMatch, highestScore) := st in
  let '(score, patternMatched) :=
    checkPatterns (priority rule) snippet (patterns rule) 0 in
  let '(score, matchedKeywords) :=
    checkKeywords (priority rule) lowerSnippet (keywords rule) score in
  if (highestScore <? score)%Z then
    (Some {| tm_type := r_type rule;
             tm_confidence := confidenceOfScore score;
             tm_keywords := matchedKeywords;
             tm_patternMatched := patternMatched;
             tm_score := score |}, score)
  else (bestMatch, highestScore).

Definition matchSnippetToTypeWith (rules : list Rule) (snippet : jsstring)
  : option TypeMatch :=
  let lowerSnippet := toLowerCase snippet in
  fst (fold_left (ruleStep snippet lowerSnippet) rules (None, 0%Z)).

Definition matchSnippetToType (snippet : jsstring) : option TypeMatch :=
  matchSnippetToTypeWith classificationRules snippet.

(** An entry of the local [amounts] array, and the entries returned. *)
Record ClassifiedAmount := {
  ca_type : AmountType;
  ca_value : number;
  ca_source : jsstring;
  ca_confidence : number
}.

Record OutputAmount := {
  type : AmountType;
  value : number;
  source : jsstring
}.

Record ClassificationDetail := {
  cd_amount : number;
  cd_snippet : jsstring;
  cd_type : AmountType;
  cd_matched_keywords : list jsstring;
  cd_pattern_matched : bool
}.

Record ClassifyResult := {
  amounts : list OutputAmount;
  confidence : number;
  classification_details : list ClassificationDetail
}.

(** The local state of [classifyAmounts].  [classifiedPairs] is a set of
    strings [type:value]; two such strings are equal exactly when the
    types are equal and the numbers print alike, which for numbers is
    the comparison [sameValueZero]. *)
Record ClassifyState := {
  cs_amounts : list ClassifiedAmount;
  cs_details : list ClassificationDetail;
  cs_amountUsage : list (number * bool);
  cs_classifiedPairs : list (AmountType * number)
}.

Definition pairsHas (pairs : list (AmountType * number))
    (t : AmountType) (v : number) : bool :=
  existsb (fun '(t', v') => type_eqb t' t && sameValueZero v' v) pairs.

(** [Math.abs(na - value) < 0.01] *)
Definition near (value na : number) : bool :=
  ltb (JsNumber.abs (sub na value)) (lit 1 2).

(** [snippet.length > 80 ? snippet.substring(0, 80) + '...' : snippet] *)
Definition truncate (snippet : jsstring) : jsstring :=
  if (80 <? length snippet)%nat then substring0 80 snippet ++ js "..."
  else snippet.

(** The body of the loop over the amounts of one snippet. *)
Definition classifyValue (normalizedAmounts : list number)
    (snippet : jsstring) (st : ClassifyState) (sa : SnippetAmount)
  : ClassifyState :=
  match find (near (sa_value sa)) normalizedAmounts with
  | None => st
  | Some matchedAmount =>
      if negb (truthy matchedAmount) then st
      else
        match matchSnippetToType snippet with
        | None => st
        | Some classification =>
            if leb (tm_confidence classification) (lit 5 1) then st
            else if pairsHas (cs_classifiedPairs st)
                      (tm_type classification) matchedAmount then st
            else
              let truncatedSnippet := truncate snippet in
              {| cs_amounts := cs_amounts st ++
                   [{| ca_type := tm_type classification;
                       ca_value := matchedAmount;
                       ca_source :=
                         js "text: '" ++ truncatedSnippet ++ js "'";
                       ca_confidence := tm_confidence classification |}];
                 cs_details := cs_details st ++
                   [{| cd_amount := matchedAmount;
                       cd_snippet := snippet;
                       cd_type := tm_type classification;
                       cd_matched_keywords := tm_keywords classification;
                       cd_pattern_matched :=
                         tm_patternMatched classification |}];
                 cs_amountUsage := mapSet (cs_amountUsage st) matchedAmount true;
                 cs_classifiedPairs := cs_classifiedPairs st ++
                   [(tm_type classification, matchedAmount)] |}
        end
  end.

(** The body of the loop over the snippets. *)
Definition classifySnippet (normalizedAmounts : list number)
    (st : ClassifyState) (snippet : jsstring) : ClassifyState :=
  let snippetAmounts := extractAmountsFromSnippet snippet in
  match snippetAmounts with
  | [] => st
  | _ => fold_left (classifyValue normalizedAmounts snippet) snippetAmounts st
  end.

Definition hasType (t : AmountType) (l : list ClassifiedAmount) : bool :=
  existsb (fun a => type_eqb (ca_type a) t) l.

Definition calculateClassificationConfidence (amounts : list ClassifiedAmount)
    (totalAmounts : nat) : number :=
  match totalAmounts with
  | O => zero
  | _ =>
      let count := ofZ (Z.of_nat (length amounts)) in
      let classificationRate := div count (ofZ (Z.of_nat totalAmounts)) in
      let confidence := add (lit 4 1) (mul classificationRate (lit 3 1)) in
      let explicitMatches :=
        length (filter (fun a => negb (includes (js "heuristic") (ca_source a)))
                       amounts) in
      let confidence :=
        if (0 <? length amounts)%nat
        then add confidence
                 (mul (div (ofZ (Z.of_nat explicitMatches)) count) (lit 3 1))
        else confidence in
      let confidence :=
        if hasType total_bill amounts then add confidence (lit 5 2)
        else confidence in
      let confidence :=
        if hasType paid amounts then add confidence (lit 5 2) else confidence in
      let confidence :=
        if hasType due amounts then add confidence (lit 5 2) else confidence in
      JsNumber.max (orDefault (minClassificationConfidence config) (lit 3 1))
                   (JsNumber.min (lit 95 2) confidence)
  end.

Definition emptyResult : ClassifyResult :=
  {| amounts := []; confidence := zero; classification_details := [] |}.

Definition initClassifyState (normalizedAmounts : list number) : ClassifyState :=
  {| cs_amounts := [];
     cs_details := [];
     cs_amountUsage :=
       fold_left (fun m a => mapSet m a false) normalizedAmounts [];
     cs_classifiedPairs := [] |}.

(** [classifyAmounts(text, normalizedAmounts)]; [None] stands for an
    argument that is [null] or [undefined]. *)
Definition classifyAmounts (text : option jsstring)
    (normalizedAmounts : option (list number)) : ClassifyResult :=
  match text, normalizedAmounts with
  | None, _ | Some [], _ | _, None | _, Some [] => emptyResult
  | Some text, Some normalizedAmounts =>
      let snippets := findContextSnippets text in
      let st := fold_left (classifySnippet normalizedAmounts) snippets
                          (initClassifyState normalizedAmounts) in
      let confidence :=
        calculateClassificationConfidence (cs_amounts st)
          (length normalizedAmounts) in
      {| amounts :=
           map (fun a => {| type := ca_type a; value := ca_value a;
                            source := ca_source a |}) (cs_amounts st);
         confidence := parseFloat_toFixed2 confidence;
         classification_details := cs_details st |}
  end.

(** The messages of [validateClassification]. *)
Inductive Issue :=
| MultipleAmounts (t : AmountType) (values : list number)
| InconsistentAmounts (total paid due : number).

Record Validation := {
  valid : bool;
  issues : list Issue
}.

(** [typeMap]: the values pushed under each type, in order.  The keys
    are the seven types, none of which names a property that an empty
    object inherits. *)
Definition TypeMap := AmountType -> option (list number).

Definition typeMapPush (m : TypeMap) (t : AmountType) (v : number) : TypeMap :=
  fun t' =>
    if type_eqb t' t
    then Some (match m t with Some vs => vs | None => [] end ++ [v])
    else m t'.

Definition buildTypeMap (amounts : list OutputAmount) : TypeMap :=
  fold_left (fun m a => typeMapPush m (type a) (value a)) amounts
            (fun _ => None).

Definition singletonTypes : list AmountType := [total_bill; subtotal; paid].

(** The loop over [singletonTypes]. *)
Definition singletonIssues (typeMap : TypeMap) : list Issue :=
  fold_left
    (fun issues t =>
       match typeMap t with
       | Some vs => if (1 <? length vs)%nat
                    then issues ++ [MultipleAmounts t vs] else issues
       | None => issues
       end)
    singletonTypes [].

Definition consistencyIssues (typeMap : TypeMap) (issues : list Issue)
  : list Issue :=
  match typeMap total_bill, typeMap paid, typeMap due with
  | Some totals, Some paids, Some dues =>
      let total := hd NaN totals in
      let paid_ := hd NaN paids in
      let due_ := maxList dues in
      let expectedDue := sub total paid_ in
      if gtb (JsNumber.abs (sub expectedDue due_)) (ofZ 1)
      then issues ++ [InconsistentAmounts total paid_ due_]
      else issues
  | _, _, _ => issues
  end.

Definition validateClassification (amounts : list OutputAmount) : Validation :=
  let typeMap := buildTypeMap amounts in
  let issues := consistencyIssues typeMap (singletonIssues typeMap) in
  {| valid := (length issues =? 0)%nat; issues := issues |}.


End WithHost.

End Classifier.

(* ================================================================= *)
(** ** Extractor (the OCR service) *)

Module Ocr.
Import Regex.

Inductive CurrencyCode := INR | USD | EUR | GBP.

Record CurrencyHint := {
  h_pattern : regex;
  h_ignoreCase : bool;
  h_code : CurrencyCode
}.

(** [\b(?:a|b|...)\b|sym] *)
Definition hintPattern (names : list regex) (sym : regex) : regex :=
  Alt (seqs [WordBoundary; alts names; WordBoundary]) sym.

(** [this.currencyHints] *)
Definition currencyHints : list CurrencyHint :=
  [ {| h_pattern :=
         hintPattern [str "inr"; Seq (str "rs") (opt (str "."));
                      Seq (str "rupee") (opt (str "s"))] (Chr 8377%N);
       h_ignoreCase := true; h_code := INR |};
    {| h_pattern :=
         hintPattern [str "usd"; Seq (str "dollar") (opt (str "s"))] (str "$");
       h_ignoreCase := false; h_code := USD |};
    {| h_pattern :=
         hintPattern [str "eur"; Seq (str "euro") (opt (str "s"))] (Chr 8364%N);
       h_ignoreCase := true; h_code := EUR |};
    {| h_pattern :=
         hintPattern [str "gbp"; Seq (str "pound") (opt (str "s"))] (Chr 163%N);
       h_ignoreCase := true; h_code := GBP |} ].

(** [this.monetaryKeywords] *)
Definition monetaryKeywords : list jsstring :=
  map js ["subtotal"; "total"; "amount"; "paid"; "cash"; "change";
          "due"; "balance"; "discount"; "tax"; "gst"; "vat"; "cgst"; "sgst";
          "price"; "cost"; "bill"; "payment"; "charge"; "fee"; "charges";
          "pald"]%string.

Record CurrencyCount := { code_ : CurrencyCode; count : nat }.

(** [xs.sort(cmp)]: the sort is stable, so with a consistent comparison
    its result is the one of an insertion sort that never moves an
    element across one it compares equal to. *)
Fixpoint insertSorted {A} (cmp : A -> A -> Z) (x : A) (l : list A) : list A :=
  match l with
  | [] => [x]
  | y :: l' => if (0 <? cmp x y)%Z then y :: insertSorted cmp x l'
               else x :: l
  end.

Definition sort {A} (cmp : A -> A -> Z) (l : list A) : list A :=
  fold_right (insertSorted cmp) [] l.

(** [this.excludePatterns], each with its [i] flag; all have the [g]
    flag and so keep a [lastIndex] between calls of [test]. *)
Definition sepChars : regex := CharSet (chars "/-.").
Definition idPattern (who : string) (fields : list regex) : regex :=
  seqs [str who; star space; alts fields; star space; opt (str ":");
        star space; plus digit].

Definition excludePatterns : list (regex * bool) :=
  [ (seqs [WordBoundary; alts [str "invoice"; str "bill"]; star space;
           opt (str "#"); star space; opt (str ":"); star space;
           Rep digit 5 None; WordBoundary], true);
    (seqs [WordBoundary; Rep digit 1 (Some 2%nat); sepChars;
           Rep digit 1 (Some 2%nat); sepChars; Rep digit 2 (Some 4%nat);
           WordBoundary], false);
    (seqs [WordBoundary; Rep digit 1 (Some 2%nat); str ":";
           Rep digit 2 (Some 2%nat);
           opt (Seq (str ":") (Rep digit 2 (Some 2%nat))); star space;
           opt (alts [str "am"; str "pm"])], true);
    (idPattern "patient" [str "name"; str "id"], true);
    (idPattern "doctor" [str "name"; str "id"], true);
    (idPattern "room" [str "no"; str "number"], true);
    (seqs [WordBoundary;
           alts [str "phone"; str "tel"; str "mobile"; str "contact"];
           star space; opt (str ":"); star space; Rep digit 10 None], true) ].

(** The [lastIndex] of each exclude pattern: the only state that
    outlives a call. *)
Definition RegexState := list nat.
Definition initialRegexState : RegexState := map (fun _ => O) excludePatterns.

(** [pattern.test(line)] on a pattern with the [g] flag: the search
    starts at [lastIndex], which becomes the end of the match, or 0 when
    there is none. *)
Definition testGlobal (ic : bool) (r : regex) (line : jsstring)
    (lastIndex : nat) : bool * nat :=
  match execAt ic r line lastIndex with
  | Some m => (true, m_end m)
  | None => (false, O)
  end.

Fixpoint matchesExcludeLoop (line : jsstring) (ps : list (regex * bool))
    (st : RegexState) : bool * RegexState :=
  match ps, st with
  | (r, ic) :: ps', lastIndex :: st' =>
      let '(found, lastIndex') := testGlobal ic r line lastIndex in
      if found then (true, lastIndex' :: st')
      else let '(b, st'') := matchesExcludeLoop line ps' st' in
           (b, lastIndex' :: st'')
  | _, _ => (false, st)
  end.

Definition matchesExcludePattern (line : jsstring) (st : RegexState)
  : bool * RegexState :=
  matchesExcludeLoop line excludePatterns st.

(** [/[\$€£₹]/], [/rs\.?\s/i] and
    [/:\s*(?:Rs\.?|INR|\$|€|£|₹)?\s*[l1IO0-9,]+/i] *)
Definition currencySymbol : regex :=
  CharSet [(36, 36); (8364, 8364); (163, 163); (8377, 8377)]%N.
Definition rsMarker : regex := seqs [str "rs"; opt (str "."); space].
Definition colonNumber : regex :=
  seqs [str ":"; star space;
        opt (alts [Classifier.rs; str "INR"; str "$"; Classifier.euro;
                   Classifier.pound; Classifier.rupee]);
        star space; plus (CharSet Classifier.amountChars)].

(** [(?:Rs\.?|INR|USD|EUR|GBP|\$|€|£|₹|:)\s*(...)], flags [gi] *)
Definition tokenPattern : regex :=
  seqs [alts [Classifier.rs; str "INR"; str "USD"; str "EUR"; str "GBP";
              str "$"; Classifier.euro; Classifier.pound; Classifier.rupee;
              str ":"];
        star space; Classifier.amountGroup].

(** The chain of replacements that gives the key of a token. *)
Definition normalizeToken (token : jsstring) : jsstring :=
  replaceAll (N.eqb 79) 48%N
    (replaceAll (one_of [108; 76; 105; 73]%N) 49%N
      (removeAll (fun c => (c =? 44)%N || isWhiteSpace c) token)).

(** The body of the loop over the matches of a segment; the state is
    [(tokens, seenValues)]. *)
Definition tokenOfMatch (segment : jsstring)
    (st : list jsstring * list jsstring) (m : Match)
  : list jsstring * list jsstring :=
  let '(tokens, seenValues) := st in
  match group1 segment m with
  | None | Some [] => st
  | Some token =>
      let token := trim token in
      match token with
      | [] => st
      | _ =>
          let normalizedValue := normalizeToken token in
          match normalizedValue with
          | [] => st
          | _ =>
              if includes (js "%") token || includes (js "%") normalizedValue
              then st
              else
                let testValue := parseFloat normalizedValue in
                if negb (isFinite testValue) || leb testValue zero then st
                else if ltb testValue (ofZ 1) then st
                else if existsb (str_eqb normalizedValue) seenValues then st
                else (tokens ++ [token], seenValues ++ [normalizedValue])
          end
      end
  end.

Record OcrResult := {
  raw_tokens : list jsstring;
  currency_hint : option CurrencyCode;
  confidence : number;
  extracted_text : jsstring
}.

Section WithHost.
Variable toLowerCase : jsstring -> jsstring.
Variable config : Config.

Definition isMonetaryLine (line : jsstring) (st : RegexState)
  : bool * RegexState :=
  let lowerLine := toLowerCase line in
  let '(excluded, st') := matchesExcludePattern line st in
  if excluded then (false, st')
  else if existsb (fun keyword => includes keyword lowerLine) monetaryKeywords
  then (true, st')
  else if test false currencySymbol line || test true rsMarker line
  then (true, st')
  else if test true colonNumber line then (true, st')
  else (false, st').

(** The body of the loop over the segments; the state is
    [(tokens, seenValues)] and the exclude patterns' [lastIndex]. *)
Definition segmentStep
    (acc : list jsstring * list jsstring * RegexState) (segment : jsstring)
  : list jsstring * list jsstring * RegexState :=
  let '(ts, st) := acc in
  let '(monetary, st') := isMonetaryLine segment st in
  if negb monetary then (ts, st')
  else (fold_left (tokenOfMatch segment) (matchAll true tokenPattern segment) ts,
        st').

Definition extractNumericTokensFromText (text : jsstring) (st : RegexState)
  : list jsstring * RegexState :=
  let segments :=
    filter (fun s => (0 <? length s)%nat)
           (map trim (splitRuns Classifier.isSeparator text)) in
  let '(ts, st') := fold_left segmentStep segments (([], []), st) in
  (fst ts, st').

(** The body of the loop of [detectCurrency]. *)
Definition countHint (lowerText : jsstring)
    (currencyMatches : list CurrencyCount) (h : CurrencyHint)
  : list CurrencyCount :=
  let matches := matchAll (h_ignoreCase h) (h_pattern h) lowerText in
  if (0 <? length matches)%nat
  then currencyMatches ++ [{| code_ := h_code h; count := length matches |}]
  else currencyMatches.

Definition detectCurrency (text : jsstring) : CurrencyCode :=
  let lowerText := toLowerCase text in
  let currencyMatches := fold_left (countHint lowerText) currencyHints [] in
  match currencyMatches with
  | [] => USD
  | _ =>
      match sort (fun a b => (Z.of_nat (count b) - Z.of_nat (count a))%Z)
                 currencyMatches with
      | first :: _ => code_ first
      | [] => USD
      end
  end.

Definition calculateConfidence (ocrConfidence : number) (tokenCount : nat)
    (text : jsstring) : number :=
  match tokenCount with
  | O => zero
  | _ =>
      let confidence :=
        if gtb ocrConfidence zero then ocrConfidence else lit 8 1 in
      let confidence :=
        if (2 <=? tokenCount)%nat && (tokenCount <=? 10)%nat
        then JsNumber.min (lit 95 2) (add confidence (lit 1 1))
        else if (tokenCount =? 1)%nat then mul confidence (lit 9 1)
        else if (15 <? tokenCount)%nat then mul confidence (lit 8 1)
        else confidence in
      let monetaryKeywordCount :=
        length (filter (fun kw => includes kw (toLowerCase text))
                       monetaryKeywords) in
      let confidence :=
        if (2 <=? monetaryKeywordCount)%nat
        then JsNumber.min (lit 95 2) (add confidence (lit 5 2))
        else confidence in
      JsNumber.max (orDefault (minOcrConfidence config) (lit 5 1))
                   (JsNumber.min (lit 95 2) confidence)
  end.

(** The external collaborators: image buffers, the decoding of a base64
    image and the OCR engine, which returns a text and a confidence or
    fails. *)
Variable Buffer : Type.
Variable Error : Type.
Variable decodeBase64 : jsstring -> Buffer.
Variable imageBufferToText : Buffer -> Error + (jsstring * number).

(** What the service and the handlers throw: the error of the OCR
    engine, [Error('Invalid base64 image format')], and the [TypeError]
    of calling [replace] on a value that has none. *)
Inductive Thrown :=
| OcrFailed (e : Error)
| InvalidBase64Image
| NotAFunction.

(** The argument of [extractFromTextOrImage]: the handlers pass a
    sanitized text or [null], and the [image_base64] of the request body
    as it came. *)
Record ExtractInput := {
  in_text : option jsstring;
  in_image_base64 : field;
  in_fileBuffer : option Buffer
}.

Definition orEmpty (s : option jsstring) : jsstring :=
  match s with Some t => t | None => [] end.

Definition extractFromTextOrImage (input : ExtractInput) (st : RegexState)
  : (Thrown + OcrResult) * RegexState :=
  let extractedText := orEmpty (in_text input) in
  let buffer : Thrown + option Buffer :=
    match in_fileBuffer input with
    | Some b => inr (Some b)
    | None =>
        if toBoolean (in_image_base64 input)
        then match in_image_base64 input with
             | Str image_base64 => inr (Some (decodeBase64 image_base64))
             | _ => inl InvalidBase64Image
             end
        else inr None
    end in
  let ocr : Thrown + (jsstring * number) :=
    match buffer with
    | inl e => inl e
    | inr (Some b) =>
        match imageBufferToText b with
        | inl e => inl (OcrFailed e)
        | inr (ocrText, ocrConfidence) =>
            inr (match extractedText with
                 | [] => ocrText
                 | _ => extractedText ++ [10%N] ++ ocrText
                 end, ocrConfidence)
        end
    | inr None => inr (extractedText, zero)
    end in
  match ocr with
  | inl e => (inl e, st)
  | inr (extractedText, ocrConfidence) =>
      match trim extractedText with
      | [] => (inr {| raw_tokens := []; currency_hint := None;
                      confidence := zero; extracted_text := [] |}, st)
      | _ =>
          let '(rawTokens, st') := extractNumericTokensFromText extractedText st in
          let currencyHint := detectCurrency extractedText in
          let confidence :=
            calculateConfidence ocrConfidence (length rawTokens) extractedText in
          (inr {| raw_tokens := rawTokens;
                  currency_hint := Some currencyHint;
                  confidence := parseFloat_toFixed2 confidence;
                  extracted_text := extractedText |}, st')
      end
  end.

End WithHost.

End Ocr.

(* ================================================================= *)
(** ** The [/final] route (routes/detection.routes.js) *)

Module Pipeline.
Import Ocr.

(** [validators.sanitizeText]: drops NUL and the control characters
    other than tab, line feed and carriage return. *)
Definition isControlChar (c : char) : bool :=
  (c =? 0)%N || in_range 1 8 c || in_range 11 12 c || in_range 14 31 c
  || (c =? 127)%N.

Definition sanitizeText (text : jsstring) : jsstring :=
  match text with
  | [] => []
  | _ => removeAll isControlChar text
  end.

Inductive Status := no_amounts_found | normalization_failed | ok.

(** The block that the LLM validator adds to the output. *)
Record LlmValidation := {
  validated : bool;
  llm_valid : bool;
  llm_issues : list jsstring;
  llm_suggestions : list jsstring
}.

Record Metadata := {
  extraction_confidence : number;
  normalization_confidence : number;
  classification_confidence : number;
  total_tokens_extracted : nat;
  amounts_normalized : nat;
  amounts_classified : nat
}.

Record FinalOutput := {
  currency : option CurrencyCode;          (* [None] prints as 'UNKNOWN' *)
  amounts : list Classifier.OutputAmount;
  metadata : Metadata;
  llm_validation : option LlmValidation
}.

Section WithHost.
Variable toLowerCase : jsstring -> jsstring.
Variable config : Config.
Variable Buffer : Type.
Variable Error : Type.
Variable decodeBase64 : jsstring -> Buffer.
Variable imageBufferToText : Buffer -> Error + (jsstring * number).

(** The LLM validator: whether a credential is configured, and the
    answer of [validateClassification], which catches its own failures. *)
Variable llmEnabled : bool.
Variable llmValidateClassification :
  jsstring -> list Classifier.OutputAmount -> LlmValidation.

(** What the handler sends: a 400 answer, one of the three results with a
    status, or an error passed to [next]. *)
Inductive Response :=
| MissingInput
| NoAmountsFound (reason : jsstring) (extracted_text : jsstring)
| NormalizationFailed (reason : jsstring) (raw_tokens : list jsstring)
    (extracted_text : jsstring)
| Success (output : FinalOutput)
| Failure (e : Thrown Error).

Definition status (r : Response) : option Status :=
  match r with
  | NoAmountsFound _ _ => Some no_amounts_found
  | NormalizationFailed _ _ _ => Some normalization_failed
  | Success _ => Some ok
  | MissingInput | Failure _ => None
  end.

(** [req.body.text], [req.body.image_base64] and [req.file.buffer]; the
    handler checks the type of neither field of the body. *)
Record Request := {
  body_text : field;
  body_image_base64 : field;
  file_buffer : option Buffer
}.

Definition noAmountsReason : jsstring :=
  js "document too noisy or contains no numeric amounts".
Definition normalizationReason : jsstring :=
  js "could not parse any valid numeric amounts from extracted tokens".

(** [a || b || ''] on strings. *)
Definition firstNonEmpty (a b : jsstring) : jsstring :=
  match a with
  | [] => b
  | _ => a
  end.

(** The handler of [POST /final], from the extraction result on. *)
Definition afterExtraction (sanitizedText : option jsstring)
    (ocrResult : OcrResult) : Response :=
  match raw_tokens ocrResult with
  | [] => NoAmountsFound noAmountsReason (Ocr.extracted_text ocrResult)
  | _ =>
      let normalizedResult :=
        Normalizer.normalizeTokens config (raw_tokens ocrResult) in
      match Normalizer.normalized_amounts normalizedResult with
      | [] => NormalizationFailed normalizationReason (raw_tokens ocrResult)
                (Ocr.extracted_text ocrResult)
      | _ =>
          let text :=
            firstNonEmpty (Ocr.extracted_text ocrResult)
                          (orEmpty sanitizedText) in
          let classifiedResult :=
            Classifier.classifyAmounts toLowerCase config (Some text)
              (Some (Normalizer.normalized_amounts normalizedResult)) in
          let outAmounts :=
            map (fun a =>
                   {| Classifier.type := Classifier.type a;
                      Classifier.value := Classifier.value a;
                      Classifier.source :=
                        firstNonEmpty (Classifier.source a) (js "inferred") |})
                (Classifier.amounts classifiedResult) in
          let llm :=
            if llmEnabled then
              let validation := llmValidateClassification text outAmounts in
              if validated validation then Some validation else None
            else None in
          Success
            {| currency := currency_hint ocrResult;
               amounts := outAmounts;
               metadata :=
                 {| extraction_confidence := Ocr.confidence ocrResult;
                    normalization_confidence :=
                      Normalizer.normalization_confidence normalizedResult;
                    classification_confidence :=
                      Classifier.confidence classifiedResult;
                    total_tokens_extracted := length (raw_tokens ocrResult);
                    amounts_normalized :=
                      length (Normalizer.normalized_amounts normalizedResult);
                    amounts_classified :=
                      length (Classifier.amounts classifiedResult) |};
               llm_validation := llm |}
      end
  end.

(** [text ? validators.sanitizeText(text) : null]: [sanitizeText] calls
    [text.replace], which a truthy value that is not a string does not
    have. *)
Definition sanitized (text : field) : Thrown Error + option jsstring :=
  if toBoolean text
  then match text with
       | Str text => inr (Some (sanitizeText text))
       | _ => inl (NotAFunction Error)
       end
  else inr None.

(** The extraction step of the handler: [None] when the request carries
    no input, else what is thrown, or the sanitized text and the result
    of [extractFromTextOrImage]. *)
Definition extraction (req : Request) (st : RegexState)
  : option (Thrown Error + (option jsstring * OcrResult)) * RegexState :=
  if negb (toBoolean (body_text req))
     && negb (toBoolean (body_image_base64 req))
     && negb (Normalizer.isSome (file_buffer req))
  then (None, st)
  else
    match sanitized (body_text req) with
    | inl e => (Some (inl e), st)
    | inr sanitizedText =>
        let '(res, st') :=
          extractFromTextOrImage toLowerCase config Buffer Error decodeBase64
            imageBufferToText
            {| in_text := sanitizedText;
               in_image_base64 := body_image_base64 req;
               in_fileBuffer := file_buffer req |} st in
        match res with
        | inl e => (Some (inl e), st')
        | inr ocrResult => (Some (inr (sanitizedText, ocrResult)), st')
        end
    end.

(** [router.post('/final', ...)]: the response, and the state of the
    exclude patterns it leaves behind. *)
Definition final (req : Request) (st : RegexState) : Response * RegexState :=
  match extraction req st with
  | (None, st') => (MissingInput, st')
  | (Some (inl e), st') => (Failure e, st')
  | (Some (inr (sanitizedText, ocrResult)), st') =>
      (afterExtraction sanitizedText ocrResult, st')
  end.

End WithHost.

End Pipeline.

(* ================================================================= *)
(** ** Vocabulary of the properties

    The notions that the statements below use and that the code has no
    name for.  Each follows the wording of the specification. *)

Module Spec.
Import Normalizer.

(** [token] parses, and to the rounded value [v]. *)
Definition parsesTo (v : number) (token : jsstring) : bool :=
  match parseNumeric token with
  | Some p => sameValueZero (p_value p) v
  | None => false
  end.

(** The detail entry [d] of a token, given the tokens that come before
    it: the first token that parses to a given rounded value is kept,
    a later one is a duplicate, and a token that does not parse fails. *)
Definition detailOf (entry : list jsstring * jsstring) (d : Detail) : Prop :=
  let '(earlier, token) := entry in
  match parseNumeric token with
  | Some p =>
      d = if existsb (parsesTo (p_value p)) earlier then
            {| d_original := token; d_normalized := fixOcrDigits token;
               d_value := Some (p_value p); d_success := false;
               d_reason := Some duplicate |}
          else
            {| d_original := token; d_normalized := fixOcrDigits token;
               d_value := Some (p_value p); d_success := true;
               d_reason := None |}
  | None =>
      d_original d = token /\ d_value d = None /\ d_success d = false
  end.

(** The entries of [tokens], each with the tokens before it. *)
Fixpoint withEarlier (earlier tokens : list jsstring)
  : list (list jsstring * jsstring) :=
  match tokens with
  | [] => []
  | t :: ts => (earlier, t) :: withEarlier (earlier ++ [t]) ts
  end.

(** The values of the successful details, in order. *)
Definition keptValues (ds : list Detail) : list number :=
  flat_map (fun d => if d_success d
                     then match d_value d with Some v => [v] | None => [] end
                     else []) ds.

(** Pairwise different numbers. *)
Definition distinctNumbers (l : list number) : Prop :=
  ForallOrdPairs (fun x y => sameValueZero x y = false) l.

(** The character at index [i] of [s] has a digit just before or just
    after it. *)
Definition adjacentToDigit (s : jsstring) (i : nat) : Prop :=
  (exists c, (1 <= i)%nat /\ nth_error s (i - 1) = Some c /\ isDigit c = true)
  \/ (exists c, nth_error s (i + 1) = Some c /\ isDigit c = true).

(** What the character [c] at index [i] of the stripped token [s]
    contributes to the corrected string. *)
Definition contributes (s : jsstring) (i : nat) (c : char) (piece : jsstring)
  : Prop :=
  match digitCorrections c with
  | Some d => (adjacentToDigit s i -> piece = [d])
              /\ (~ adjacentToDigit s i -> piece = [])
  | None => piece = if isNumericChar c then [c] else []
  end.

Section Scores.
Import Classifier.
Variable toLowerCase : jsstring -> jsstring.

(** At least one pattern of the rule matches the snippet. *)
Definition patternMatches (rule : Rule) (snippet : jsstring) : bool :=
  existsb (fun p => Regex.test true p snippet) (patterns rule).

(** The keywords of the rule whose lower case is a substring of the
    lower-cased snippet. *)
Definition matchingKeywords (rule : Rule) (snippet : jsstring)
  : list jsstring :=
  filter (fun kw => includes (toLowerCase kw) (toLowerCase snippet))
         (keywords rule).

(** Twice the priority if a pattern matches, plus the priority for each
    matching keyword. *)
Definition ruleScore (rule : Rule) (snippet : jsstring) : Z :=
  ((if patternMatches rule snippet then priority rule * 2 else 0)
   + priority rule * Z.of_nat (length (matchingKeywords rule snippet)))%Z.

End Scores.

(** The values of the entries of type [t], in order. *)
Definition valuesOfType (t : Classifier.AmountType)
    (amounts : list Classifier.OutputAmount) : list number :=
  map Classifier.value
      (filter (fun a => Classifier.type_eqb (Classifier.type a) t) amounts).

(** The different numbers of a list, in order of first occurrence. *)
Fixpoint distinctValues (l : list number) : list number :=
  match l with
  | [] => []
  | x :: l' =>
      x :: filter (fun y => negb (sameValueZero x y)) (distinctValues l')
  end.

(** The number of matches of a currency pattern in the lower-cased
    text. *)
Definition hintCount (toLowerCase : jsstring -> jsstring) (text : jsstring)
    (h : Ocr.CurrencyHint) : nat :=
  length (Regex.matchAll (Ocr.h_ignoreCase h) (Ocr.h_pattern h)
                         (toLowerCase text)).

End Spec.

(* ================================================================= *)
(** ** Invariants and auxiliary notions of the proofs *)

Module Invariants.
Import Normalizer Classifier Ocr Spec.

(** A number with the sign of a zero forgotten. *)
Definition canonZero (x : number) : number :=
  match x with
  | S754_zero _ => S754_zero false
  | _ => x
  end.

(** The detail entry that the loop records for a token, given the tokens
    that come before it. *)
Definition specDetail (earlier : list jsstring) (token : jsstring) : Detail :=
  match parseNumeric token with
  | Some p =>
      if existsb (parsesTo (p_value p)) earlier then
        {| d_original := token; d_normalized := fixOcrDigits token;
           d_value := Some (p_value p); d_success := false;
           d_reason := Some duplicate |}
      else
        {| d_original := token; d_normalized := fixOcrDigits token;
           d_value := Some (p_value p); d_success := true;
           d_reason := None |}
  | None =>
      {| d_original := token; d_normalized := fixOcrDigits token;
         d_value := None; d_success := false;
         d_reason := Some invalid_format |}
  end.

(** What holds of the loop state after the tokens [pre]. *)
Record LoopInv (pre : list jsstring) (st : LoopState) : Prop := {
  inv_seen : seenValues st = normalizedAmounts st;
  inv_has : forall v, setHas (seenValues st) v = existsb (parsesTo v) pre;
  inv_details :
    detailsAcc st =
    map (fun '(earlier, token) => specDetail earlier token) (withEarlier [] pre);
  inv_kept : normalizedAmounts st = keptValues (detailsAcc st);
  inv_distinct : distinctNumbers (normalizedAmounts st);
  inv_count : successfulParsed st = Z.of_nat (length (normalizedAmounts st))
}.

(** Two entries with the same type and the same value. *)
Definition samePair (a b : ClassifiedAmount) : bool :=
  type_eqb (ca_type a) (ca_type b) && sameValueZero (ca_value a) (ca_value b).

(** What holds of the state of [classifyAmounts] all along. *)
Record ClassifyInv (nas : list number) (st : ClassifyState) : Prop := {
  ci_pairs :
    cs_classifiedPairs st
    = map (fun a => (ca_type a, ca_value a)) (cs_amounts st);
  ci_member :
    Forall (fun a => In (ca_value a) nas
                     /\ near (ca_value a) (ca_value a) = true)
           (cs_amounts st);
  ci_distinct :
    ForallOrdPairs (fun a b => samePair a b = false) (cs_amounts st)
}.

(** The list behind an argument that may be absent. *)
Definition listOf (l : option (list number)) : list number :=
  match l with Some l => l | None => [] end.

(** An entry of the type map. *)
Definition entry (vs : list number) : option (list number) :=
  match vs with
  | [] => None
  | _ => Some vs
  end.

(** The issue raised for a singleton type. *)
Definition flagOf (typeMap : TypeMap) (t : AmountType) : list Issue :=
  match typeMap t with
  | Some vs => if (1 <? length vs)%nat then [MultipleAmounts t vs] else []
  | None => []
  end.

(** The comparison that [detectCurrency] sorts with. *)
Definition byCountDescending (a b : CurrencyCount) : Z :=
  (Z.of_nat (count b) - Z.of_nat (count a))%Z.

Section WithHost.
Variable toLowerCase : jsstring -> jsstring.

(** The match [m] is the one built from [rule]. *)
Definition builtFrom (snippet : jsstring) (rule : Rule) (m : TypeMatch) : Prop :=
  tm_type m = r_type rule
  /\ tm_score m = ruleScore toLowerCase rule snippet
  /\ tm_confidence m
     = JsNumber.min (lit 95 2)
         (add (lit 5 1) (div (ofZ (tm_score m)) (ofZ 30)))
  /\ tm_keywords m = matchingKeywords toLowerCase rule snippet
  /\ tm_patternMatched m = patternMatches rule snippet.

(** What holds of [(bestMatch, highestScore)] after the rules [done]. *)
Definition RulesInv (snippet : jsstring) (done : list Rule)
    (st : option TypeMatch * Z) : Prop :=
  match fst st with
  | None =>
      snd st = 0%Z
      /\ Forall (fun r => (ruleScore toLowerCase r snippet <= 0)%Z) done
  | Some m =>
      snd st = tm_score m /\ (0 < tm_score m)%Z
      /\ exists pre rule post,
           done = pre ++ rule :: post
           /\ builtFrom snippet rule m
           /\ Forall (fun r => (ruleScore toLowerCase r snippet
                                 < tm_score m)%Z) pre
           /\ Forall (fun r => (ruleScore toLowerCase r snippet
                                 <= tm_score m)%Z) post
  end.

(** The entry that a hint adds to [currencyMatches]. *)
Definition entryOf (text : jsstring) (h : CurrencyHint) : list CurrencyCount :=
  if (0 <? hintCount toLowerCase text h)%nat
  then [{| code_ := h_code h; count := hintCount toLowerCase text h |}]
  else [].

End WithHost.

(** The three outcomes on requests that only carry a text, with no LLM
    credential, starting from the initial state of the patterns. *)
Definition textRequest (text : string) : Pipeline.Request unit :=
  {| Pipeline.body_text := Str (js text);
     Pipeline.body_image_base64 := Absent;
     Pipeline.file_buffer := None |}.

Definition runFinal (text : string) : Pipeline.Response unit :=
  fst (Pipeline.final asciiToLowerCase defaultConfig unit unit
         (fun _ => tt) (fun _ => inl tt) false
         (fun _ _ => {| Pipeline.validated := false; Pipeline.llm_valid := false;
                        Pipeline.llm_issues := [];
                        Pipeline.llm_suggestions := [] |})
         (textRequest text) Ocr.initialRegexState).

End Invariants.
Import Invariants.

(* ================================================================= *)
(** ** Vocabulary of the further properties *)

Module Further.
Import Normalizer Classifier Ocr Spec.

(** The test on duplicates of [validateAmounts]:
    [uniqueAmounts.size < amounts.length * 0.5]. *)
Definition tooManyDuplicates (amounts : list number) : bool :=
  ltb (ofZ (Z.of_nat (length (setOf amounts))))
      (mul (ofZ (Z.of_nat (length amounts))) (lit 5 1)).

(** The string does not begin with white space. *)
Definition startsClean (s : jsstring) : Prop :=
  match s with
  | c :: _ => isWhiteSpace c = false
  | [] => True
  end.

(** A snippet as [findContextSnippets] returns them: not empty, without
    a separator character, and without white space at either end. *)
Definition wellFormedSnippet (s : jsstring) : Prop :=
  s <> []
  /\ Forall (fun c => isSeparator c = false) s
  /\ startsClean s /\ startsClean (rev s).

(** [snippets.join(sep)] *)
Fixpoint join (sep : jsstring) (snippets : list jsstring) : jsstring :=
  match snippets with
  | [] => []
  | [s] => s
  | s :: rest => s ++ sep ++ join sep rest
  end.

(** What holds of the entries of the [Map] of [uniqueByValue]: the keys
    are pairwise different, and each entry is an amount of the list whose
    value is its key. *)
Definition UniqueInv (amounts : list SnippetAmount)
    (entries : list (number * SnippetAmount)) : Prop :=
  ForallOrdPairs (fun e1 e2 => sameValueZero (fst e1) (fst e2) = false) entries
  /\ Forall (fun e => sameValueZero (fst e) (sa_value (snd e)) = true
                      /\ In (snd e) amounts) entries.

Section Explained.
Variable toLowerCase : jsstring -> jsstring.

(** The entry of type [t], value [v] and source [src] is explained by
    the detail [d]: they agree on the type and the value; the snippet
    of the detail is one of [snippets]; an amount within 0.01 of the
    value was extracted from it; the type, the keywords and the pattern
    flag are those matched for it; and the source quotes it. *)
Definition explained (snippets : list jsstring) (t : AmountType)
    (v : number) (src : jsstring) (d : ClassificationDetail) : Prop :=
  t = cd_type d /\ v = cd_amount d
  /\ src = js "text: '" ++ truncate (cd_snippet d) ++ js "'"
  /\ In (cd_snippet d) snippets
  /\ (exists sa, In sa (extractAmountsFromSnippet (cd_snippet d))
                 /\ near (sa_value sa) v = true)
  /\ (exists m, matchSnippetToType toLowerCase (cd_snippet d) = Some m
                /\ tm_type m = t
                /\ tm_keywords m = cd_matched_keywords d
                /\ tm_patternMatched m = cd_pattern_matched d).

End Explained.

(** The rank of a type in the rule table. *)
Definition typeIndex (t : AmountType) : nat :=
  match t with
  | total_bill => 0 | paid => 1 | due => 2 | subtotal => 3
  | tax => 4 | discount => 5 | service_charge => 6
  end.

(** The index of the first member of [l] that is the number [v]. *)
Fixpoint indexOf (v : number) (l : list number) : nat :=
  match l with
  | [] => O
  | x :: l' => if sameValueZero x v then O else S (indexOf v l')
  end.

(** The test of [validateClassification] on the amounts: the three
    types total_bill, paid and due occur, and the first total less the
    first payment is more than 1 away from the largest amount due. *)
Definition inconsistent (amounts : list OutputAmount) : bool :=
  match valuesOfType total_bill amounts, valuesOfType paid amounts,
        valuesOfType due amounts with
  | total :: _, paid_ :: _, d :: dues =>
      gtb (JsNumber.abs (sub (sub total paid_) (maxList (d :: dues))))
          (ofZ 1)
  | _, _, _ => false
  end.

(** A token as [extractNumericTokensFromText] keeps them: not empty,
    without white space at either end, without a percent sign, and with
    a key that [parseFloat] reads as a finite number that is positive
    and not below 1. *)
Definition acceptedToken (token : jsstring) : Prop :=
  token <> []
  /\ startsClean token /\ startsClean (rev token)
  /\ includes (js "%") token = false
  /\ isFinite (parseFloat (normalizeToken token)) = true
  /\ leb (parseFloat (normalizeToken token)) zero = false
  /\ ltb (parseFloat (normalizeToken token)) (ofZ 1) = false.

(** What holds of [(tokens, seenValues)] along the loops of
    [extractNumericTokensFromText]. *)
Definition TokensInv (st : list jsstring * list jsstring) : Prop :=
  snd st = map normalizeToken (fst st)
  /\ NoDup (snd st)
  /\ Forall acceptedToken (fst st).

End Further.
Import Further.

(* ================================================================= *)
(** * Properties *)

(** ** Numbers *)

Lemma sameValueZero_iff (x y : number) :
  sameValueZero x y = true <-> canonZero x = canonZero y.
Proof.
  destruct x as [sx| sx| |sx mx ex], y as [sy| sy| |sy my ey];
    unfold sameValueZero, SFeqb, SFcompare; simpl;
    try (split; [discriminate || reflexivity | discriminate || reflexivity]);
    try (destruct sx; split; discriminate);
    try (destruct sy; split; discriminate).
  - destruct sx, sy; split; congruence.
  - destruct sx, sy; try (split; discriminate).
    + destruct (Z.compare_spec ex ey) as [->|H|H].
      * rewrite Pos.compare_cont_spec; unfold Pos.switch_Eq.
        destruct (Pos.compare_spec mx my) as [->|H|H]; simpl;
          split; intro E; try discriminate; try reflexivity;
          injection E; lia.
      * split; intro E; try discriminate. injection E; lia.
      * split; intro E; try discriminate. injection E; lia.
    + destruct (Z.compare_spec ex ey) as [->|H|H].
      * rewrite Pos.compare_cont_spec; unfold Pos.switch_Eq.
        destruct (Pos.compare_spec mx my) as [->|H|H]; simpl;
          split; intro E; try discriminate; try reflexivity;
          injection E; lia.
      * split; intro E; try discriminate. injection E; lia.
      * split; intro E; try discriminate. injection E; lia.
Qed.

Lemma sameValueZero_refl (x : number) : sameValueZero x x = true.
Proof. apply sameValueZero_iff; reflexivity. Qed.

Lemma sameValueZero_sym (x y : number) :
  sameValueZero x y = sameValueZero y x.
Proof.
  destruct (sameValueZero x y) eqn:E, (sameValueZero y x) eqn:F; trivial.
  - apply sameValueZero_iff in E. symmetry in E.
    apply sameValueZero_iff in E. congruence.
  - apply sameValueZero_iff in F. symmetry in F.
    apply sameValueZero_iff in F. congruence.
Qed.

Lemma sameValueZero_trans (x y z : number) :
  sameValueZero x y = true -> sameValueZero y z = true ->
  sameValueZero x z = true.
Proof.
  rewrite !sameValueZero_iff. congruence.
Qed.

(** Equal numbers are the same value. *)
Lemma sameValueZero_eq (x y : number) : x = y -> sameValueZero x y = true.
Proof. intros ->. apply sameValueZero_refl. Qed.

(** ** Normalizer: duplicates *)

Section NormalizerDuplicates.
Import Normalizer Spec.

Lemma setHas_snoc (seen : list number) (v x : number) :
  setHas (seen ++ [x]) v = setHas seen v || sameValueZero v x.
Proof.
  unfold setHas. rewrite existsb_app. simpl. now rewrite orb_false_r.
Qed.

Lemma setHas_same (seen : list number) (v w : number) :
  sameValueZero v w = true -> setHas seen v = setHas seen w.
Proof.
  intros E. unfold setHas. induction seen as [|a seen IH]; simpl; trivial.
  rewrite IH. f_equal.
  destruct (sameValueZero v a) eqn:Ea, (sameValueZero w a) eqn:Eb; trivial.
  - rewrite sameValueZero_sym in E.
    now rewrite (sameValueZero_trans _ _ _ E Ea) in Eb.
  - now rewrite (sameValueZero_trans _ _ _ E Eb) in Ea.
Qed.

Lemma setHas_false (seen : list number) (v : number) :
  setHas seen v = false -> Forall (fun y => sameValueZero y v = false) seen.
Proof.
  unfold setHas. induction seen as [|a seen IH]; simpl; intros H.
  - constructor.
  - apply orb_false_iff in H. destruct H as [Ha Hs]. constructor; auto.
    now rewrite sameValueZero_sym.
Qed.

Lemma distinctNumbers_snoc (l : list number) (x : number) :
  distinctNumbers l -> Forall (fun y => sameValueZero y x = false) l ->
  distinctNumbers (l ++ [x]).
Proof.
  unfold distinctNumbers. induction 1 as [|a l Ha Hl IH]; simpl; intros F.
  - repeat constructor.
  - inversion F; subst. constructor.
    + apply Forall_app. split; auto.
    + auto.
Qed.

Lemma withEarlier_snoc (earlier tokens : list jsstring) (t : jsstring) :
  withEarlier earlier (tokens ++ [t]) =
  withEarlier earlier tokens ++ [(earlier ++ tokens, t)].
Proof.
  revert earlier. induction tokens as [|a tokens IH]; intros earlier; simpl.
  - now rewrite app_nil_r.
  - rewrite IH. now rewrite <- app_assoc.
Qed.

Lemma keptValues_snoc (ds : list Detail) (d : Detail) :
  keptValues (ds ++ [d]) = keptValues ds ++ keptValues [d].
Proof. unfold keptValues. now rewrite flat_map_app. Qed.

Lemma parseNumeric_fields (token : jsstring) (p : Parsed) :
  parseNumeric token = Some p ->
  p_original p = token /\ p_normalized p = fixOcrDigits token.
Proof.
  unfold parseNumeric. destruct (fixOcrDigits token) eqn:F; [discriminate|].
  repeat match goal with
         | |- context [if ?c then _ else _] => destruct c
         end; try discriminate.
  intros E. injection E as <-. simpl. auto.
Qed.

Lemma LoopInv_init : LoopInv [] initState.
Proof. constructor; simpl; trivial. constructor. Qed.

Lemma LoopInv_step (pre : list jsstring) (st : LoopState) (t : jsstring) :
  LoopInv pre st -> LoopInv (pre ++ [t]) (loopBody st t).
Proof.
  intros [Hseen Hhas Hdet Hkept Hdist Hcount].
  unfold loopBody.
  destruct (parseNumeric t) as [p|] eqn:P.
  - destruct (parseNumeric_fields _ _ P) as [Ho Hn].
    destruct (p_type p).
    assert (Hearlier : existsb (parsesTo (p_value p)) pre
                       = setHas (seenValues st) (p_value p))
      by (symmetry; apply Hhas).
    destruct (setHas (seenValues st) (p_value p)) eqn:S.
    + constructor; simpl; trivial.
      * intros v. rewrite existsb_app, <- Hhas. simpl. rewrite orb_false_r.
        unfold parsesTo at 1. rewrite P.
        destruct (sameValueZero (p_value p) v) eqn:E.
        -- rewrite <- (setHas_same _ _ _ E), S. reflexivity.
        -- now rewrite orb_false_r.
      * rewrite withEarlier_snoc, map_app, <- Hdet. simpl.
        unfold specDetail. rewrite P, Hearlier, Ho, Hn. reflexivity.
      * rewrite keptValues_snoc. simpl. now rewrite app_nil_r.
    + constructor; simpl.
      * now rewrite Hseen.
      * intros v. rewrite setHas_snoc, existsb_app, <- Hhas. simpl.
        rewrite orb_false_r. unfold parsesTo at 1. rewrite P.
        now rewrite (sameValueZero_sym v).
      * rewrite withEarlier_snoc, map_app, <- Hdet. simpl.
        unfold specDetail. rewrite P, Hearlier, Ho, Hn. reflexivity.
      * rewrite keptValues_snoc. simpl. now rewrite Hkept.
      * apply distinctNumbers_snoc; trivial.
        rewrite <- Hseen. now apply setHas_false.
      * rewrite length_app. simpl. lia.
  - constructor; simpl; trivial.
    + intros v. rewrite existsb_app, <- Hhas. simpl.
      unfold parsesTo at 1. rewrite P. now rewrite !orb_false_r.
    + rewrite withEarlier_snoc, map_app, <- Hdet. simpl.
      unfold specDetail. rewrite P. reflexivity.
    + rewrite keptValues_snoc. simpl. now rewrite app_nil_r.
Qed.

Lemma LoopInv_fold (tokens : list jsstring) :
  LoopInv tokens (fold_left loopBody tokens initState).
Proof.
  induction tokens as [|t tokens IH] using rev_ind.
  - apply LoopInv_init.
  - rewrite fold_left_app. simpl. now apply LoopInv_step.
Qed.

Lemma normalizeTokens_amounts (config : Config) (tokens : list jsstring) :
  normalized_amounts (normalizeTokens config tokens)
  = normalizedAmounts (fold_left loopBody tokens initState).
Proof. destruct tokens; reflexivity. Qed.

Lemma normalizeTokens_details (config : Config) (tokens : list jsstring) :
  details (normalizeTokens config tokens)
  = detailsAcc (fold_left loopBody tokens initState).
Proof. destruct tokens; reflexivity. Qed.

(** C2.  [normalizeTokens] gives one detail per token, in order.  A
    token that parses is kept with [success: true] when no earlier token
    parses to the same rounded value, and is recorded with
    [success: false] and reason [duplicate] otherwise; a token that does
    not parse is recorded as failed, without a value.  The list of
    amounts is the list of the values of the successful details, in
    their order, and its members are pairwise different.  On the tokens "l200" and "1200" the amounts are
    [1200] and exactly the first detail is successful. *)
Theorem normalizeTokens_keeps_first_marks_duplicates :
  forall (config : Config) (tokens : list jsstring),
    let r := normalizeTokens config tokens in
    Forall2 detailOf (withEarlier [] tokens) (details r)
    /\ normalized_amounts r = keptValues (details r)
    /\ distinctNumbers (normalized_amounts r)
    /\ (let ex := normalizeTokens config [js "l200"; js "1200"] in
        normalized_amounts ex = [ofZ 1200]
        /\ map d_success (details ex) = [true; false]
        /\ map d_reason (details ex) = [None; Some duplicate]).
Proof.
  intros config tokens r. subst r.
  rewrite normalizeTokens_amounts, normalizeTokens_details.
  destruct (LoopInv_fold tokens) as [_ _ Hdet Hkept Hdist _].
  repeat split; trivial.
  rewrite Hdet. clear.
  induction (withEarlier [] tokens) as [|[earlier token] l IH]; simpl;
    constructor; trivial.
  unfold detailOf, specDetail.
  destruct (parseNumeric token); [|auto].
  now destruct (existsb _ earlier).
Qed.

End NormalizerDuplicates.

(** ** Normalizer: the correction of digits *)

Section NormalizerDigits.
Import Normalizer Spec.

Lemma one_of_In (cs : list N) (c : N) : one_of cs c = true -> In c cs.
Proof.
  unfold one_of. rewrite existsb_exists. intros [x [Hx E]].
  apply N.eqb_eq in E. now subst.
Qed.

(** The corrections are defined on letters only, and give digits. *)
Lemma digitCorrections_some (c d : char) :
  digitCorrections c = Some d ->
  isNumericChar c = false /\ isDigit c = false /\ isDigit d = true.
Proof.
  unfold digitCorrections.
  repeat match goal with
         | |- context [if one_of ?l c then _ else _] =>
             destruct (one_of l c) eqn:?
         end;
    try discriminate;
    intros E; injection E as <-;
    match goal with
    | H : one_of _ c = true |- _ =>
        apply one_of_In in H; simpl in H;
        repeat (destruct H as [<-|H]; [repeat split; reflexivity|]);
        contradiction
    end.
Qed.

Lemma isDigitAt_prev (fixed : jsstring) (i : nat) :
  isDigitAt (if (0 <? i)%nat then nth_error fixed (i - 1) else None) = true
  <-> exists c, (1 <= i)%nat /\ nth_error fixed (i - 1) = Some c
                /\ isDigit c = true.
Proof.
  destruct (Nat.ltb_spec 0 i) as [H|H]; simpl.
  - destruct (nth_error fixed (i - 1)) as [c|]; simpl.
    + split.
      * intros D. exists c. auto.
      * intros [c' [_ [E D]]]. now injection E as <-.
    + split; [discriminate|]. intros [c' [_ [E _]]]. discriminate.
  - split; [discriminate|]. intros [c [L _]]. lia.
Qed.

Lemma isDigitAt_next (fixed : jsstring) (i : nat) :
  isDigitAt (if (i <? length fixed - 1)%nat then nth_error fixed (i + 1)
             else None) = true
  <-> exists c, nth_error fixed (i + 1) = Some c /\ isDigit c = true.
Proof.
  destruct (Nat.ltb_spec i (length fixed - 1)) as [H|H]; simpl.
  - destruct (nth_error fixed (i + 1)) as [c|]; simpl.
    + split.
      * intros D. exists c. auto.
      * intros [c' [E D]]. now injection E as <-.
    + split; [discriminate|]. intros [c' [E _]]. discriminate.
  - split; [discriminate|]. intros [c [E _]].
    assert (i + 1 < length fixed)%nat
      by (apply nth_error_Some; rewrite E; discriminate).
    lia.
Qed.

Lemma hasAdjacentDigit_iff (fixed : jsstring) (i : nat) :
  isDigitAt (if (0 <? i)%nat then nth_error fixed (i - 1) else None)
  || isDigitAt (if (i <? length fixed - 1)%nat then nth_error fixed (i + 1)
                else None) = true
  <-> adjacentToDigit fixed i.
Proof.
  rewrite orb_true_iff, isDigitAt_prev, isDigitAt_next. reflexivity.
Qed.

Lemma scanStep_acc (fixed result : jsstring) (i : nat) :
  scanStep fixed result i = result ++ scanStep fixed [] i.
Proof.
  unfold scanStep. destruct (nth_error fixed i) as [c|].
  - repeat match goal with
           | |- context [match ?x with _ => _ end] => destruct x
           end; simpl; now rewrite ?app_nil_r.
  - now rewrite app_nil_r.
Qed.

Lemma scan_fold (fixed : jsstring) (l : list nat) (acc : jsstring) :
  fold_left (scanStep fixed) l acc
  = acc ++ concat (map (scanStep fixed []) l).
Proof.
  revert acc. induction l as [|i l IH]; intros acc; simpl.
  - now rewrite app_nil_r.
  - rewrite IH, scanStep_acc. now rewrite <- app_assoc.
Qed.

Lemma scan_pieces (fixed : jsstring) :
  scan fixed = concat (map (scanStep fixed []) (seq 0 (length fixed))).
Proof. unfold scan. now rewrite scan_fold. Qed.

Lemma scanStep_contributes (fixed : jsstring) (i : nat) (c : char) :
  nth_error fixed i = Some c -> contributes fixed i c (scanStep fixed [] i).
Proof.
  intros E. unfold contributes, scanStep. rewrite E.
  destruct (digitCorrections c) as [d|] eqn:D.
  - destruct (digitCorrections_some _ _ D) as [Hn _]. rewrite Hn.
    match goal with
    | |- context [if ?b then _ else _] => destruct b eqn:A
    end.
    + split; trivial. intros NA. apply hasAdjacentDigit_iff in A. contradiction.
    + split; trivial. intros Ad. apply hasAdjacentDigit_iff in Ad. congruence.
  - destruct (isNumericChar c); reflexivity.
Qed.

(** The characters of the scan: a correction made next to a digit, or a
    numeric character of the stripped token. *)
Lemma scan_chars (fixed : jsstring) (x : char) :
  In x (scan fixed) ->
  exists i c, nth_error fixed i = Some c
              /\ ((digitCorrections c = Some x /\ adjacentToDigit fixed i)
                  \/ (x = c /\ isNumericChar c = true
                      /\ digitCorrections c = None)).
Proof.
  rewrite scan_pieces, in_concat. intros [piece [Hp Hx]].
  apply in_map_iff in Hp. destruct Hp as [i [<- Hi]].
  apply in_seq in Hi.
  destruct (nth_error fixed i) as [c|] eqn:E.
  2:{ unfold scanStep in Hx. rewrite E in Hx. contradiction. }
  exists i, c. split; trivial.
  unfold scanStep in Hx. rewrite E in Hx.
  destruct (digitCorrections c) as [d|] eqn:D.
  - destruct (digitCorrections_some _ _ D) as [Hn _]. rewrite Hn in Hx.
    match type of Hx with
    | context [if ?b then _ else _] => destruct b eqn:A
    end; [|contradiction].
    destruct Hx as [<-|[]]. left. split; trivial.
    now apply hasAdjacentDigit_iff.
  - destruct (isNumericChar c) eqn:Hn; [|contradiction].
    destruct Hx as [<-|[]]. right. auto.
Qed.

Lemma Forall_dropWhile (P : char -> Prop) (p : char -> bool) (s : jsstring) :
  Forall P s -> Forall P (dropWhile p s).
Proof.
  induction 1 as [|c s Hc Hs IH]; simpl; [constructor|].
  destruct (p c); auto.
Qed.

Lemma Forall_trim (P : char -> Prop) (s : jsstring) :
  Forall P s -> Forall P (trim s).
Proof.
  intros H. unfold trim.
  apply Forall_rev, Forall_dropWhile, Forall_rev, Forall_dropWhile, H.
Qed.

Lemma Forall_removeAll (P : char -> Prop) (p : char -> bool) (s : jsstring) :
  Forall P s -> Forall P (removeAll p s).
Proof.
  unfold removeAll. rewrite !Forall_forall. intros H x Hx.
  apply filter_In in Hx. now apply H.
Qed.

Lemma Forall_strip (P : char -> Prop) (token : jsstring) :
  Forall P token -> Forall P (strip token).
Proof.
  intros H. unfold strip. now apply Forall_removeAll, Forall_removeAll, Forall_trim.
Qed.

(** Stripping leaves no '.'. *)
Lemma strip_no_dot (token : jsstring) : ~ In 46%N (strip token).
Proof.
  unfold strip, removeAll. intros H.
  apply filter_In in H. destruct H as [H _].
  apply filter_In in H. destruct H as [_ H]. discriminate.
Qed.

Lemma scan_strip_no_dot (token : jsstring) : ~ In 46%N (scan (strip token)).
Proof.
  intros H. apply scan_chars in H.
  destruct H as [i [c [E [[D _]|[Hc _]]]]].
  - now destruct (digitCorrections_some _ _ D) as [_ [_ Hd]].
  - subst c. apply nth_error_In in E. now apply strip_no_dot in E.
Qed.

Lemma splitOn_no_sep (p : char -> bool) (s : jsstring) :
  Forall (fun c => p c = false) s -> splitOn p s = [s].
Proof.
  induction 1 as [|c s Hc Hs IH]; simpl; trivial.
  now rewrite Hc, IH.
Qed.

Lemma collapseDots_no_dot (s : jsstring) : ~ In 46%N s -> collapseDots s = s.
Proof.
  intros H. unfold collapseDots. rewrite splitOn_no_sep; trivial.
  apply Forall_forall. intros c Hc.
  destruct (N.eqb_spec 46 c) as [<-|]; [contradiction|reflexivity].
Qed.

Lemma fixOcrDigits_unfold (token : jsstring) :
  token <> [] ->
  fixOcrDigits token
  = collapseDots
      (removeAll (fun c => negb (isDigit c || (c =? 46)%N))
         (removeAll (N.eqb 44) (scan (strip token)))).
Proof. destruct token; [congruence|reflexivity]. Qed.

(** No '.' survives [fixOcrDigits]. *)
Lemma fixOcrDigits_no_dot (token : jsstring) : ~ In 46%N (fixOcrDigits token).
Proof.
  destruct token as [|c token]; [intros []|].
  rewrite fixOcrDigits_unfold by discriminate.
  assert (H : ~ In 46%N
                (removeAll (fun c => negb (isDigit c || (c =? 46)%N))
                   (removeAll (N.eqb 44) (scan (strip (c :: token)))))).
  { unfold removeAll. intros H.
    apply filter_In in H. destruct H as [H _].
    apply filter_In in H. destruct H as [H _].
    now apply scan_strip_no_dot in H. }
  now rewrite collapseDots_no_dot.
Qed.

Lemma removeAll_all (p : char -> bool) (s : jsstring) :
  Forall (fun x => p x = true) s -> removeAll p s = [].
Proof.
  unfold removeAll. induction 1 as [|x l Hx Hl IH]; cbn [filter]; trivial.
  now rewrite Hx.
Qed.

(** A token without a digit is corrected to the empty string. *)
Lemma fixOcrDigits_no_digit (token : jsstring) :
  Forall (fun c => isDigit c = false) token -> fixOcrDigits token = [].
Proof.
  intros H. destruct token as [|c0 token]; trivial.
  rewrite fixOcrDigits_unfold by discriminate.
  set (fixed := strip (c0 :: token)).
  assert (Hf : Forall (fun c => isDigit c = false) fixed)
    by now apply Forall_strip.
  assert (Hnone : forall i, ~ adjacentToDigit fixed i).
  { intros i [[c [_ [E D]]]|[c [E D]]];
      apply nth_error_In in E;
      rewrite Forall_forall in Hf; apply Hf in E; congruence. }
  assert (Hcomma : Forall (fun x => (44 =? x)%N = true) (scan fixed)).
  { apply Forall_forall. intros x Hx. apply scan_chars in Hx.
    destruct Hx as [i [c [E [[_ A]|[-> [Hn _]]]]]].
    - now apply Hnone in A.
    - pose proof E as E'. apply nth_error_In in E'.
      assert (c <> 46%N)
        by (intros ->; now apply (strip_no_dot (c0 :: token))).
      rewrite Forall_forall in Hf. apply Hf in E'.
      unfold isNumericChar in Hn. rewrite E' in Hn. simpl in Hn.
      apply orb_true_iff in Hn. destruct Hn as [Hn|Hn].
      + apply N.eqb_eq in Hn. contradiction.
      + apply N.eqb_eq in Hn. subst. reflexivity. }
  assert (Hnil : removeAll (N.eqb 44) (scan fixed) = []).
  { now apply removeAll_all. }
  rewrite Hnil. reflexivity.
Qed.

(** The correction loop.  Let [fixed] be the token after stripping.
    The string that the loop builds
    is made of one piece per character of [fixed], in order: a character
    of the correction map gives its digit when the character before or
    after it in [fixed] is a digit and nothing otherwise, and any other
    character is kept when it is a digit, '.' or ',' and dropped
    otherwise.  [fixOcrDigits] is this string with the commas and the
    remaining non-numeric characters removed and the dots collapsed.
    [fixOcrDigits("l2O0")] is ["1200"]; a token without a digit, such as
    ["Hello"], is corrected to the empty string and does not parse. *)
Theorem fixOcrDigits_corrects_next_to_digits :
  forall token : jsstring,
    (exists pieces : list jsstring,
       length pieces = length (strip token)
       /\ (forall i c, nth_error (strip token) i = Some c ->
             exists piece, nth_error pieces i = Some piece
                           /\ contributes (strip token) i c piece)
       /\ scan (strip token) = concat pieces
       /\ (token <> [] ->
           fixOcrDigits token
           = collapseDots
               (removeAll (fun c => negb (isDigit c || (c =? 46)%N))
                  (removeAll (N.eqb 44) (concat pieces)))))
    /\ (Forall (fun c => isDigit c = false) token ->
        fixOcrDigits token = [] /\ parseNumeric token = None)
    /\ fixOcrDigits (js "l2O0") = js "1200"
    /\ parseNumeric (js "Hello") = None.
Proof.
  intros token. split; [|split; [|split]].
  - exists (map (scanStep (strip token) []) (seq 0 (length (strip token)))).
    split; [now rewrite length_map, length_seq|].
    split; [|split].
    + intros i c E.
      assert (Hi : (i < length (strip token))%nat)
        by (apply nth_error_Some; rewrite E; discriminate).
      exists (scanStep (strip token) [] i). split.
      * rewrite nth_error_map, nth_error_seq.
        destruct (Nat.ltb_spec i (length (strip token))); [reflexivity|lia].
      * now apply scanStep_contributes.
    + apply scan_pieces.
    + intros Hne. rewrite <- scan_pieces. now apply fixOcrDigits_unfold.
  - intros H. pose proof (fixOcrDigits_no_digit _ H) as E.
    split; trivial. unfold parseNumeric. now rewrite E.
  - reflexivity.
  - reflexivity.
Qed.

(** The theorem at the token ["Hello"]. *)
Lemma fixOcrDigits_corrects_next_to_digits_witness :
  fixOcrDigits (js "Hello") = [] /\ parseNumeric (js "Hello") = None.
Proof.
  destruct (fixOcrDigits_corrects_next_to_digits (js "Hello")) as [_ [H _]].
  apply H. repeat (apply Forall_cons; [reflexivity|]). apply Forall_nil.
Defined.

(** C4.  [fixOcrDigits("12.50")] is ["1250"] and the token parses to
    1250: the '.' is removed with the currency characters before the
    scan, and no '.' is left in any corrected token. *)
Theorem fixOcrDigits_decimal_point_removed :
  fixOcrDigits (js "12.50") = js "1250"
  /\ option_map p_value (parseNumeric (js "12.50")) = Some (ofZ 1250)
  /\ forall token : jsstring, ~ In 46%N (fixOcrDigits token).
Proof.
  split; [reflexivity|]. split; [reflexivity|]. apply fixOcrDigits_no_dot.
Qed.

(** C8.  On the token ["10%"], [normalizeTokens] gives no amount and the
    confidence 0, and records one failed detail, whose reason is
    [invalid_format]; the reason [percentage] is given to no token. *)
Theorem normalizeTokens_percent_reason :
  forall config : Config,
    normalizeTokens config [js "10%"]
    = {| normalized_amounts := [];
         normalization_confidence := zero;
         details := [{| d_original := js "10%";
                        d_normalized := js "10";
                        d_value := None;
                        d_success := false;
                        d_reason := Some invalid_format |}] |}
    /\ forall tokens : list jsstring,
         Forall (fun d => d_reason d <> Some percentage)
                (details (normalizeTokens config tokens)).
Proof.
  intros config. split; [reflexivity|].
  intros tokens. rewrite normalizeTokens_details.
  destruct (LoopInv_fold tokens) as [_ _ -> _ _ _].
  apply Forall_forall. intros d Hd. apply in_map_iff in Hd.
  destruct Hd as [[earlier token] [<- _]].
  unfold specDetail. destruct (parseNumeric token).
  - destruct (existsb _ earlier); discriminate.
  - discriminate.
Qed.

End NormalizerDigits.

(** ** Classifier: the type of a snippet *)

Section ClassifierScores.
Import Classifier Spec.
Variable toLowerCase : jsstring -> jsstring.

Lemma checkPatterns_spec (prio : Z) (snippet : jsstring) (ps : list Regex.regex)
    (sc : Z) :
  checkPatterns prio snippet ps sc
  = ((sc + if existsb (fun p => Regex.test true p snippet) ps
           then prio * 2 else 0)%Z,
     existsb (fun p => Regex.test true p snippet) ps).
Proof.
  induction ps as [|p ps IH]; simpl.
  - now rewrite Z.add_0_r.
  - destruct (Regex.test true p snippet); simpl; trivial.
Qed.

Lemma checkKeywords_fold (prio : Z) (lower : jsstring) (kws : list jsstring)
    (sc : Z) (mk : list jsstring) :
  fold_left
    (fun '(score, matchedKeywords) keyword =>
       if includes (toLowerCase keyword) lower
       then ((score + prio)%Z, matchedKeywords ++ [keyword])
       else (score, matchedKeywords))
    kws (sc, mk)
  = ((sc + prio * Z.of_nat
        (length (filter (fun kw => includes (toLowerCase kw) lower) kws)))%Z,
     mk ++ filter (fun kw => includes (toLowerCase kw) lower) kws).
Proof.
  revert sc mk. induction kws as [|kw kws IH]; intros sc mk; simpl.
  - now rewrite Z.mul_0_r, Z.add_0_r, app_nil_r.
  - destruct (includes (toLowerCase kw) lower); rewrite IH.
    + simpl length. rewrite <- app_assoc. simpl. f_equal. lia.
    + reflexivity.
Qed.

Lemma ruleStep_spec (snippet : jsstring) (best : option TypeMatch) (hs : Z)
    (rule : Rule) :
  ruleStep toLowerCase snippet (toLowerCase snippet) (best, hs) rule
  = if (hs <? ruleScore toLowerCase rule snippet)%Z
    then (Some {| tm_type := r_type rule;
                  tm_confidence := confidenceOfScore (ruleScore toLowerCase rule snippet);
                  tm_keywords := matchingKeywords toLowerCase rule snippet;
                  tm_patternMatched := patternMatches rule snippet;
                  tm_score := ruleScore toLowerCase rule snippet |},
          ruleScore toLowerCase rule snippet)
    else (best, hs).
Proof.
  unfold ruleStep. rewrite checkPatterns_spec.
  unfold checkKeywords. rewrite checkKeywords_fold. simpl.
  reflexivity.
Qed.

Lemma RulesInv_step (snippet : jsstring) (done : list Rule)
    (st : option TypeMatch * Z) (rule : Rule) :
  RulesInv toLowerCase snippet done st ->
  RulesInv toLowerCase snippet (done ++ [rule])
           (ruleStep toLowerCase snippet (toLowerCase snippet) st rule).
Proof.
  destruct st as [best hs]. rewrite ruleStep_spec.
  unfold RulesInv. simpl.
  destruct (Z.ltb_spec hs (ruleScore toLowerCase rule snippet)) as [L|L]; simpl.
  - intros H. split; trivial.
    assert (Hall : Forall (fun r => (ruleScore toLowerCase r snippet
                                     < ruleScore toLowerCase rule snippet)%Z)
                          done).
    { destruct best as [m|].
      - destruct H as [-> [_ [pre [r0 [post [-> [[_ [S0 _]] [Hpre Hpost]]]]]]]].
        apply Forall_app. split.
        + eapply Forall_impl; [|exact Hpre]. simpl. intros; lia.
        + constructor; [lia|].
          eapply Forall_impl; [|exact Hpost]. simpl. intros; lia.
      - destruct H as [-> H].
        eapply Forall_impl; [|exact H]. simpl. intros; lia. }
    split.
    + destruct best as [m|]; [destruct H as [-> [? _]]|destruct H as [-> _]]; lia.
    + exists done, rule, []. repeat split; trivial.
  - destruct best as [m|].
    + intros [-> [Hpos [pre [r0 [post [-> [B [Hpre Hpost]]]]]]]].
      split; trivial. split; trivial.
      exists pre, r0, (post ++ [rule]). repeat split; try apply B; trivial.
      * now rewrite <- app_assoc.
      * apply Forall_app. split; trivial. constructor; [lia|constructor].
    + intros [-> H]. split; trivial.
      apply Forall_app. split; trivial. constructor; [lia|constructor].
Qed.

Lemma RulesInv_fold (snippet : jsstring) (rules : list Rule) :
  RulesInv toLowerCase snippet rules
    (fold_left (ruleStep toLowerCase snippet (toLowerCase snippet)) rules
               (None, 0%Z)).
Proof.
  induction rules as [|r rules IH] using rev_ind.
  - split; [reflexivity|constructor].
  - rewrite fold_left_app. simpl. now apply RulesInv_step.
Qed.

(** C5.  The rules are declared in the order total_bill, paid, due,
    subtotal, tax, discount, service_charge.  The score of a rule on a
    snippet is twice its priority if at least one of its patterns
    matches, plus its priority for each of its keywords whose lower case
    is a substring of the lower-cased snippet.  [matchSnippetToType]
    returns no match exactly when no rule scores above zero; otherwise it
    returns the match of a rule whose score is positive, strictly above
    the score of every rule declared before it and at least the score of
    every rule declared after it, with the confidence
    [min(0.95, 0.5 + score / 30)]. *)
Theorem matchSnippetToType_highest_score :
  forall snippet : jsstring,
    map r_type classificationRules
    = [total_bill; paid; due; subtotal; tax; discount; service_charge]
    /\ (matchSnippetToType toLowerCase snippet = None
        <-> Forall (fun r => (ruleScore toLowerCase r snippet <= 0)%Z)
                   classificationRules)
    /\ match matchSnippetToType toLowerCase snippet with
       | None => True
       | Some m =>
           (0 < tm_score m)%Z
           /\ exists pre rule post,
                classificationRules = pre ++ rule :: post
                /\ tm_type m = r_type rule
                /\ tm_score m = ruleScore toLowerCase rule snippet
                /\ tm_confidence m
                   = JsNumber.min (lit 95 2)
                       (add (lit 5 1) (div (ofZ (tm_score m)) (ofZ 30)))
                /\ tm_keywords m = matchingKeywords toLowerCase rule snippet
                /\ tm_patternMatched m = patternMatches rule snippet
                /\ Forall (fun r => (ruleScore toLowerCase r snippet
                                      < tm_score m)%Z) pre
                /\ Forall (fun r => (ruleScore toLowerCase r snippet
                                      <= tm_score m)%Z) post
       end.
Proof.
  intros snippet. split; [reflexivity|].
  pose proof (RulesInv_fold snippet classificationRules) as H.
  unfold matchSnippetToType, matchSnippetToTypeWith.
  unfold RulesInv in H.
  destruct (fst (fold_left _ classificationRules (None, 0%Z))) as [m|].
  - destruct H as [_ [Hpos [pre [rule [post [E [B [Hpre Hpost]]]]]]]].
    destruct B as [B1 [B2 [B3 [B4 B5]]]].
    split.
    + split; [discriminate|]. intros F. exfalso.
      rewrite E in F. apply Forall_app in F. destruct F as [_ F].
      inversion F; subst. lia.
    + split; trivial.
      exists pre, rule, post. repeat split; trivial.
  - destruct H as [_ H]. split; trivial. split; trivial.
Qed.

End ClassifierScores.

(** ** Classifier: the classified amounts *)

Section ClassifierAmounts.
Import Classifier Spec.
Variable toLowerCase : jsstring -> jsstring.
Variable config : Config.

Lemma type_eqb_eq (a b : AmountType) : type_eqb a b = true <-> a = b.
Proof. destruct a, b; simpl; split; congruence. Qed.

Lemma lit_1_2 : lit 1 2 = S754_finite false 5764607523034235 (-59).
Proof. reflexivity. Qed.

(** A finite number is within the tolerance of itself. *)
Lemma near_self (s : bool) (m : positive) (e : Z) :
  near (S754_finite s m e) (S754_finite s m e) = true.
Proof.
  unfold near, sub, SFsub. rewrite Z.sub_diag. reflexivity.
Qed.

(** Only a finite number is within the tolerance of anything. *)
Lemma near_truthy_finite (v x : number) :
  near v x = true -> truthy x = true -> exists s m e, x = S754_finite s m e.
Proof.
  unfold near. rewrite lit_1_2.
  destruct x as [sx|sx| |sx mx ex]; simpl; try discriminate.
  - destruct v as [sv|sv| |sv mv ev]; simpl; try discriminate;
      destruct sx, sv; discriminate.
  - intros _ _. now exists sx, mx, ex.
Qed.

Lemma pairsHas_false (pairs : list (AmountType * number)) (t : AmountType)
    (v : number) :
  pairsHas pairs t v = false ->
  Forall (fun p => type_eqb (fst p) t && sameValueZero (snd p) v = false) pairs.
Proof.
  unfold pairsHas. induction pairs as [|[t' v'] pairs IH]; simpl; intros H.
  - constructor.
  - apply orb_false_iff in H. destruct H as [H1 H2]. constructor; auto.
Qed.

Lemma ForallOrdPairs_snoc {A} (R : A -> A -> Prop) (l : list A) (x : A) :
  ForallOrdPairs R l -> Forall (fun y => R y x) l ->
  ForallOrdPairs R (l ++ [x]).
Proof.
  induction 1 as [|a l Ha Hl IH]; simpl; intros F.
  - repeat constructor.
  - inversion F; subst. constructor.
    + apply Forall_app. split; auto.
    + auto.
Qed.

Lemma ClassifyInv_value (nas : list number) (snippet : jsstring)
    (st : ClassifyState) (sa : SnippetAmount) :
  ClassifyInv nas st ->
  ClassifyInv nas (classifyValue toLowerCase nas snippet st sa).
Proof.
  intros [Hp Hm Hd]. unfold classifyValue.
  destruct (find (near (sa_value sa)) nas) as [x|] eqn:F;
    [|now constructor].
  destruct (truthy x) eqn:T; simpl; [|now constructor].
  destruct (matchSnippetToType toLowerCase snippet) as [c|];
    [|now constructor].
  destruct (leb (tm_confidence c) (lit 5 1)); [now constructor|].
  destruct (pairsHas (cs_classifiedPairs st) (tm_type c) x) eqn:P;
    [now constructor|].
  apply find_some in F. destruct F as [Hin Hnear].
  destruct (near_truthy_finite _ _ Hnear T) as [s [m [e ->]]].
  constructor; simpl.
  - now rewrite map_app, Hp.
  - apply Forall_app. split; trivial.
    constructor; [|constructor]. simpl. split; trivial. apply near_self.
  - apply ForallOrdPairs_snoc; trivial.
    apply pairsHas_false in P. rewrite Hp in P.
    rewrite Forall_map in P. exact P.
Qed.

Lemma ClassifyInv_values (nas : list number) (snippet : jsstring)
    (sas : list SnippetAmount) (st : ClassifyState) :
  ClassifyInv nas st ->
  ClassifyInv nas
    (fold_left (classifyValue toLowerCase nas snippet) sas st).
Proof.
  revert st. induction sas as [|sa sas IH]; intros st H; simpl; trivial.
  apply IH. now apply ClassifyInv_value.
Qed.

Lemma ClassifyInv_snippets (nas : list number) (snippets : list jsstring)
    (st : ClassifyState) :
  ClassifyInv nas st ->
  ClassifyInv nas (fold_left (classifySnippet toLowerCase nas) snippets st).
Proof.
  revert st. induction snippets as [|sn sns IH]; intros st H; simpl; trivial.
  apply IH. unfold classifySnippet.
  destruct (extractAmountsFromSnippet sn) eqn:E; trivial.
  now apply ClassifyInv_values.
Qed.

(** C6.  Every value of an entry returned by [classifyAmounts] is an
    element [na] of the list of normalized amounts, so that
    [|value - na| < 0.01]; and no two entries returned have both the same
    type and the same value. *)
Theorem classifyAmounts_values_and_pairs :
  forall (text : option jsstring) (normalizedAmounts : option (list number)),
    let r := classifyAmounts toLowerCase config text normalizedAmounts in
    Forall (fun a =>
              exists na, In na (listOf normalizedAmounts)
                         /\ value a = na
                         /\ ltb (JsNumber.abs (sub (value a) na)) (lit 1 2)
                            = true)
           (amounts r)
    /\ ForallOrdPairs
         (fun a b => ~ (type a = type b
                        /\ sameValueZero (value a) (value b) = true))
         (amounts r).
Proof.
  intros text nas r. subst r. unfold classifyAmounts.
  destruct text as [[|c text]|], nas as [[|n nas]|];
    try (split; constructor).
  set (l := n :: nas).
  set (st := fold_left _ _ _).
  assert (H : ClassifyInv l st).
  { apply ClassifyInv_snippets. constructor; simpl; constructor. }
  destruct H as [_ Hm Hd]. simpl amounts. split.
  - rewrite Forall_map. eapply Forall_impl; [|exact Hm].
    simpl. intros a [Hin Hn]. exists (ca_value a). auto.
  - clear Hm. induction Hd as [|a rest Ha Hrest IH]; simpl; constructor; trivial.
    rewrite Forall_map. eapply Forall_impl; [|exact Ha].
    simpl. intros b Hb [Et Ev]. unfold samePair in Hb.
    apply type_eqb_eq in Et. rewrite Et, Ev in Hb. discriminate.
Qed.

(** C10.  When the text is absent or empty, or the list of normalized
    amounts is absent or empty, [classifyAmounts] returns no amount, the
    confidence 0 and no detail. *)
Theorem classifyAmounts_empty_input :
  forall (text : option jsstring) (normalizedAmounts : option (list number)),
    text = None \/ text = Some [] \/ normalizedAmounts = None
    \/ normalizedAmounts = Some [] ->
    classifyAmounts toLowerCase config text normalizedAmounts
    = {| amounts := []; confidence := zero; classification_details := [] |}.
Proof.
  intros text nas [ -> | [ -> | [ -> | -> ] ] ]; trivial;
    destruct text as [[|c text]|]; reflexivity.
Qed.

End ClassifierAmounts.

(** The theorem at an absent text and the amounts [5000]. *)
Lemma classifyAmounts_empty_input_witness :
  Classifier.classifyAmounts asciiToLowerCase defaultConfig None
    (Some [ofZ 5000])
  = {| Classifier.amounts := []; Classifier.confidence := zero;
       Classifier.classification_details := [] |}.
Proof.
  apply (classifyAmounts_empty_input asciiToLowerCase defaultConfig
           None (Some [ofZ 5000])).
  left. reflexivity.
Defined.

(** ** Classifier: the validation of a classification *)

Section Validation.
Import Classifier Spec.

Lemma type_eqb_sym (a b : AmountType) : type_eqb a b = type_eqb b a.
Proof. destruct a, b; reflexivity. Qed.

Lemma valuesOfType_snoc (t : AmountType) (l : list OutputAmount)
    (a : OutputAmount) :
  valuesOfType t (l ++ [a])
  = valuesOfType t l ++ (if type_eqb (type a) t then [value a] else []).
Proof.
  unfold valuesOfType. rewrite filter_app, map_app. simpl.
  now destruct (type_eqb (type a) t).
Qed.

Lemma buildTypeMap_spec (amounts : list OutputAmount) (t : AmountType) :
  buildTypeMap amounts t = entry (valuesOfType t amounts).
Proof.
  induction amounts as [|a l IH] using rev_ind; trivial.
  unfold buildTypeMap in *. rewrite fold_left_app. simpl.
  rewrite valuesOfType_snoc. unfold typeMapPush at 1.
  rewrite (type_eqb_sym (type a) t).
  destruct (type_eqb t (type a)) eqn:E.
  - apply type_eqb_eq in E. subst t. rewrite IH.
    destruct (valuesOfType (type a) l); reflexivity.
  - now rewrite app_nil_r.
Qed.

Lemma singletonIssues_flags (typeMap : TypeMap) :
  singletonIssues typeMap
  = flagOf typeMap total_bill ++ flagOf typeMap subtotal ++ flagOf typeMap paid.
Proof.
  unfold singletonIssues, flagOf. simpl.
  destruct (typeMap total_bill) as [v1|], (typeMap subtotal) as [v2|],
    (typeMap paid) as [v3|];
    repeat match goal with
           | |- context [(1 <? ?n)%nat] => destruct (1 <? n)%nat
           end; reflexivity.
Qed.

Lemma consistencyIssues_extends (typeMap : TypeMap) (issues : list Issue) :
  exists extra,
    consistencyIssues typeMap issues = issues ++ extra
    /\ forall t vs, ~ In (MultipleAmounts t vs) extra.
Proof.
  unfold consistencyIssues.
  destruct (typeMap total_bill), (typeMap paid), (typeMap due);
    try (exists []; rewrite app_nil_r; split; [reflexivity|intros ? ? []]).
  match goal with
  | |- context [if ?b then _ else _] => destruct b
  end.
  - eexists. split; [reflexivity|].
    intros t vs [H|[]]. discriminate.
  - exists []. rewrite app_nil_r. split; [reflexivity|intros ? ? []].
Qed.

Lemma flagOf_In (amounts : list OutputAmount) (t t' : AmountType)
    (vs : list number) :
  In (MultipleAmounts t vs) (flagOf (buildTypeMap amounts) t')
  <-> t = t' /\ vs = valuesOfType t amounts /\ (1 < length vs)%nat.
Proof.
  unfold flagOf. rewrite buildTypeMap_spec.
  destruct (valuesOfType t' amounts) as [|x l] eqn:E; simpl.
  - split; [intros []|]. intros [<- [-> L]]. rewrite E in L. simpl in L. lia.
  - destruct (Nat.ltb_spec 1 (S (length l))) as [L|L]; simpl.
    + split.
      * intros [H|[]]. injection H as <- <-. rewrite E. simpl. auto.
      * intros [<- [-> _]]. left. now rewrite E.
    + split; [intros []|]. intros [<- [-> L']]. rewrite E in L'. simpl in L'. lia.
Qed.

(** C9, as the code has it.  [validateClassification] raises the issue
    of a soft-singleton type (total_bill, subtotal or paid) exactly when
    more than one entry of the list has that type, whether or not their
    values differ, and an issue makes [valid] false; in particular two
    total_bill entries make [valid] false. *)
Theorem validateClassification_flags_repeated_singleton :
  forall amounts : list OutputAmount,
    let v := validateClassification amounts in
    (forall t vs,
        In (MultipleAmounts t vs) (issues v)
        <-> In t singletonTypes /\ vs = valuesOfType t amounts
            /\ (1 < length vs)%nat)
    /\ (valid v = false <-> issues v <> [])
    /\ (forall t, In t singletonTypes ->
                  (1 < length (valuesOfType t amounts))%nat ->
                  valid v = false)
    /\ (forall (x y : number) (s1 s2 : jsstring),
           valid (validateClassification
                    [{| type := total_bill; value := x; source := s1 |};
                     {| type := total_bill; value := y; source := s2 |}])
           = false).
Proof.
  intros amounts v. subst v. unfold validateClassification. simpl.
  destruct (consistencyIssues_extends (buildTypeMap amounts)
              (singletonIssues (buildTypeMap amounts)))
    as [extra [-> Hextra]].
  assert (Hflag : forall t vs,
             In (MultipleAmounts t vs)
                (singletonIssues (buildTypeMap amounts) ++ extra)
             <-> In t singletonTypes /\ vs = valuesOfType t amounts
                 /\ (1 < length vs)%nat).
  { intros t vs. rewrite singletonIssues_flags, !in_app_iff, !flagOf_In.
    unfold singletonTypes. simpl. split.
    - intros [[[E H]|[[E H]|[E H]]]|H]; auto.
      now apply Hextra in H.
    - intros [[<-|[<-|[<-|[]]]] H]; auto. }
  split; [exact Hflag|]. split; [|split].
  - destruct (singletonIssues (buildTypeMap amounts) ++ extra); simpl;
      split; congruence.
  - intros t Ht L.
    assert (Hin : In (MultipleAmounts t (valuesOfType t amounts))
                     (singletonIssues (buildTypeMap amounts) ++ extra))
      by (apply Hflag; auto).
    destruct (singletonIssues (buildTypeMap amounts) ++ extra);
      [contradiction|reflexivity].
  - reflexivity.
Qed.

(** The theorem at two total_bill entries of values 100 and 200. *)
Lemma validateClassification_flags_repeated_singleton_witness :
  valid (validateClassification
           [{| type := total_bill; value := ofZ 100; source := [] |};
            {| type := total_bill; value := ofZ 200; source := [] |}])
  = false.
Proof.
  destruct (validateClassification_flags_repeated_singleton
              [{| type := total_bill; value := ofZ 100; source := [] |};
               {| type := total_bill; value := ofZ 200; source := [] |}])
    as [_ [_ [H _]]].
  apply (H total_bill).
  - simpl. auto.
  - simpl. lia.
Defined.

(** C9, as stated, fails on two total_bill entries that share the value
    100: they hold a single distinct value, and yet the issue is raised
    and [valid] is false. *)
Lemma validateClassification_same_value_flagged :
  let amounts :=
    [{| type := total_bill; value := ofZ 100; source := [] |};
     {| type := total_bill; value := ofZ 100; source := [] |}] in
  length (distinctValues (valuesOfType total_bill amounts)) = 1%nat
  /\ issues (validateClassification amounts)
     = [MultipleAmounts total_bill [ofZ 100; ofZ 100]]
  /\ valid (validateClassification amounts) = false.
Proof. repeat split. Qed.

End Validation.

(** ** Extractor: the currency *)

Section Currency.
Import Ocr Spec.
Variable toLowerCase : jsstring -> jsstring.

(** The head of the sorted list is the first entry with the highest
    count. *)
Lemma sort_head (a : CurrencyCount) (l : list CurrencyCount) :
  exists x rest pre post,
    sort byCountDescending (a :: l) = x :: rest
    /\ a :: l = pre ++ x :: post
    /\ Forall (fun y => (count y < count x)%nat) pre
    /\ Forall (fun y => (count y <= count x)%nat) post.
Proof.
  revert a. induction l as [|b l IH]; intros a.
  - exists a, [], [], []. repeat split; constructor.
  - destruct (IH b) as [x [rest [pre [post [Hs [Hl [Hpre Hpost]]]]]]].
    change (sort byCountDescending (a :: b :: l))
      with (insertSorted byCountDescending a (sort byCountDescending (b :: l))).
    rewrite Hs. simpl. unfold byCountDescending at 1.
    destruct (Z.ltb_spec 0 (Z.of_nat (count x) - Z.of_nat (count a))) as [L|L].
    + exists x, (insertSorted byCountDescending a rest), (a :: pre), post.
      repeat split; trivial.
      * simpl. now rewrite Hl.
      * constructor; trivial. lia.
    + exists a, (x :: rest), [], (b :: l). repeat split; trivial.
      rewrite Hl. apply Forall_app. split.
      * eapply Forall_impl; [|exact Hpre]. simpl. intros; lia.
      * constructor; [lia|].
        eapply Forall_impl; [|exact Hpost]. simpl. intros; lia.
Qed.

Lemma countHint_fold (text : jsstring) (hints : list CurrencyHint)
    (acc : list CurrencyCount) :
  fold_left (countHint (toLowerCase text)) hints acc
  = acc ++ flat_map (entryOf toLowerCase text) hints.
Proof.
  revert acc. induction hints as [|h hints IH]; intros acc; simpl.
  - now rewrite app_nil_r.
  - rewrite IH. unfold countHint, entryOf, hintCount.
    destruct (0 <? _)%nat; simpl; trivial.
    now rewrite <- app_assoc.
Qed.

(** A split of the entries comes from a split of the hints. *)
Lemma entries_split (text : jsstring) (hints : list CurrencyHint)
    (pre post : list CurrencyCount) (x : CurrencyCount) :
  flat_map (entryOf toLowerCase text) hints = pre ++ x :: post ->
  exists hpre h hpost,
    hints = hpre ++ h :: hpost
    /\ entryOf toLowerCase text h = [x]
    /\ flat_map (entryOf toLowerCase text) hpre = pre
    /\ flat_map (entryOf toLowerCase text) hpost = post.
Proof.
  revert pre. induction hints as [|h hints IH]; intros pre; simpl.
  - destruct pre; discriminate.
  - destruct (entryOf toLowerCase text h) as [|y [|z l]] eqn:E; simpl.
    + intros H. destruct (IH _ H) as [hpre [h' [hpost [-> [E' [P1 P2]]]]]].
      exists (h :: hpre), h', hpost. simpl. rewrite E. auto.
    + destruct pre as [|p pre]; simpl; intros H; injection H as -> H.
      * exists [], h, hints. auto.
      * destruct (IH _ H) as [hpre [h' [hpost [-> [E' [P1 P2]]]]]].
        exists (h :: hpre), h', hpost. simpl. rewrite E, P1. auto.
    + unfold entryOf in E. destruct (0 <? _)%nat; discriminate.
Qed.

Lemma entries_bound (text : jsstring) (hints : list CurrencyHint) (n : nat)
    (R : nat -> nat -> Prop) :
  R 0%nat n ->
  Forall (fun y => R (count y) n) (flat_map (entryOf toLowerCase text) hints) ->
  Forall (fun h => R (hintCount toLowerCase text h) n) hints.
Proof.
  intros H0 H. induction hints as [|h hints IH]; simpl in *; constructor.
  - unfold entryOf in H. destruct (Nat.ltb_spec 0 (hintCount toLowerCase text h)).
    + simpl in H. inversion H; subst. trivial.
    + replace (hintCount toLowerCase text h) with 0%nat by lia. trivial.
  - apply IH. apply Forall_app in H. apply H.
Qed.

(** C7.  The hints are scanned in the order INR, USD, EUR, GBP, each
    counted by the matches of its pattern in the lower-cased text.  When
    no pattern matches, [detectCurrency] returns USD.  Otherwise it
    returns the code of a hint whose count is positive, strictly above
    the count of every hint before it and at least the count of every
    hint after it.  Being a function of the text alone, it returns the
    same code for the same text. *)
Theorem detectCurrency_highest_count_first_wins :
  forall text : jsstring,
    map h_code currencyHints = [INR; USD; EUR; GBP]
    /\ ((Forall (fun h => hintCount toLowerCase text h = 0%nat) currencyHints
         /\ detectCurrency toLowerCase text = USD)
        \/ (exists pre h post,
              currencyHints = pre ++ h :: post
              /\ detectCurrency toLowerCase text = h_code h
              /\ (0 < hintCount toLowerCase text h)%nat
              /\ Forall (fun h' => (hintCount toLowerCase text h'
                                    < hintCount toLowerCase text h)%nat) pre
              /\ Forall (fun h' => (hintCount toLowerCase text h'
                                    <= hintCount toLowerCase text h)%nat) post)).
Proof.
  intros text. split; [reflexivity|].
  unfold detectCurrency. rewrite countHint_fold, app_nil_l.
  destruct (flat_map (entryOf toLowerCase text) currencyHints) as [|a l] eqn:E.
  - left. split; trivial.
    apply Forall_forall. intros h Hh.
    assert (Hn : entryOf toLowerCase text h = []).
    { destruct (entryOf toLowerCase text h) eqn:F; trivial.
      assert (In c (flat_map (entryOf toLowerCase text) currencyHints))
        by (apply in_flat_map; exists h; rewrite F; simpl; auto).
      rewrite E in H. contradiction. }
    unfold entryOf in Hn.
    destruct (Nat.ltb_spec 0 (hintCount toLowerCase text h));
      [discriminate|lia].
  - right.
    destruct (sort_head a l) as [x [rest [pre [post [Hs [Hl [Hpre Hpost]]]]]]].
    fold byCountDescending. rewrite Hs.
    rewrite Hl in E.
    destruct (entries_split _ _ _ _ _ E) as [hpre [h [hpost [Hh [Hx [P1 P2]]]]]].
    assert (Hc : (0 < hintCount toLowerCase text h)%nat
                 /\ x = {| code_ := h_code h;
                           count := hintCount toLowerCase text h |}).
    { unfold entryOf in Hx.
      destruct (Nat.ltb_spec 0 (hintCount toLowerCase text h));
        [|discriminate].
      injection Hx as <-. auto. }
    destruct Hc as [Hpos ->]. simpl in *.
    exists hpre, h, hpost. repeat split; trivial.
    + apply (entries_bound text hpre (hintCount toLowerCase text h) lt);
        trivial. now rewrite P1.
    + apply (entries_bound text hpost (hintCount toLowerCase text h) le);
        [lia|now rewrite P2].
Qed.

End Currency.

(** ** The [/final] route *)

Section Route.
Import Ocr Pipeline.
Variable toLowerCase : jsstring -> jsstring.
Variable config : Config.
Variable Buffer : Type.
Variable Error : Type.
Variable decodeBase64 : jsstring -> Buffer.
Variable imageBufferToText : Buffer -> Error + (jsstring * number).
Variable llmEnabled : bool.
Variable llmValidateClassification :
  jsstring -> list Classifier.OutputAmount -> LlmValidation.

(** C1.  A request without a text, an image or a file is answered
    'missing_input', and a request whose text is not a string makes
    [sanitizeText] throw: neither has a status.  For any other request
    the handler calls [extractFromTextOrImage] on the sanitized text (or
    [null]), the image and the file of the request, and leaves the
    exclude patterns as that call leaves them.  When the call throws, the
    error is passed on and there is no status.  Otherwise, with [ocr] its
    result: the status is [no_amounts_found] exactly when [raw_tokens] is
    empty, and the answer then carries the reason and the extracted
    text; it is [normalization_failed] exactly when [raw_tokens] is not
    empty and [normalizeTokens] gives no amount, and the answer then
    carries the raw tokens and the extracted text; it is [ok] exactly
    when neither list is empty, and the amounts are then those that
    [classifyAmounts] returns on the extracted text and the normalized
    amounts. *)
Theorem final_guardrails :
  forall (text image_base64 : field) (fileBuffer : option Buffer)
         (st : RegexState),
    let req := {| body_text := text; body_image_base64 := image_base64;
                  file_buffer := fileBuffer |} in
    let answer :=
      final toLowerCase config Buffer Error decodeBase64 imageBufferToText
        llmEnabled llmValidateClassification req st in
    let resp := fst answer in
    if negb (toBoolean text) && negb (toBoolean image_base64)
       && negb (Normalizer.isSome fileBuffer)
    then answer = (MissingInput Error, st)
    else
      match text with
      | Other true => answer = (Failure Error (NotAFunction Error), st)
      | _ =>
          let sanitizedText :=
            match text with
            | Str (c :: t) => Some (sanitizeText (c :: t))
            | _ => None
            end in
          let extracted :=
            extractFromTextOrImage toLowerCase config Buffer Error
              decodeBase64 imageBufferToText
              {| in_text := sanitizedText;
                 in_image_base64 := image_base64;
                 in_fileBuffer := fileBuffer |} st in
          snd answer = snd extracted
          /\ match fst extracted with
             | inl e => resp = Failure Error e
             | inr ocr =>
                 let normalized :=
                   Normalizer.normalizeTokens config (raw_tokens ocr) in
                 let amounts := Normalizer.normalized_amounts normalized in
                 (status Error resp = Some no_amounts_found
                  <-> raw_tokens ocr = [])
                 /\ (status Error resp = Some normalization_failed
                     <-> raw_tokens ocr <> [] /\ amounts = [])
                 /\ (status Error resp = Some ok
                     <-> raw_tokens ocr <> [] /\ amounts <> [])
                 /\ match resp with
                    | NoAmountsFound _ reason extractedText =>
                        reason = noAmountsReason
                        /\ extractedText = extracted_text ocr
                    | NormalizationFailed _ reason tokens extractedText =>
                        reason = normalizationReason
                        /\ tokens = raw_tokens ocr
                        /\ extractedText = extracted_text ocr
                    | Success _ output =>
                        Pipeline.amounts output
                        = map (fun a =>
                                 {| Classifier.type := Classifier.type a;
                                    Classifier.value := Classifier.value a;
                                    Classifier.source :=
                                      firstNonEmpty (Classifier.source a)
                                                    (js "inferred") |})
                              (Classifier.amounts
                                 (Classifier.classifyAmounts toLowerCase
                                    config
                                    (Some (firstNonEmpty
                                             (extracted_text ocr)
                                             (orEmpty sanitizedText)))
                                    (Some amounts)))
                        /\ total_tokens_extracted (metadata output)
                           = length (raw_tokens ocr)
                        /\ amounts_normalized (metadata output)
                           = length amounts
                    | MissingInput _ | Failure _ _ => False
                    end
             end
      end.
Proof.
  intros text image_base64 fileBuffer st. unfold final, extraction.
  cbn [body_text body_image_base64 file_buffer].
  destruct (negb (toBoolean text) && _ && _) eqn:G; [reflexivity|].
  unfold sanitized.
  destruct text as [|[|c t]|[|]]; cbn [toBoolean] in *;
    try reflexivity;
    (match goal with
     | |- context [extractFromTextOrImage ?a ?b ?c ?d ?e ?f ?i ?s] =>
         destruct (extractFromTextOrImage a b c d e f i s)
           as [[e'|ocr] st'] eqn:X
     end;
     cbn [fst snd]; (split; [reflexivity|]); trivial;
     unfold afterExtraction;
     destruct (raw_tokens ocr) as [|t0 ts] eqn:T;
     [ cbn [fst status]; repeat split; try discriminate; trivial;
       intros [H _]; congruence
     | destruct (Normalizer.normalized_amounts
                   (Normalizer.normalizeTokens config (t0 :: ts)))
         as [|a0 l0] eqn:A;
       cbn [fst status Pipeline.amounts metadata total_tokens_extracted
            amounts_normalized];
       repeat split; try discriminate; trivial;
       intros [_ H]; congruence ]).
Qed.

End Route.

Example final_no_amounts :
  runFinal "This is a document with no numbers or amounts in it at all."
  = Pipeline.NoAmountsFound unit
      (js "document too noisy or contains no numeric amounts")
      (js "This is a document with no numbers or amounts in it at all.").
Proof. vm_compute. reflexivity. Qed.

Example final_normalization_failed :
  runFinal "Total: I"
  = Pipeline.NormalizationFailed unit
      (js "could not parse any valid numeric amounts from extracted tokens")
      [js "I"] (js "Total: I").
Proof. vm_compute. reflexivity. Qed.

Example final_ok :
  Pipeline.status unit (runFinal "Total: 5000") = Some Pipeline.ok.
Proof. vm_compute. reflexivity. Qed.

(** ** Worked examples

    The cases that the specification lists as testable, evaluated on the
    model with the ASCII lower case and the default configuration. *)

Section Examples.
Import Normalizer Classifier Ocr.

Example fixOcrDigits_S_is_stripped : fixOcrDigits (js "1S0") = js "10".
Proof. reflexivity. Qed.

Example normalizeTokens_sample :
  normalized_amounts
    (normalizeTokens defaultConfig
       [js "l200"; js "1O00"; js "10%"; js "Rs.500"])
  = [ofZ 1200; ofZ 1000; ofZ 500].
Proof. vm_compute. reflexivity. Qed.

Example classifyAmounts_total_paid_due :
  map (fun a => (type a, value a))
      (amounts
         (classifyAmounts asciiToLowerCase defaultConfig
            (Some (js "Total: 5000" ++ [10%N] ++ js "Paid: 3000" ++ [10%N]
                   ++ js "Due: 2000"))
            (Some [ofZ 5000; ofZ 3000; ofZ 2000])))
  = [(total_bill, ofZ 5000); (paid, ofZ 3000); (due, ofZ 2000)].
Proof. vm_compute. reflexivity. Qed.

Example validateClassification_inconsistent :
  validateClassification
    [{| type := total_bill; value := ofZ 2000; source := [] |};
     {| type := paid; value := ofZ 1500; source := [] |};
     {| type := due; value := ofZ 600; source := [] |}]
  = {| valid := false;
       issues := [InconsistentAmounts (ofZ 2000) (ofZ 1500) (ofZ 600)] |}.
Proof. vm_compute. reflexivity. Qed.

(** "Total: $100 | Paid: E80 | Due: P20" with the euro and pound signs
    for E and P: one match each for USD, EUR and GBP, and USD comes
    first. *)
Example detectCurrency_tie :
  detectCurrency asciiToLowerCase
    (js "Total: $100 | Paid: " ++ [8364%N] ++ js "80 | Due: " ++ [163%N]
     ++ js "20")
  = USD.
Proof. vm_compute. reflexivity. Qed.

End Examples.

(** ** Normalizer: further properties *)

Section NormalizerFurther.
Import Normalizer Spec.

Lemma isDigit_cases (c : char) :
  isDigit c = true ->
  In c [48; 49; 50; 51; 52; 53; 54; 55; 56; 57]%N.
Proof.
  unfold isDigit, in_range. rewrite andb_true_iff, !N.leb_le.
  intros [L U]. simpl.
  assert (c = 48 \/ c = 49 \/ c = 50 \/ c = 51 \/ c = 52 \/ c = 53
          \/ c = 54 \/ c = 55 \/ c = 56 \/ c = 57)%N by lia.
  intuition.
Qed.

(** A digit is not white space, not a currency character, not a letter
    of the correction map, and is numeric. *)
Lemma isDigit_plain (c : char) :
  isDigit c = true ->
  isWhiteSpace c = false /\ isCurrencyChar c = false
  /\ digitCorrections c = None /\ isNumericChar c = true
  /\ (44 =? c)%N = false.
Proof.
  intros H. apply isDigit_cases in H. simpl in H.
  repeat (destruct H as [<-|H]; [repeat split; reflexivity|]).
  contradiction.
Qed.

Lemma fixOcrDigits_filtered (token : jsstring) :
  token <> [] ->
  fixOcrDigits token
  = removeAll (fun c => negb (isDigit c || (c =? 46)%N))
      (removeAll (N.eqb 44) (scan (strip token))).
Proof.
  intros H. rewrite fixOcrDigits_unfold by trivial.
  apply collapseDots_no_dot.
  unfold removeAll. intros D.
  apply filter_In in D. destruct D as [D _].
  apply filter_In in D. destruct D as [D _].
  now apply scan_strip_no_dot in D.
Qed.

(** X1.  Whatever the token, [fixOcrDigits] returns a string of decimal
    digits only (possibly empty). *)
Theorem fixOcrDigits_only_digits :
  forall token : jsstring,
    Forall (fun c => isDigit c = true) (fixOcrDigits token).
Proof.
  intros token. apply Forall_forall. intros c Hc.
  destruct token as [|c0 token]; [contradiction|].
  pose proof (fixOcrDigits_no_dot (c0 :: token)) as Hdot.
  rewrite fixOcrDigits_filtered in Hc by discriminate.
  pose proof Hc as Hc'.
  rewrite <- fixOcrDigits_filtered in Hc' by discriminate.
  unfold removeAll in Hc. apply filter_In in Hc. destruct Hc as [_ Hc].
  apply negb_true_iff, negb_false_iff, orb_true_iff in Hc.
  destruct Hc as [Hc|Hc]; trivial.
  apply N.eqb_eq in Hc. subst c. contradiction.
Qed.

Lemma dropWhile_head (p : char -> bool) (s : jsstring) :
  Forall (fun c => p c = false) s -> dropWhile p s = s.
Proof. destruct 1 as [|c s Hc _]; simpl; trivial. now rewrite Hc. Qed.

Lemma trim_no_space (s : jsstring) :
  Forall (fun c => isWhiteSpace c = false) s -> trim s = s.
Proof.
  intros H. unfold trim. rewrite (dropWhile_head _ s H).
  rewrite dropWhile_head by now apply Forall_rev.
  apply rev_involutive.
Qed.

Lemma removeAll_none (p : char -> bool) (s : jsstring) :
  Forall (fun c => p c = false) s -> removeAll p s = s.
Proof.
  unfold removeAll. induction 1 as [|c s Hc Hs IH]; cbn [filter]; trivial.
  now rewrite Hc, IH.
Qed.

Lemma map_seq_nth {A} (s : jsstring) (g : nat -> A) (h : char -> A) (k : nat) :
  (forall i c, nth_error s i = Some c -> g (k + i)%nat = h c) ->
  map g (seq k (length s)) = map h s.
Proof.
  revert k. induction s as [|c s IH]; intros k H; simpl; trivial.
  f_equal.
  - rewrite <- (H 0%nat c) by reflexivity. f_equal. lia.
  - apply IH. intros i c' E. rewrite <- (H (S i) c') by exact E.
    f_equal. lia.
Qed.

Lemma concat_singletons (s : jsstring) : concat (map (fun c => [c]) s) = s.
Proof. induction s as [|c s IH]; simpl; congruence. Qed.

(** The scan keeps a string of digits as it is. *)
Lemma scan_digits (s : jsstring) :
  Forall (fun c => isDigit c = true) s -> scan s = s.
Proof.
  intros H. rewrite scan_pieces.
  rewrite (map_seq_nth s (scanStep s []) (fun c => [c]) 0).
  - apply concat_singletons.
  - intros i c E. simpl. unfold scanStep. rewrite E.
    assert (D : isDigit c = true)
      by (rewrite Forall_forall in H; apply H; eapply nth_error_In; eauto).
    destruct (isDigit_plain c D) as [_ [_ [-> [-> _]]]]. reflexivity.
Qed.

Lemma fixOcrDigits_digits (s : jsstring) :
  Forall (fun c => isDigit c = true) s -> fixOcrDigits s = s.
Proof.
  intros H. destruct s as [|c0 s]; trivial.
  rewrite fixOcrDigits_filtered by discriminate.
  set (t := c0 :: s) in *.
  assert (Hplain : forall P : char -> Prop,
             (forall c, isDigit c = true -> P c) -> Forall P t)
    by (intros P HP; eapply Forall_impl; [exact HP|exact H]).
  assert (E1 : strip t = t).
  { unfold strip. rewrite trim_no_space.
    - rewrite (removeAll_none isCurrencyChar).
      + apply removeAll_none. apply Hplain. intros c D.
        now destruct (isDigit_plain c D).
      + apply Hplain. intros c D.
        now destruct (isDigit_plain c D) as [_ [? _]].
    - apply Hplain. intros c D. now destruct (isDigit_plain c D). }
  rewrite E1, scan_digits by trivial.
  rewrite (removeAll_none (N.eqb 44)).
  - apply removeAll_none. apply Hplain. intros c D. now rewrite D.
  - apply Hplain. intros c D.
    now destruct (isDigit_plain c D) as [_ [_ [_ [_ ?]]]].
Qed.

(** X2.  [fixOcrDigits] is idempotent: correcting a corrected token
    changes nothing. *)
Theorem fixOcrDigits_idempotent :
  forall token : jsstring,
    fixOcrDigits (fixOcrDigits token) = fixOcrDigits token.
Proof.
  intros token. apply fixOcrDigits_digits, fixOcrDigits_only_digits.
Qed.

End NormalizerFurther.

(** ** Numbers: the sign of rounded results *)

Section Signs.

Lemma shr_1_nonneg (mrs : shr_record) :
  (0 <= shr_m mrs)%Z -> (0 <= shr_m (shr_1 mrs))%Z.
Proof.
  destruct mrs as [m r s]. simpl.
  destruct m as [|[p|p|]|p]; simpl; lia.
Qed.

Lemma iter_pos_invariant {A} (P : A -> Prop) (f : A -> A) :
  (forall x, P x -> P (f x)) ->
  forall (n : positive) (x : A), P x -> P (iter_pos f n x).
Proof.
  intros Hf. induction n as [n IH|n IH|]; intros x Hx; simpl; auto.
Qed.

Lemma shr_fexp_nonneg (m e : Z) (l : location) :
  (0 <= m)%Z -> (0 <= shr_m (fst (shr_fexp prec emax m e l)))%Z.
Proof.
  intros Hm. unfold shr_fexp, shr.
  assert (H0 : (0 <= shr_m (shr_record_of_loc m l))%Z)
    by (destruct l as [|[]]; exact Hm).
  destruct (fexp prec emax (Zdigits2 m + e) - e)%Z; simpl; trivial.
  apply (iter_pos_invariant (fun r => (0 <= shr_m r)%Z)); trivial.
  apply shr_1_nonneg.
Qed.

(** A rounded result has the sign it is given and is not [NaN]. *)
Lemma binary_round_aux_sign (s : bool) (m e : Z) (l : location) :
  (0 <= m)%Z ->
  isNaN (binary_round_aux prec emax s m e l) = false
  /\ isNegative (binary_round_aux prec emax s m e l) = s.
Proof.
  intros Hm. unfold binary_round_aux.
  pose proof (shr_fexp_nonneg m e l Hm) as H1.
  destruct (shr_fexp prec emax m e l) as [mrs' e'] eqn:E1. simpl in H1.
  set (m1 := round_nearest_even (shr_m mrs') (loc_of_shr_record mrs')).
  assert (Hm1 : (0 <= m1)%Z).
  { unfold m1, round_nearest_even.
    destruct (loc_of_shr_record mrs') as [|[]]; trivial;
      try destruct (Z.even (shr_m mrs')); lia. }
  pose proof (shr_fexp_nonneg m1 e' loc_Exact Hm1) as H2.
  destruct (shr_fexp prec emax m1 e' loc_Exact) as [mrs'' e''] eqn:E2.
  simpl in H2.
  destruct (shr_m mrs'') as [|p|p]; simpl; auto.
  - destruct (_ <=? _)%Z; simpl; auto.
  - lia.
Qed.

(** Neither [NaN] nor negative. *)
Lemma ofZ_sign (n : Z) :
  (0 <= n)%Z -> isNaN (ofZ n) = false /\ isNegative (ofZ n) = false.
Proof.
  intros Hn. unfold ofZ, binary_normalize.
  destruct n as [|p|p]; [simpl; auto| |lia].
  unfold binary_round.
  destruct (shl_align p 0 (fexp prec emax (Z.pos (digits2_pos p) + 0)))
    as [mz ez].
  apply binary_round_aux_sign. lia.
Qed.

Lemma mul_sign (m1 m2 : positive) (e1 e2 : Z) :
  isNaN (mul (S754_finite false m1 e1) (S754_finite false m2 e2)) = false
  /\ isNegative (mul (S754_finite false m1 e1) (S754_finite false m2 e2))
     = false.
Proof. unfold mul, SFmul. simpl. apply binary_round_aux_sign. lia. Qed.

Lemma round_sign (x : number) :
  isNaN x = false -> isNegative x = false ->
  isNaN (round x) = false /\ isNegative (round x) = false.
Proof.
  destruct x as [s|s| |s m e]; simpl; intros N S; try discriminate; auto.
  subst s. destruct e as [|e|d]; simpl; auto.
  apply ofZ_sign.
  assert (0 <= Z.shiftr (Z.pos m) (Z.pos d))%Z
    by (apply Z.shiftr_nonneg; lia).
  destruct (_ <=? _)%Z; lia.
Qed.

Lemma div_sign (x : number) (m : positive) (e : Z) :
  isNaN x = false -> isNegative x = false ->
  isNaN (div x (S754_finite false m e)) = false
  /\ isNegative (div x (S754_finite false m e)) = false.
Proof.
  destruct x as [s|s| |s mx ex]; simpl; intros N S; try discriminate;
    subst s; simpl; auto.
  unfold div, SFdiv. simpl xorb.
  destruct (SFdiv_core_binary prec emax (Z.pos mx) ex (Z.pos m) e)
    as [[mz ez] lz] eqn:E.
  apply binary_round_aux_sign.
  unfold SFdiv_core_binary in E.
  set (m' := match (ex - e - _)%Z with
             | Z0 => Z.pos mx
             | Zpos _ => _
             | Zneg _ => 0%Z
             end) in E.
  assert (Hm' : (0 <= m')%Z).
  { unfold m'. destruct (ex - e - _)%Z; try lia.
    apply Z.shiftl_nonneg. lia. }
  destruct (Z.div_eucl m' (Z.pos m)) as [q r] eqn:D.
  injection E as <- _ _.
  assert (q = m' / Z.pos m)%Z by (unfold Z.div; now rewrite D).
  subst q. apply Z.div_pos; lia.
Qed.

End Signs.

(** ** Normalizer: the amounts *)

Section NormalizerAmounts.
Import Normalizer Spec.

Lemma ofZ_100 : ofZ 100 = S754_finite false 7036874417766400 (-46).
Proof. reflexivity. Qed.

(** The value of a parsed token. *)
Lemma parseNumeric_value (token : jsstring) (p : Parsed) :
  parseNumeric token = Some p ->
  includes (js "%") token = false
  /\ fixOcrDigits token <> []
  /\ exists m e,
       parseFloat (fixOcrDigits token) = S754_finite false m e
       /\ p_value p
          = div (round (mul (S754_finite false m e) (ofZ 100))) (ofZ 100).
Proof.
  unfold parseNumeric. rewrite lit_1_2.
  destruct (fixOcrDigits token) as [|c0 l] eqn:F; [discriminate|].
  destruct (str_eqb (c0 :: l) (js ".")); [discriminate|].
  destruct (includes (js "%") token); [discriminate|].
  destruct (parseFloat (c0 :: l)) as [s|s| |s m e] eqn:V;
    [simpl; discriminate..|].
  destruct s; [simpl; discriminate|].
  cbn [isFinite negb orb].
  destruct (ltb (S754_finite false m e) zero); [discriminate|].
  destruct (ltb (S754_finite false m e) _); [discriminate|].
  intros E. injection E as <-. cbn [p_value].
  split; trivial. split; [discriminate|]. now exists m, e.
Qed.

Lemma parseNumeric_sign (token : jsstring) (p : Parsed) :
  parseNumeric token = Some p ->
  isNaN (p_value p) = false /\ isNegative (p_value p) = false.
Proof.
  intros H. destruct (parseNumeric_value _ _ H) as [_ [_ [m [e [_ ->]]]]].
  rewrite ofZ_100.
  destruct (mul_sign m 7036874417766400 e (-46)) as [N S].
  destruct (round_sign _ N S) as [N' S'].
  now apply div_sign.
Qed.

Lemma withEarlier_In (earlier tokens e : list jsstring) (t : jsstring) :
  In (e, t) (withEarlier earlier tokens) -> In t tokens.
Proof.
  revert earlier. induction tokens as [|a tokens IH]; intros earlier; simpl.
  - intros [].
  - intros [H|H]; [left; congruence|right; eauto].
Qed.

(** Each amount is the value of a token of the list. *)
Lemma amounts_sound (config : Config) (tokens : list jsstring) (v : number) :
  In v (normalized_amounts (normalizeTokens config tokens)) ->
  exists token p,
    In token tokens /\ parseNumeric token = Some p /\ p_value p = v.
Proof.
  rewrite normalizeTokens_amounts.
  destruct (LoopInv_fold tokens) as [_ _ Hdet Hkept _ _].
  rewrite Hkept, Hdet. unfold keptValues.
  rewrite in_flat_map. intros [d [Hd Hv]].
  apply in_map_iff in Hd. destruct Hd as [[e t] [<- Hin]].
  apply withEarlier_In in Hin.
  unfold specDetail in Hv.
  destruct (parseNumeric t) as [p|] eqn:P; [|contradiction].
  destruct (existsb _ e); simpl in Hv; [contradiction|].
  destruct Hv as [<-|[]]. now exists t, p.
Qed.

(** A number is among the amounts when a token parses to it. *)
Lemma amounts_complete (config : Config) (tokens : list jsstring)
    (v : number) :
  setHas (normalized_amounts (normalizeTokens config tokens)) v
  = existsb (parsesTo v) tokens.
Proof.
  rewrite normalizeTokens_amounts.
  destruct (LoopInv_fold tokens) as [Hseen Hhas _ _ _ _].
  now rewrite <- Hseen.
Qed.

(** X3.  Every amount that [normalizeTokens] returns is the rounded
    value that [parseNumeric] gives to one of the tokens, and it is
    neither [NaN] nor negative. *)
Theorem normalizeTokens_amounts_parsed :
  forall (config : Config) (tokens : list jsstring),
    Forall (fun v =>
              (exists token p,
                  In token tokens /\ parseNumeric token = Some p
                  /\ p_value p = v)
              /\ isNaN v = false /\ isNegative v = false)
           (normalized_amounts (normalizeTokens config tokens)).
Proof.
  intros config tokens. apply Forall_forall. intros v Hv.
  destruct (amounts_sound _ _ _ Hv) as [token [p [Hin [P <-]]]].
  split; [now exists token, p|]. now apply parseNumeric_sign in P.
Qed.

(** X4.  A number is among the amounts that [normalizeTokens] returns
    (as a [Set] compares numbers) exactly when some token parses to it:
    no parsed value is lost. *)
Theorem normalizeTokens_amounts_complete :
  forall (config : Config) (tokens : list jsstring) (v : number),
    existsb (sameValueZero v)
            (normalized_amounts (normalizeTokens config tokens))
    = existsb (parsesTo v) tokens.
Proof. intros. apply amounts_complete. Qed.

Lemma normalizeTokens_confidence_zero (config : Config)
    (tokens : list jsstring) :
  normalized_amounts (normalizeTokens config tokens) = [] ->
  normalization_confidence (normalizeTokens config tokens) = zero.
Proof.
  destruct tokens as [|t tokens]; trivial.
  unfold normalizeTokens.
  set (st := fold_left loopBody (t :: tokens) initState).
  simpl. intros ->. reflexivity.
Qed.

(** X5.  [normalizeTokens] returns no amount exactly when none of the
    tokens parses, and the confidence is then 0. *)
Theorem normalizeTokens_no_amount :
  forall (config : Config) (tokens : list jsstring),
    let r := normalizeTokens config tokens in
    (normalized_amounts r = []
     <-> Forall (fun token => parseNumeric token = None) tokens)
    /\ (normalized_amounts r = [] -> normalization_confidence r = zero).
Proof.
  intros config tokens r. subst r. split.
  - split.
    + intros E. apply Forall_forall. intros token Hin.
      destruct (parseNumeric token) as [p|] eqn:P; trivial.
      pose proof (amounts_complete config tokens (p_value p)) as H.
      rewrite E in H. simpl in H. symmetry in H.
      rewrite <- not_true_iff_false in H. exfalso. apply H.
      apply existsb_exists. exists token. split; trivial.
      unfold parsesTo. rewrite P. apply sameValueZero_refl.
    + intros F.
      destruct (normalized_amounts (normalizeTokens config tokens))
        as [|v l] eqn:E; trivial.
      destruct (amounts_sound config tokens v) as [token [p [Hin [P _]]]].
      { rewrite E. now left. }
      rewrite Forall_forall in F. rewrite (F _ Hin) in P. discriminate.
  - apply normalizeTokens_confidence_zero.
Qed.

(** X6.  When every token contains '%', [normalizeTokens] returns no
    amount and the confidence 0, and every detail is a failure without a
    value. *)
Theorem normalizeTokens_percent_tokens :
  forall (config : Config) (tokens : list jsstring),
    Forall (fun token => includes (js "%") token = true) tokens ->
    let r := normalizeTokens config tokens in
    normalized_amounts r = []
    /\ normalization_confidence r = zero
    /\ length (details r) = length tokens
    /\ Forall (fun d => d_success d = false /\ d_value d = None) (details r).
Proof.
  intros config tokens H r. subst r.
  assert (Hnone : Forall (fun token => parseNumeric token = None) tokens).
  { eapply Forall_impl; [|exact H]. simpl. intros token I.
    destruct (parseNumeric token) as [p|] eqn:P; trivial.
    destruct (parseNumeric_value _ _ P) as [I' _]. congruence. }
  assert (E : normalized_amounts (normalizeTokens config tokens) = [])
    by now apply normalizeTokens_no_amount.
  split; trivial. split; [now apply normalizeTokens_confidence_zero|].
  rewrite normalizeTokens_details.
  destruct (LoopInv_fold tokens) as [_ _ -> _ _ _].
  clear E H. generalize (@nil jsstring).
  induction Hnone as [|t ts Ht Hts IH]; intros earlier; simpl.
  - split; [reflexivity|constructor].
  - destruct (IH (earlier ++ [t])) as [L F]. split; [now rewrite L|].
    constructor; trivial. unfold specDetail. rewrite Ht. simpl. auto.
Qed.

(** The theorem at the tokens ["10%"] and ["5 %"]. *)
Lemma normalizeTokens_percent_tokens_witness :
  normalized_amounts (normalizeTokens defaultConfig [js "10%"; js "5 %"]) = []
  /\ normalization_confidence
       (normalizeTokens defaultConfig [js "10%"; js "5 %"]) = zero
  /\ length (details (normalizeTokens defaultConfig [js "10%"; js "5 %"]))
     = 2%nat
  /\ Forall (fun d => d_success d = false /\ d_value d = None)
            (details (normalizeTokens defaultConfig [js "10%"; js "5 %"])).
Proof.
  apply (normalizeTokens_percent_tokens defaultConfig [js "10%"; js "5 %"]).
  repeat (apply Forall_cons; [reflexivity|]). apply Forall_nil.
Defined.

Lemma loopBody_extends (st : LoopState) (t : jsstring) :
  exists da,
    detailsAcc (loopBody st t) = detailsAcc st ++ [da]
    /\ exists extra,
         normalizedAmounts (loopBody st t) = normalizedAmounts st ++ extra.
Proof.
  unfold loopBody. destruct (parseNumeric t) as [p|].
  - destruct (p_type p). destruct (setHas (seenValues st) (p_value p));
      simpl; eexists; split; try reflexivity.
    + exists []. now rewrite app_nil_r.
    + eexists. reflexivity.
  - simpl. eexists. split; [reflexivity|]. exists []. now rewrite app_nil_r.
Qed.

Lemma fold_loopBody_extends (more : list jsstring) (st : LoopState) :
  exists ds extra,
    detailsAcc (fold_left loopBody more st) = detailsAcc st ++ ds
    /\ length ds = length more
    /\ normalizedAmounts (fold_left loopBody more st)
       = normalizedAmounts st ++ extra.
Proof.
  revert st. induction more as [|t more IH]; intros st; simpl.
  - exists [], []. now rewrite !app_nil_r.
  - destruct (IH (loopBody st t)) as [ds [extra [Hd [Hl Ha]]]].
    destruct (loopBody_extends st t) as [da [Hd' [extra' Ha']]].
    exists (da :: ds), (extra' ++ extra).
    rewrite Hd, Hd', Ha, Ha', <- !app_assoc. simpl. auto.
Qed.

(** X7.  Tokens added at the end of the list leave the result on the
    tokens before them as it is: the details and the amounts of the
    longer list begin with those of the shorter one, with one more detail
    per added token. *)
Theorem normalizeTokens_append :
  forall (config : Config) (tokens more : list jsstring),
    exists ds extra,
      details (normalizeTokens config (tokens ++ more))
      = details (normalizeTokens config tokens) ++ ds
      /\ length ds = length more
      /\ normalized_amounts (normalizeTokens config (tokens ++ more))
         = normalized_amounts (normalizeTokens config tokens) ++ extra.
Proof.
  intros config tokens more.
  rewrite !normalizeTokens_amounts, !normalizeTokens_details, fold_left_app.
  apply fold_loopBody_extends.
Qed.

End NormalizerAmounts.

(** ** Normalizer: the validation of amounts *)

Section AmountsValidation.
Import Normalizer Spec.

Lemma amountIssues_acc (issues : list AmountIssue) (a : number) :
  amountIssues issues a = issues ++ amountIssues [] a.
Proof.
  unfold amountIssues.
  destruct (ltb a zero), (gtb a (ofZ 10000000)), (ltb a (lit 1 2));
    simpl; rewrite <- ?app_assoc, ?app_nil_r; reflexivity.
Qed.

Lemma amountIssues_fold (amounts : list number) (acc : list AmountIssue) :
  fold_left amountIssues amounts acc
  = acc ++ flat_map (amountIssues []) amounts.
Proof.
  revert acc. induction amounts as [|a l IH]; intros acc; simpl.
  - now rewrite app_nil_r.
  - rewrite IH, amountIssues_acc. now rewrite <- app_assoc.
Qed.

(** A negative amount is also below 0.01. *)
Lemma negative_is_small (a : number) :
  ltb a zero = true -> ltb a (lit 1 2) = true.
Proof.
  rewrite lit_1_2.
  destruct a as [s|s| |s m e]; simpl; try discriminate;
    destruct s; try discriminate; reflexivity.
Qed.

Lemma amountIssues_nil (a : number) :
  amountIssues [] a = []
  <-> ltb a (lit 1 2) = false /\ gtb a (ofZ 10000000) = false.
Proof.
  unfold amountIssues.
  pose proof (negative_is_small a) as N.
  destruct (ltb a zero), (gtb a (ofZ 10000000)), (ltb a (lit 1 2));
    simpl; split; try discriminate; try tauto;
    intros [? ?]; try discriminate.
  specialize (N eq_refl). discriminate.
Qed.

(** X8.  [validateAmounts] never accepts an absent or empty list.  It
    accepts a list exactly when no amount is below 0.01 or above ten
    million and the test on duplicates does not fire; the test for a
    negative amount adds nothing to this, since a negative amount is also
    reported as too small. *)
Theorem validateAmounts_valid :
  forall amounts : list number,
    av_valid (validateAmounts None) = false
    /\ (av_valid (validateAmounts (Some amounts)) = true
        <-> amounts <> []
            /\ Forall (fun a => ltb a (lit 1 2) = false
                                /\ gtb a (ofZ 10000000) = false) amounts
            /\ tooManyDuplicates amounts = false)
    /\ Forall (fun a => ltb a zero = true ->
                        In (NegativeAmount a)
                           (av_issues (validateAmounts (Some amounts)))
                        /\ In (SmallAmount a)
                              (av_issues (validateAmounts (Some amounts))))
              amounts.
Proof.
  intros amounts. split; [reflexivity|].
  destruct amounts as [|a0 l].
  { split; [|constructor]. simpl. split; [discriminate|].
    intros [H _]. congruence. }
  set (amounts := a0 :: l).
  assert (E : av_issues (validateAmounts (Some amounts))
              = flat_map (amountIssues []) amounts
                ++ if tooManyDuplicates amounts then [TooManyDuplicates]
                   else []).
  { unfold validateAmounts, amounts, tooManyDuplicates.
    cbn [av_issues]. rewrite amountIssues_fold, app_nil_l.
    destruct (ltb _ _); [reflexivity|now rewrite app_nil_r]. }
  assert (V : av_valid (validateAmounts (Some amounts))
              = (length (av_issues (validateAmounts (Some amounts))) =? 0)%nat)
    by reflexivity.
  split.
  - rewrite V, E, Nat.eqb_eq, length_zero_iff_nil.
    split.
    + intros H. apply app_eq_nil in H. destruct H as [H1 H2].
      split; [discriminate|]. split.
      * apply Forall_forall. intros a Ha. apply amountIssues_nil.
        destruct (amountIssues [] a) as [|i rest] eqn:I; trivial.
        assert (In i (flat_map (amountIssues []) amounts))
          by (apply in_flat_map; exists a; rewrite I; simpl; auto).
        rewrite H1 in H. contradiction.
      * destruct (tooManyDuplicates amounts); [discriminate|reflexivity].
    + intros [_ [F D]]. rewrite D, app_nil_r.
      clear E V D. induction F as [|a l' Ha Hl IH]; simpl; trivial.
      apply amountIssues_nil in Ha. now rewrite Ha, IH.
  - apply Forall_forall. intros a Ha Hneg. rewrite E.
    pose proof (negative_is_small a Hneg) as Hs.
    assert (I : In (NegativeAmount a) (amountIssues [] a)
                /\ In (SmallAmount a) (amountIssues [] a)).
    { unfold amountIssues. rewrite Hneg, Hs.
      destruct (gtb a (ofZ 10000000)); simpl; auto. }
    split; apply in_or_app; left; rewrite in_flat_map; exists a; tauto.
Qed.

Lemma not_negative_ltb (v : number) :
  isNegative v = false -> ltb v zero = false.
Proof.
  destruct v as [s|s| |s m e]; simpl; intros H; rewrite ?H; reflexivity.
Qed.

(** X9.  On the amounts that [normalizeTokens] returns, [validateAmounts]
    never reports a negative amount. *)
Theorem validateAmounts_of_normalized :
  forall (config : Config) (tokens : list jsstring),
    let r := normalizeTokens config tokens in
    Forall (fun i => forall a, i <> NegativeAmount a)
           (av_issues (validateAmounts (Some (normalized_amounts r)))).
Proof.
  intros config tokens r. subst r.
  apply Forall_forall. intros i Hi a ->. revert Hi.
  pose proof (normalizeTokens_amounts_parsed config tokens) as F.
  destruct (normalized_amounts (normalizeTokens config tokens)) as [|a0 l].
  { simpl. intros [H|H]; [discriminate|contradiction]. }
  set (amounts := a0 :: l) in *.
  unfold validateAmounts, amounts. cbn [av_issues].
  rewrite amountIssues_fold, app_nil_l. fold amounts.
  intros H.
  assert (H' : In (NegativeAmount a) (flat_map (amountIssues []) amounts)).
  { destruct (ltb _ _); trivial.
    apply in_app_or in H. destruct H as [H|H]; trivial.
    destruct H as [H|H]; [discriminate|contradiction]. }
  apply in_flat_map in H'. destruct H' as [x [Hx Hi]].
  rewrite Forall_forall in F. destruct (F x Hx) as [_ [_ S]].
  apply not_negative_ltb in S.
  unfold amountIssues in Hi. rewrite S in Hi.
  destruct (gtb x (ofZ 10000000)), (ltb x (lit 1 2)); simpl in Hi;
    intuition discriminate.
Qed.

End AmountsValidation.

(** ** Classifier: the snippets *)

Section Snippets.
Import Classifier Spec.

Lemma dropWhile_split (p : char -> bool) (s : jsstring) :
  exists w, s = w ++ dropWhile p s /\ Forall (fun c => p c = true) w.
Proof.
  induction s as [|c s [w [E F]]]; simpl.
  - exists []. split; [reflexivity|constructor].
  - destruct (p c) eqn:P.
    + exists (c :: w). split; [simpl; congruence|now constructor].
    + exists []. split; [reflexivity|constructor].
Qed.

Lemma dropWhile_startsClean (s : jsstring) :
  startsClean (dropWhile isWhiteSpace s).
Proof.
  induction s as [|c s IH]; simpl; trivial.
  destruct (isWhiteSpace c) eqn:W; simpl; trivial.
Qed.

(** [trim] leaves no white space at either end. *)
Lemma trim_clean (s : jsstring) :
  startsClean (trim s) /\ startsClean (rev (trim s)).
Proof.
  unfold trim. set (t := dropWhile isWhiteSpace s).
  rewrite rev_involutive. split; [|apply dropWhile_startsClean].
  destruct (dropWhile_split isWhiteSpace (rev t)) as [w [E _]].
  pose proof (dropWhile_startsClean s) as Ht. fold t in Ht.
  set (u := dropWhile isWhiteSpace (rev t)) in *.
  assert (Et : t = rev u ++ rev w).
  { rewrite <- (rev_involutive t), E, rev_app_distr. reflexivity. }
  destruct (rev u) as [|c r]; simpl; trivial.
  rewrite Et in Ht. exact Ht.
Qed.

Lemma splitRunsFrom_parts (p : char -> bool) (b : bool) (s : jsstring) :
  splitRunsFrom p b s <> []
  /\ Forall (Forall (fun c => p c = false)) (splitRunsFrom p b s).
Proof.
  revert b. induction s as [|c s IH]; intros b; simpl.
  - split; [discriminate|repeat constructor].
  - destruct (p c) eqn:P.
    + destruct b.
      * apply IH.
      * split; [discriminate|]. constructor; [constructor|apply IH].
    + destruct (IH false) as [N F].
      destruct (splitRunsFrom p false s) as [|part parts];
        [congruence|].
      split; [discriminate|]. inversion F; subst.
      constructor; trivial. now constructor.
Qed.

(** X10.  Every snippet that [findContextSnippets] returns is not
    empty, holds none of the separators '|', line feed and carriage
    return, and has no white space at either end. *)
Theorem findContextSnippets_well_formed :
  forall text : jsstring,
    Forall wellFormedSnippet (findContextSnippets text).
Proof.
  intros text. unfold findContextSnippets.
  apply Forall_forall. intros s Hs.
  apply filter_In in Hs. destruct Hs as [Hs L].
  apply in_map_iff in Hs. destruct Hs as [part [<- Hp]].
  destruct (splitRunsFrom_parts isSeparator false text) as [_ F].
  rewrite Forall_forall in F. specialize (F _ Hp).
  unfold wellFormedSnippet. split; [|split].
  - destruct (trim part); [discriminate|discriminate].
  - now apply Forall_trim.
  - apply trim_clean.
Qed.

Lemma splitRunsFrom_head (p : char -> bool) (b : bool) (c : char)
    (s : jsstring) :
  p c = false -> splitRunsFrom p b (c :: s) = splitRunsFrom p false (c :: s).
Proof. intros P. simpl. now rewrite P. Qed.

Lemma splitRunsFrom_prefix (p : char -> bool) (s t : jsstring) :
  Forall (fun c => p c = false) s ->
  splitRunsFrom p false (s ++ t)
  = match splitRunsFrom p false t with
    | part :: parts => (s ++ part) :: parts
    | [] => [s]
    end.
Proof.
  destruct (splitRunsFrom_parts p false t) as [N _].
  induction 1 as [|c s Hc Hs IH]; simpl.
  - destruct (splitRunsFrom p false t); [congruence|reflexivity].
  - rewrite Hc, IH.
    destruct (splitRunsFrom p false t); [congruence|reflexivity].
Qed.

Lemma splitRunsFrom_separators (p : char -> bool) (sep t : jsstring) :
  Forall (fun c => p c = true) sep ->
  splitRunsFrom p true (sep ++ t) = splitRunsFrom p true t.
Proof.
  induction 1 as [|c sep Hc Hs IH]; simpl; trivial. now rewrite Hc.
Qed.

Lemma join_cons (sep s : jsstring) (rest : list jsstring) :
  rest <> [] -> join sep (s :: rest) = s ++ sep ++ join sep rest.
Proof. destruct rest; [congruence|reflexivity]. Qed.

Lemma join_head (sep : jsstring) (snippets : list jsstring) :
  snippets <> [] -> Forall wellFormedSnippet snippets ->
  exists c r, join sep snippets = c :: r /\ isSeparator c = false.
Proof.
  intros N F. destruct snippets as [|s rest]; [congruence|].
  inversion F as [|? ? [Hne [Hsep _]] _]; subst.
  destruct s as [|c s]; [congruence|]. inversion Hsep; subst.
  destruct rest; simpl; eauto.
Qed.

Lemma splitRuns_join (sep : jsstring) (snippets : list jsstring) :
  sep <> [] -> Forall (fun c => isSeparator c = true) sep ->
  snippets <> [] -> Forall wellFormedSnippet snippets ->
  splitRuns isSeparator (join sep snippets) = snippets.
Proof.
  intros Hne Hsep. unfold splitRuns.
  induction snippets as [|s rest IH]; intros N F; [congruence|].
  inversion F as [|? ? [_ [Hs _]] Frest]; subst.
  destruct rest as [|s' rest'].
  - simpl. rewrite <- (app_nil_r s) at 1.
    rewrite splitRunsFrom_prefix by trivial. simpl. now rewrite app_nil_r.
  - rewrite join_cons by discriminate.
    rewrite splitRunsFrom_prefix by trivial.
    destruct sep as [|c0 sep']; [congruence|].
    inversion Hsep; subst.
    assert (E : splitRunsFrom isSeparator false
                  ((c0 :: sep') ++ join (c0 :: sep') (s' :: rest'))
                = [] :: s' :: rest').
    { rewrite <- app_comm_cons. cbn [splitRunsFrom].
      match goal with H : isSeparator c0 = true |- _ => rewrite H end.
      rewrite splitRunsFrom_separators by trivial.
      destruct (join_head (c0 :: sep') (s' :: rest')) as [c [r [E Hc]]];
        [discriminate|trivial|].
      rewrite E, splitRunsFrom_head by trivial. rewrite <- E.
      f_equal. apply IH; [discriminate|trivial]. }
    rewrite E. now rewrite app_nil_r.
Qed.

Lemma trim_well_formed (s : jsstring) : wellFormedSnippet s -> trim s = s.
Proof.
  intros [_ [_ [H1 H2]]]. unfold trim.
  assert (E1 : dropWhile isWhiteSpace s = s).
  { destruct s as [|c s]; trivial. simpl in *. now rewrite H1. }
  rewrite E1.
  assert (E2 : dropWhile isWhiteSpace (rev s) = rev s).
  { destruct (rev s) as [|c r]; trivial. simpl in *. now rewrite H2. }
  rewrite E2. apply rev_involutive.
Qed.

(** X11.  Snippets that are not empty, hold no separator and have no
    white space at their ends come back as they are when they are joined
    by a separator and split again. *)
Theorem findContextSnippets_join :
  forall (sep : jsstring) (snippets : list jsstring),
    sep <> [] -> Forall (fun c => isSeparator c = true) sep ->
    Forall wellFormedSnippet snippets ->
    findContextSnippets (join sep snippets) = snippets.
Proof.
  intros sep snippets Hne Hsep F. unfold findContextSnippets.
  destruct snippets as [|s rest]; [reflexivity|].
  rewrite splitRuns_join by (trivial; discriminate).
  assert (Hmap : map trim (s :: rest) = s :: rest).
  { clear -F. induction F as [|x l Hx Hl IH]; simpl; trivial.
    now rewrite trim_well_formed, IH. }
  rewrite Hmap. clear Hmap.
  induction F as [|x l [Hx _] Hl IH]; trivial.
  cbn [filter]. destruct x; [congruence|]. simpl. now rewrite IH.
Qed.

(** The theorem at the snippets "Total: 5" and "Paid: 3" joined by a
    line feed. *)
Lemma findContextSnippets_join_witness :
  findContextSnippets (join [10%N] [js "Total: 5"; js "Paid: 3"])
  = [js "Total: 5"; js "Paid: 3"].
Proof.
  apply (findContextSnippets_join [10%N] [js "Total: 5"; js "Paid: 3"]).
  - discriminate.
  - repeat (apply Forall_cons; [reflexivity|]). apply Forall_nil.
  - repeat (apply Forall_cons;
            [split; [discriminate|];
             split; [repeat (apply Forall_cons; [reflexivity|]);
                     apply Forall_nil|];
             split; reflexivity|]).
    apply Forall_nil.
Defined.

End Snippets.

(** ** Classifier: the amounts of a snippet *)

Section SnippetAmounts.
Import Classifier Spec.

Lemma mapSet_In {A} (entries : list (number * A)) (k : number) (v : A)
    (e : number * A) :
  In e (mapSet entries k v) ->
  In e entries
  \/ (snd e = v /\ sameValueZero (fst e) k = true).
Proof.
  induction entries as [|[k' v'] entries IH]; simpl.
  - intros [<-|[]]. right. split; [reflexivity|apply sameValueZero_refl].
  - destruct (sameValueZero k' k) eqn:E; simpl.
    + intros [<-|H]; auto.
    + intros [<-|H]; auto. destruct (IH H); auto.
Qed.

Lemma mapSet_keys {A} (entries : list (number * A)) (k : number) (v : A) :
  ForallOrdPairs (fun e1 e2 => sameValueZero (fst e1) (fst e2) = false)
                 entries ->
  ForallOrdPairs (fun e1 e2 => sameValueZero (fst e1) (fst e2) = false)
                 (mapSet entries k v).
Proof.
  induction 1 as [|[k' v'] entries Hk Hrest IH]; simpl.
  - repeat constructor.
  - destruct (sameValueZero k' k) eqn:E.
    + constructor; trivial.
    + constructor; trivial.
      apply Forall_forall. intros e He. apply mapSet_In in He.
      destruct He as [He|[_ He]].
      * rewrite Forall_forall in Hk. now apply Hk.
      * simpl. destruct (sameValueZero k' (fst e)) eqn:E'; trivial.
        now rewrite (sameValueZero_trans _ _ _ E' He) in E.
Qed.

Lemma UniqueInv_set (amounts : list SnippetAmount)
    (entries : list (number * SnippetAmount)) (a : SnippetAmount) :
  In a amounts -> UniqueInv amounts entries ->
  UniqueInv amounts (mapSet entries (sa_value a) a).
Proof.
  intros Ha [K V]. split; [now apply mapSet_keys|].
  apply Forall_forall. intros e He. apply mapSet_In in He.
  destruct He as [He|[Hs Hk]].
  - rewrite Forall_forall in V. now apply V.
  - rewrite Hs. auto.
Qed.

Lemma UniqueInv_fold (amounts todo : list SnippetAmount)
    (entries : list (number * SnippetAmount)) :
  incl todo amounts -> UniqueInv amounts entries ->
  UniqueInv amounts
    (fold_left (fun m a => mapSet m (sa_value a) a) todo entries).
Proof.
  revert entries. induction todo as [|a todo IH]; intros entries I U;
    simpl; trivial.
  apply IH.
  - intros x Hx. apply I. now right.
  - apply UniqueInv_set; trivial. apply I. now left.
Qed.

(** The values of [uniqueByValue] are pairwise different and its
    members are members of the list. *)
Lemma uniqueByValue_spec (amounts : list SnippetAmount) :
  ForallOrdPairs
    (fun a b => sameValueZero (sa_value a) (sa_value b) = false)
    (uniqueByValue amounts)
  /\ incl (uniqueByValue amounts) amounts.
Proof.
  unfold uniqueByValue.
  destruct (UniqueInv_fold amounts amounts [] (incl_refl _)) as [K V].
  { split; constructor. }
  set (entries := fold_left _ amounts []) in *. clearbody entries.
  split.
  - induction K as [|e entries He Hrest IH]; simpl; constructor.
    + inversion V as [|? ? [Ve _] Vrest]; subst.
      rewrite Forall_map. apply Forall_forall. intros e' He'.
      rewrite Forall_forall in He, Vrest.
      destruct (Vrest _ He') as [Ve' _]. specialize (He _ He').
      destruct (sameValueZero (sa_value (snd e)) (sa_value (snd e'))) eqn:E;
        trivial.
      apply sameValueZero_iff in Ve, Ve', E.
      assert (T : sameValueZero (fst e) (fst e') = true)
        by (apply sameValueZero_iff; congruence).
      congruence.
    + apply IH. now inversion V.
  - intros a Ha. apply in_map_iff in Ha. destruct Ha as [e [<- He]].
    rewrite Forall_forall in V. now apply V.
Qed.

(** What [amountOfMatch] adds is neither [NaN] nor negative. *)
Lemma amountOfMatch_sign (snippet : jsstring) (m : Regex.Match)
    (amounts : list SnippetAmount) :
  Forall (fun a => isNaN (sa_value a) = false
                   /\ isNegative (sa_value a) = false) amounts ->
  Forall (fun a => isNaN (sa_value a) = false
                   /\ isNegative (sa_value a) = false)
         (amountOfMatch snippet amounts m).
Proof.
  intros F. unfold amountOfMatch.
  destruct (Regex.group1 snippet m) as [[|c l]|]; trivial.
  destruct (parseFloat _) as [s|s| |s mx ex] eqn:V;
    [simpl; trivial..|].
  destruct s; [simpl; trivial|].
  change (isFinite (S754_finite false mx ex)
          && gtb (S754_finite false mx ex) zero) with true. cbv iota.
  - apply Forall_app. split; trivial. constructor; [|constructor].
    cbn [sa_value]. rewrite ofZ_100.
    destruct (mul_sign mx 7036874417766400 ex (-46)) as [N S].
    destruct (round_sign _ N S) as [N' S'].
    now apply div_sign.
Qed.

Lemma amountsOfMatches_sign (snippet : jsstring) (ms : list Regex.Match)
    (amounts : list SnippetAmount) :
  Forall (fun a => isNaN (sa_value a) = false
                   /\ isNegative (sa_value a) = false) amounts ->
  Forall (fun a => isNaN (sa_value a) = false
                   /\ isNegative (sa_value a) = false)
         (fold_left (amountOfMatch snippet) ms amounts).
Proof.
  revert amounts. induction ms as [|m ms IH]; intros amounts F; simpl;
    trivial.
  apply IH. now apply amountOfMatch_sign.
Qed.

Lemma amountsOfPatterns_sign (snippet : jsstring) (ps : list Regex.regex)
    (amounts : list SnippetAmount) :
  Forall (fun a => isNaN (sa_value a) = false
                   /\ isNegative (sa_value a) = false) amounts ->
  Forall (fun a => isNaN (sa_value a) = false
                   /\ isNegative (sa_value a) = false)
         (fold_left
            (fun amounts pattern =>
               fold_left (amountOfMatch snippet)
                         (Regex.matchAll true pattern snippet) amounts)
            ps amounts).
Proof.
  revert amounts. induction ps as [|pattern ps IH]; intros amounts F; simpl;
    trivial.
  apply IH. now apply amountsOfMatches_sign.
Qed.

(** X12.  The amounts that [extractAmountsFromSnippet] returns have
    pairwise different values, none of which is [NaN] or negative. *)
Theorem extractAmountsFromSnippet_distinct :
  forall snippet : jsstring,
    ForallOrdPairs
      (fun a b => sameValueZero (sa_value a) (sa_value b) = false)
      (extractAmountsFromSnippet snippet)
    /\ Forall (fun a => isNaN (sa_value a) = false
                        /\ isNegative (sa_value a) = false)
              (extractAmountsFromSnippet snippet).
Proof.
  intros snippet. unfold extractAmountsFromSnippet.
  set (amounts := fold_left _ amountPatterns []).
  destruct (uniqueByValue_spec amounts) as [D I]. split; trivial.
  assert (F : Forall (fun a => isNaN (sa_value a) = false
                               /\ isNegative (sa_value a) = false) amounts).
  { unfold amounts. apply amountsOfPatterns_sign. constructor. }
  apply Forall_forall. intros a Ha. rewrite Forall_forall in F.
  apply F, I, Ha.
Qed.

End SnippetAmounts.

(** ** Classifier: the confidence of a match *)

Section MatchConfidence.
Import Classifier Spec.
Variable toLowerCase : jsstring -> jsstring.

Lemma ruleScore_bound (rule : Rule) (snippet : jsstring) :
  (0 <= priority rule)%Z ->
  (ruleScore toLowerCase rule snippet
   <= priority rule * (2 + Z.of_nat (length (keywords rule))))%Z.
Proof.
  intros P. unfold ruleScore, matchingKeywords.
  pose proof (filter_length_le
                (fun kw => includes (toLowerCase kw) (toLowerCase snippet))
                (keywords rule)) as L.
  destruct (patternMatches rule snippet); nia.
Qed.

Lemma classificationRules_bound :
  Forall (fun rule =>
            (0 <= priority rule)%Z
            /\ (priority rule * (2 + Z.of_nat (length (keywords rule)))
                <= 90)%Z)
         classificationRules.
Proof. repeat constructor; simpl; lia. Qed.

Lemma confidenceOfScore_range (s : Z) :
  (0 < s <= 90)%Z ->
  leb (confidenceOfScore s) (lit 5 1) = false
  /\ leb (confidenceOfScore s) (lit 95 2) = true.
Proof.
  intros H.
  assert (A : forallb (fun s => negb (leb (confidenceOfScore s) (lit 5 1))
                                && leb (confidenceOfScore s) (lit 95 2))
                      (map Z.of_nat (seq 1 90)) = true)
    by (vm_compute; reflexivity).
  rewrite forallb_forall in A.
  specialize (A s). apply andb_true_iff in A.
  - destruct A as [A1 A2]. now apply negb_true_iff in A1.
  - apply in_map_iff. exists (Z.to_nat s). split; [lia|].
    apply in_seq. lia.
Qed.

(** X13.  A match that [matchSnippetToType] returns has a score between
    1 and 90 and a confidence above 0.5 and at most 0.95: the test
    [confidence <= 0.5] of [classifyAmounts] never rejects a match. *)
Theorem matchSnippetToType_confidence_range :
  forall snippet : jsstring,
    match matchSnippetToType toLowerCase snippet with
    | None => True
    | Some m =>
        (0 < tm_score m <= 90)%Z
        /\ leb (tm_confidence m) (lit 5 1) = false
        /\ leb (tm_confidence m) (lit 95 2) = true
    end.
Proof.
  intros snippet.
  pose proof (RulesInv_fold toLowerCase snippet classificationRules) as H.
  unfold matchSnippetToType, matchSnippetToTypeWith.
  unfold RulesInv in H.
  destruct (fst (fold_left _ classificationRules (None, 0%Z))) as [m|];
    trivial.
  destruct H as [_ [Hpos [pre [rule [post [E [B _]]]]]]].
  destruct B as [_ [Hs [Hc _]]].
  assert (Hin : In rule classificationRules)
    by (rewrite E; apply in_or_app; right; now left).
  pose proof classificationRules_bound as Hb.
  rewrite Forall_forall in Hb. destruct (Hb _ Hin) as [P U].
  pose proof (ruleScore_bound rule snippet P) as L.
  assert (R : (0 < tm_score m <= 90)%Z) by lia.
  split; trivial. rewrite Hc. now apply confidenceOfScore_range.
Qed.

End MatchConfidence.

(** ** Classifier: the provenance of the classified amounts *)

Section Provenance.
Import Classifier Spec.
Variable toLowerCase : jsstring -> jsstring.
Variable config : Config.

Lemma truncate_length (snippet : jsstring) :
  (length (truncate snippet) <= 83)%nat.
Proof.
  unfold truncate, substring0.
  destruct (Nat.ltb_spec 80 (length snippet)) as [L|L].
  - rewrite length_app, firstn_length_le by lia. simpl. lia.
  - lia.
Qed.

(** The entries and the details of the state, side by side. *)
Lemma explained_value (nas : list number) (snippets : list jsstring)
    (snippet : jsstring) (st : ClassifyState) (sa : SnippetAmount) :
  In snippet snippets -> In sa (extractAmountsFromSnippet snippet) ->
  Forall2 (fun a d => explained toLowerCase snippets
                        (ca_type a) (ca_value a) (ca_source a) d)
          (cs_amounts st) (cs_details st) ->
  Forall2 (fun a d => explained toLowerCase snippets
                        (ca_type a) (ca_value a) (ca_source a) d)
          (cs_amounts (classifyValue toLowerCase nas snippet st sa))
          (cs_details (classifyValue toLowerCase nas snippet st sa)).
Proof.
  intros Hs Hsa F. unfold classifyValue.
  destruct (find (near (sa_value sa)) nas) as [x|] eqn:E; trivial.
  destruct (truthy x); simpl; trivial.
  destruct (matchSnippetToType toLowerCase snippet) as [c|] eqn:M; trivial.
  destruct (leb (tm_confidence c) (lit 5 1)); trivial.
  destruct (pairsHas (cs_classifiedPairs st) (tm_type c) x); trivial.
  simpl. apply Forall2_app; trivial.
  constructor; [|constructor].
  apply find_some in E. destruct E as [_ Hnear].
  unfold explained. simpl. repeat split; trivial.
  - now exists sa.
  - now exists c.
Qed.

Lemma explained_values (nas : list number) (snippets : list jsstring)
    (snippet : jsstring) (sas : list SnippetAmount) (st : ClassifyState) :
  In snippet snippets -> incl sas (extractAmountsFromSnippet snippet) ->
  Forall2 (fun a d => explained toLowerCase snippets
                        (ca_type a) (ca_value a) (ca_source a) d)
          (cs_amounts st) (cs_details st) ->
  Forall2 (fun a d => explained toLowerCase snippets
                        (ca_type a) (ca_value a) (ca_source a) d)
          (cs_amounts (fold_left (classifyValue toLowerCase nas snippet)
                                 sas st))
          (cs_details (fold_left (classifyValue toLowerCase nas snippet)
                                 sas st)).
Proof.
  intros Hs. revert st. induction sas as [|sa sas IH]; intros st I F; simpl;
    trivial.
  apply IH.
  - intros x Hx. apply I. now right.
  - apply explained_value; trivial. apply I. now left.
Qed.

Lemma explained_snippets (nas : list number) (snippets todo : list jsstring)
    (st : ClassifyState) :
  incl todo snippets ->
  Forall2 (fun a d => explained toLowerCase snippets
                        (ca_type a) (ca_value a) (ca_source a) d)
          (cs_amounts st) (cs_details st) ->
  Forall2 (fun a d => explained toLowerCase snippets
                        (ca_type a) (ca_value a) (ca_source a) d)
          (cs_amounts (fold_left (classifySnippet toLowerCase nas) todo st))
          (cs_details (fold_left (classifySnippet toLowerCase nas) todo st)).
Proof.
  revert st. induction todo as [|sn todo IH]; intros st I F; simpl; trivial.
  apply IH.
  - intros x Hx. apply I. now right.
  - unfold classifySnippet.
    destruct (extractAmountsFromSnippet sn) as [|sa sas] eqn:E; trivial.
    apply explained_values; trivial.
    + apply I. now left.
    + rewrite E. apply incl_refl.
Qed.

(** X14.  The amounts and the details that [classifyAmounts] returns go
    in pairs.  The two of a pair have the same type and value; the
    snippet of the detail is a snippet of the text, from which an amount
    within 0.01 of the value was extracted and whose matched type,
    keywords and pattern flag are those recorded; the source of the
    amount is that snippet, cut after 80 characters, between
    ["text: '"] and ["'"], and so has at most 91 characters. *)
Theorem classifyAmounts_provenance :
  forall (text : option jsstring) (normalizedAmounts : option (list number)),
    let r := classifyAmounts toLowerCase config text normalizedAmounts in
    Forall2 (fun a d =>
               explained toLowerCase (findContextSnippets (Ocr.orEmpty text))
                         (type a) (value a) (source a) d
               /\ (length (source a) <= 91)%nat)
            (amounts r) (classification_details r).
Proof.
  intros text nas r. subst r. unfold classifyAmounts.
  destruct text as [[|c text]|], nas as [[|n nas]|]; try constructor.
  set (l := n :: nas). set (t := c :: text).
  simpl amounts. simpl classification_details.
  change (Ocr.orEmpty (Some t)) with t.
  pose proof (explained_snippets l (findContextSnippets t)
                (findContextSnippets t) (initClassifyState l)
                (incl_refl _)) as H.
  set (st := fold_left _ _ _) in *.
  specialize (H (Forall2_nil _)).
  induction H as [|a d la ld Had Hrest IH]; simpl; constructor; trivial.
  split; trivial.
  destruct Had as [_ [_ [Hsrc _]]]. cbn [source]. rewrite Hsrc.
  rewrite !length_app. pose proof (truncate_length (cd_snippet d)).
  simpl. lia.
Qed.

End Provenance.

(** ** Classifier: the number of classified amounts *)

Section ClassifiedCount.
Import Classifier Spec.
Variable toLowerCase : jsstring -> jsstring.
Variable config : Config.

Lemma typeIndex_bound (t : AmountType) : (typeIndex t < 7)%nat.
Proof. destruct t; simpl; lia. Qed.

Lemma typeIndex_inj (a b : AmountType) : typeIndex a = typeIndex b -> a = b.
Proof. destruct a, b; simpl; congruence. Qed.

Lemma indexOf_found (v : number) (l : list number) :
  In v l ->
  (indexOf v l < length l)%nat
  /\ exists x, nth_error l (indexOf v l) = Some x
               /\ sameValueZero x v = true.
Proof.
  induction l as [|x l IH]; simpl; [intros []|].
  intros H. destruct (sameValueZero x v) eqn:E.
  - split; [lia|]. exists x. auto.
  - destruct H as [->|H]; [now rewrite sameValueZero_refl in E|].
    destruct (IH H) as [L [y [Hy Ey]]]. split; [lia|]. now exists y.
Qed.

Lemma ForallOrdPairs_NoDup {A B} (R : A -> A -> Prop) (key : A -> B)
    (l : list A) :
  (forall a b, In a l -> In b l -> R a b -> key a <> key b) ->
  ForallOrdPairs R l -> NoDup (map key l).
Proof.
  intros HR H. induction H as [|a l Ha Hl IH]; simpl; constructor.
  - intros Hin. apply in_map_iff in Hin. destruct Hin as [b [E Hb]].
    rewrite Forall_forall in Ha.
    apply (HR a b); simpl; auto.
  - apply IH. intros x y Hx Hy. apply HR; simpl; auto.
Qed.

Lemma ClassifyInv_count (l : list number) (st : ClassifyState) :
  ClassifyInv l st -> (length (cs_amounts st) <= 7 * length l)%nat.
Proof.
  intros [_ Hm Hd].
  set (key := fun a => (typeIndex (ca_type a), indexOf (ca_value a) l)).
  assert (Hmem : forall x, In x (cs_amounts st) -> In (ca_value x) l).
  { intros x Hx. rewrite Forall_forall in Hm. now apply Hm. }
  assert (ND : NoDup (map key (cs_amounts st))).
  { apply (ForallOrdPairs_NoDup (fun a b => samePair a b = false));
      trivial.
    intros a b Ha Hb Hab E. unfold key in E. injection E as Et Ei.
    apply typeIndex_inj in Et.
    destruct (indexOf_found _ _ (Hmem a Ha)) as [_ [x [Hx Ex]]].
    destruct (indexOf_found _ _ (Hmem b Hb)) as [_ [y [Hy Ey]]].
    rewrite Ei, Hy in Hx. injection Hx as ->.
    unfold samePair in Hab.
    rewrite Et, (proj2 (type_eqb_eq _ _) eq_refl) in Hab. simpl in Hab.
    rewrite sameValueZero_sym in Ex.
    now rewrite (sameValueZero_trans _ _ _ Ex Ey) in Hab. }
  assert (I : incl (map key (cs_amounts st))
                   (list_prod (seq 0 7) (seq 0 (length l)))).
  { intros k Hk. apply in_map_iff in Hk. destruct Hk as [a [<- Ha]].
    unfold key. apply in_prod; apply in_seq.
    - pose proof (typeIndex_bound (ca_type a)). lia.
    - destruct (indexOf_found _ _ (Hmem a Ha)) as [L _]. lia. }
  pose proof (NoDup_incl_length ND I) as L.
  rewrite length_map, length_prod, !length_seq in L. exact L.
Qed.

(** X15.  [classifyAmounts] returns at most seven entries for each
    normalized amount: one per type. *)
Theorem classifyAmounts_count :
  forall (text : option jsstring) (normalizedAmounts : option (list number)),
    (length (amounts (classifyAmounts toLowerCase config text
                        normalizedAmounts))
     <= 7 * length (listOf normalizedAmounts))%nat.
Proof.
  intros text nas. unfold classifyAmounts.
  destruct text as [[|c text]|], nas as [[|n nas]|]; try (simpl; lia).
  cbn [listOf amounts]. generalize (n :: nas). intros l.
  rewrite length_map. apply ClassifyInv_count.
  apply ClassifyInv_snippets. constructor; simpl; constructor.
Qed.

End ClassifiedCount.

(** ** Classifier: the validity of a classification *)

Section ValidationFurther.
Import Classifier Spec.

Lemma consistencyIssues_spec (amounts : list OutputAmount)
    (issues : list Issue) :
  consistencyIssues (buildTypeMap amounts) issues
  = issues ++
    if inconsistent amounts
    then [InconsistentAmounts (hd NaN (valuesOfType total_bill amounts))
            (hd NaN (valuesOfType paid amounts))
            (maxList (valuesOfType due amounts))]
    else [].
Proof.
  unfold consistencyIssues, inconsistent. rewrite !buildTypeMap_spec.
  destruct (valuesOfType total_bill amounts) as [|t ts],
    (valuesOfType paid amounts) as [|p ps],
    (valuesOfType due amounts) as [|d ds];
    simpl entry; cbv iota; rewrite ?app_nil_r; trivial.
  cbn [hd]. destruct (gtb _ _); [reflexivity|now rewrite app_nil_r].
Qed.

Lemma flagOf_nil (amounts : list OutputAmount) (t : AmountType) :
  flagOf (buildTypeMap amounts) t = []
  <-> (length (valuesOfType t amounts) <= 1)%nat.
Proof.
  unfold flagOf. rewrite buildTypeMap_spec.
  destruct (valuesOfType t amounts) as [|x l]; simpl.
  - split; [lia|reflexivity].
  - destruct (Nat.ltb_spec 1 (S (length l))); split;
      try discriminate; try reflexivity; lia.
Qed.

Lemma flagOf_multiple (typeMap : TypeMap) (t : AmountType)
    (total p d : number) :
  ~ In (InconsistentAmounts total p d) (flagOf typeMap t).
Proof.
  unfold flagOf. destruct (typeMap t) as [l|]; [|intros []].
  destruct (_ <? _)%nat; [|intros []]. intros [H|[]]. discriminate.
Qed.

(** X16.  [validateClassification] finds the amounts valid exactly when
    each of total_bill, subtotal and paid has at most one entry and the
    consistency test does not fire; and it reports the inconsistency,
    with the first total, the first payment and the largest amount due,
    exactly when total_bill, paid and due all occur and the total less
    the payment is more than 1 away from that amount due. *)
Theorem validateClassification_valid :
  forall amounts : list OutputAmount,
    let v := validateClassification amounts in
    (valid v = true
     <-> Forall (fun t => (length (valuesOfType t amounts) <= 1)%nat)
                singletonTypes
         /\ inconsistent amounts = false)
    /\ (forall total p d,
           In (InconsistentAmounts total p d) (issues v)
           <-> inconsistent amounts = true
               /\ total = hd NaN (valuesOfType total_bill amounts)
               /\ p = hd NaN (valuesOfType paid amounts)
               /\ d = maxList (valuesOfType due amounts)).
Proof.
  intros amounts v. subst v. unfold validateClassification.
  cbn [valid issues].
  rewrite consistencyIssues_spec, singletonIssues_flags.
  split.
  - rewrite Nat.eqb_eq, length_zero_iff_nil. unfold singletonTypes.
    split.
    + intros H.
      apply app_eq_nil in H. destruct H as [H Hi].
      apply app_eq_nil in H. destruct H as [H1 H].
      apply app_eq_nil in H. destruct H as [H2 H3].
      split.
      * repeat (constructor; [now apply flagOf_nil|]). constructor.
      * destruct (inconsistent amounts); [discriminate|reflexivity].
    + intros [F ->].
      inversion F as [|? ? F1 F']; subst.
      inversion F' as [|? ? F2 F'']; subst.
      inversion F'' as [|? ? F3 _]; subst.
      apply flagOf_nil in F1, F2, F3. now rewrite F1, F2, F3.
  - intros total p d. rewrite !in_app_iff. split.
    + intros [[H|[H|H]]|H]; try (now apply flagOf_multiple in H).
      destruct (inconsistent amounts); [|contradiction].
      destruct H as [H|[]]. injection H as <- <- <-. auto.
    + intros [-> [-> [-> ->]]]. right. now left.
Qed.

End ValidationFurther.

(** ** OCR service: the state of the exclude patterns *)

Section ExcludeState.
Import Regex Ocr.

Lemma matchesExcludeLoop_spec (line : jsstring) :
  forall (ps : list (regex * bool)) (st : RegexState),
    length st = length ps ->
    length (snd (matchesExcludeLoop line ps st)) = length st
    /\ (fst (matchesExcludeLoop line ps st) = false ->
        snd (matchesExcludeLoop line ps st) = map (fun _ => O) ps)
    /\ (st = map (fun _ => O) ps ->
        fst (matchesExcludeLoop line ps st)
        = existsb (fun p => test (snd p) (fst p) line) ps).
Proof.
  induction ps as [|[r ic] ps IH]; intros [|i st] L; try discriminate.
  - simpl. auto.
  - injection L as L. specialize (IH st L). destruct IH as [I1 [I2 I3]].
    cbn [matchesExcludeLoop]. unfold testGlobal.
    split; [|split].
    + destruct (execAt ic r line i); cbn [fst snd]; [reflexivity|].
      destruct (matchesExcludeLoop line ps st). simpl in *. congruence.
    + destruct (execAt ic r line i); cbn [fst snd]; [discriminate|].
      destruct (matchesExcludeLoop line ps st). simpl in *.
      intros H. now rewrite I2.
    + cbn [map]. intros H. injection H as -> H.
      cbn [existsb fst snd]. unfold test.
      destruct (execAt ic r line 0); cbn [fst snd]; [reflexivity|].
      destruct (matchesExcludeLoop line ps st). simpl in *. auto.
Qed.

(** X17.  With one [lastIndex] for each exclude pattern,
    [matchesExcludePattern] keeps one for each; a call that answers
    false leaves every [lastIndex] at 0; and a call that starts with
    every [lastIndex] at 0 answers true exactly when one of the patterns
    matches somewhere in the line.  (A call that answers true may leave
    a [lastIndex] that is not 0, from which the next call starts.) *)
Theorem matchesExcludePattern_state :
  forall (line : jsstring) (st : RegexState),
    length st = length excludePatterns ->
    length (snd (matchesExcludePattern line st)) = length excludePatterns
    /\ (fst (matchesExcludePattern line st) = false ->
        snd (matchesExcludePattern line st) = initialRegexState)
    /\ (st = initialRegexState ->
        fst (matchesExcludePattern line st)
        = existsb (fun p => test (snd p) (fst p) line) excludePatterns).
Proof.
  intros line st L. unfold matchesExcludePattern, initialRegexState.
  destruct (matchesExcludeLoop_spec line excludePatterns st L)
    as [H1 [H2 H3]].
  rewrite H1. auto.
Qed.

Lemma matchesExcludePattern_state_witness :
  length (snd (matchesExcludePattern (js "Room No: 12")
                 [0; 0; 0; 0; 0; 0; 0]%nat))
  = length excludePatterns.
Proof.
  apply (matchesExcludePattern_state (js "Room No: 12")
           [0; 0; 0; 0; 0; 0; 0]%nat).
  reflexivity.
Defined.

End ExcludeState.

(** ** OCR service: the tokens of a text *)

Section Tokens.
Import Regex Ocr.
Variable toLowerCase : jsstring -> jsstring.

Lemma str_eqb_eq (a b : jsstring) : str_eqb a b = true <-> a = b.
Proof.
  revert b. induction a as [|x a IH]; intros [|y b]; simpl;
    try (split; [discriminate || reflexivity | discriminate || reflexivity]).
  rewrite andb_true_iff, N.eqb_eq, IH. split.
  - intros [-> ->]. reflexivity.
  - intros H. injection H as -> ->. auto.
Qed.

Lemma tokenOfMatch_inv (segment : jsstring) (m : Match)
    (st : list jsstring * list jsstring) :
  TokensInv st -> TokensInv (tokenOfMatch segment st m).
Proof.
  intros I. destruct st as [tokens seen]. unfold tokenOfMatch.
  destruct (group1 segment m) as [[|c0 g]|]; trivial.
  pose proof (trim_clean (c0 :: g)) as [C1 C2].
  destruct (trim (c0 :: g)) as [|c token] eqn:T; trivial.
  destruct (normalizeToken (c :: token)) as [|k key] eqn:K; trivial.
  destruct (includes (js "%") (c :: token)) eqn:P; cbn [orb]; trivial.
  destruct (includes (js "%") (k :: key)); trivial.
  destruct (isFinite (parseFloat (k :: key))) eqn:F; cbn [negb orb]; trivial.
  destruct (leb (parseFloat (k :: key)) zero) eqn:Z; trivial.
  destruct (ltb (parseFloat (k :: key)) (ofZ 1)) eqn:O; trivial.
  destruct (existsb (str_eqb (k :: key)) seen) eqn:S; trivial.
  destruct I as [I1 [I2 I3]]. cbn [fst snd] in *.
  split; [|split]; cbn [fst snd].
  - rewrite map_app, I1. cbn [map]. now rewrite K.
  - assert (N : ~ In (k :: key) seen).
    { intros H.
      assert (X : existsb (str_eqb (k :: key)) seen = true).
      { apply existsb_exists. exists (k :: key). split; trivial.
        now apply str_eqb_eq. }
      congruence. }
    apply NoDup_rev in I2. rewrite <- (rev_involutive (seen ++ _)).
    apply NoDup_rev. rewrite rev_app_distr. cbn [rev app].
    constructor; trivial. now rewrite <- in_rev.
  - apply Forall_app. split; trivial. constructor; [|constructor].
    unfold acceptedToken. rewrite K. repeat split; trivial. discriminate.
Qed.

Lemma tokensOfMatches_inv (segment : jsstring) (ms : list Match) :
  forall st, TokensInv st -> TokensInv (fold_left (tokenOfMatch segment) ms st).
Proof.
  induction ms as [|m ms IH]; intros st I; trivial.
  cbn [fold_left]. apply IH. now apply tokenOfMatch_inv.
Qed.

Lemma segmentStep_inv (segment : jsstring)
    (acc : list jsstring * list jsstring * RegexState) :
  TokensInv (fst acc) -> TokensInv (fst (segmentStep toLowerCase acc segment)).
Proof.
  destruct acc as [ts st]. unfold segmentStep. cbn [fst].
  destruct (isMonetaryLine toLowerCase segment st) as [[|] st']; cbn [negb fst];
    trivial.
  apply tokensOfMatches_inv.
Qed.

Lemma segments_inv (segments : list jsstring) :
  forall acc, TokensInv (fst acc) ->
              TokensInv (fst (fold_left (segmentStep toLowerCase) segments acc)).
Proof.
  induction segments as [|s l IH]; intros acc I; trivial.
  cbn [fold_left]. apply IH. now apply segmentStep_inv.
Qed.

(** X18.  Whatever the state of the exclude patterns, every token that
    [extractNumericTokensFromText] returns is not empty, has no white
    space at either end, holds no percent sign, and has a key (commas
    and white space removed, l, L, i, I read as 1 and O as 0) that
    [parseFloat] reads as a finite number that is not below 1; and no
    two tokens of the result have the same key. *)
Theorem extractNumericTokensFromText_tokens :
  forall (text : jsstring) (st : RegexState),
    let tokens := fst (extractNumericTokensFromText toLowerCase text st) in
    Forall acceptedToken tokens /\ NoDup (map normalizeToken tokens).
Proof.
  intros text st. unfold extractNumericTokensFromText.
  set (segments := filter _ _).
  assert (I : TokensInv (fst (([] : list jsstring, [] : list jsstring), st))).
  { repeat split; constructor. }
  apply (segments_inv segments) in I.
  destruct (fold_left _ segments _) as [ts st']. cbn [fst] in *.
  destruct I as [I1 [I2 I3]]. split; trivial. now rewrite <- I1.
Qed.

End Tokens.

(** ** Validators: [sanitizeText] *)

Section Sanitize.
Import Pipeline.

Lemma removeAll_Forall (p : char -> bool) (s : jsstring) :
  Forall (fun c => p c = false) (removeAll p s).
Proof.
  apply Forall_forall. intros c H. apply filter_In in H.
  destruct H as [_ H]. now destruct (p c).
Qed.

Lemma removeAll_twice (p q : char -> bool) (s : jsstring) :
  removeAll q (removeAll p s) = removeAll (fun c => p c || q c) s.
Proof.
  unfold removeAll. induction s as [|c s IH]; trivial.
  cbn [filter]. destruct (p c); cbn [negb orb filter]; trivial.
  destruct (q c); cbn [negb]; now rewrite IH.
Qed.

Lemma sanitizeText_removeAll (text : jsstring) :
  sanitizeText text = removeAll isControlChar text.
Proof. now destruct text. Qed.

(** X19.  [sanitizeText] returns the text without its control
    characters (NUL, U+0001 to U+0008, U+000B, U+000C, U+000E to U+001F
    and U+007F) and with every other character in place: the two
    replacements of the source, one after the other, remove exactly
    these; no control character is left; a text without any comes back
    as it is, so that sanitizing twice is sanitizing once; and the
    result of a concatenation is the concatenation of the results. *)
Theorem sanitizeText_clean :
  forall text : jsstring,
    sanitizeText text
    = removeAll (fun c => in_range 1 8 c || in_range 11 12 c
                          || in_range 14 31 c || (c =? 127)%N)
                (removeAll (N.eqb 0) text)
    /\ Forall (fun c => isControlChar c = false) (sanitizeText text)
    /\ (Forall (fun c => isControlChar c = false) text ->
        sanitizeText text = text)
    /\ sanitizeText (sanitizeText text) = sanitizeText text
    /\ (forall text', sanitizeText (text ++ text')
                      = sanitizeText text ++ sanitizeText text').
Proof.
  intros text. rewrite !sanitizeText_removeAll.
  split; [|split; [|split; [|split]]].
  - rewrite removeAll_twice. unfold removeAll. apply filter_ext.
    intros c. unfold isControlChar. rewrite N.eqb_sym.
    now rewrite !orb_assoc.
  - apply removeAll_Forall.
  - apply removeAll_none.
  - apply removeAll_none, removeAll_Forall.
  - intros text'. rewrite !sanitizeText_removeAll. apply filter_app.
Qed.

End Sanitize.

(** ** The [/final] route: an answer with status ok *)

Section FinalSuccess.
Import Normalizer Classifier Ocr Pipeline.
Variable toLowerCase : jsstring -> jsstring.
Variable config : Config.
Variable Buffer : Type.
Variable Error : Type.
Variable decodeBase64 : jsstring -> Buffer.
Variable imageBufferToText : Buffer -> Error + (jsstring * number).
Variable llmEnabled : bool.
Variable llmValidateClassification :
  jsstring -> list OutputAmount -> LlmValidation.

Lemma normalizedAmounts_length (tokens : list jsstring) :
  forall st,
    (length (normalizedAmounts (fold_left loopBody tokens st))
     <= length tokens + length (normalizedAmounts st))%nat.
Proof.
  induction tokens as [|t tokens IH]; intros st; simpl; [lia|].
  specialize (IH (loopBody st t)).
  assert (L : (length (normalizedAmounts (loopBody st t))
               <= S (length (normalizedAmounts st)))%nat).
  { unfold loopBody. destruct (parseNumeric t) as [p|]; simpl; [|lia].
    destruct (p_type p).
    destruct (setHas (seenValues st) (p_value p)); simpl; [lia|].
    rewrite length_app. simpl. lia. }
  lia.
Qed.

Lemma extract_with_tokens (input : ExtractInput Buffer) (st st' : RegexState)
    (r : OcrResult) :
  extractFromTextOrImage toLowerCase config Buffer Error decodeBase64
    imageBufferToText input st = (inr r, st') ->
  raw_tokens r <> [] ->
  currency_hint r <> None /\ extracted_text r <> [].
Proof.
  unfold extractFromTextOrImage.
  match goal with
  | |- (match ?o with inl _ => _ | inr _ => _ end) = _ -> _ =>
      destruct o as [e|[extractedText ocrConfidence]]
  end; [discriminate|].
  destruct (trim extractedText) eqn:T.
  - intros H. injection H as <- _. simpl. congruence.
  - destruct (extractNumericTokensFromText toLowerCase extractedText st)
      as [rawTokens st''].
    intros H. injection H as <- _. simpl. intros _. split; [discriminate|].
    intros ->. discriminate.
Qed.

Lemma classified_sources (text : option jsstring)
    (normalizedAmounts : option (list number)) :
  Forall (fun a => exists snippet,
              source a = js "text: '" ++ truncate snippet ++ js "'")
         (Classifier.amounts (classifyAmounts toLowerCase config text
                     normalizedAmounts)).
Proof.
  unfold classifyAmounts.
  destruct text as [[|c text]|], normalizedAmounts as [[|n nas]|];
    try constructor.
  generalize (n :: nas) (c :: text). intros l t. cbn [Classifier.amounts].
  pose proof (explained_snippets toLowerCase l (findContextSnippets t)
                (findContextSnippets t) (initClassifyState l)
                (incl_refl _) (Forall2_nil _)) as H.
  induction H as [|a d la ld Had Hrest IH]; simpl; constructor; trivial.
  exists (cd_snippet d). now destruct Had as [_ [_ [Hsrc _]]].
Qed.

(** X20.  In every answer of [/final] with status ok the fallbacks of
    the handler are not used: the currency is a detected one, never
    'UNKNOWN', and every source is a quoted snippet, never 'inferred'.
    Its counts are ordered: at least one amount was normalized, no more
    than there were tokens; and [amounts_classified] is the number of
    amounts in the answer.  Without an LLM credential there is no
    [llm_validation]. *)
Theorem final_success :
  forall (req : Request Buffer) (st st' : RegexState) (out : FinalOutput),
    final toLowerCase config Buffer Error decodeBase64 imageBufferToText
      llmEnabled llmValidateClassification req st
    = (Success Error out, st') ->
    currency out <> None
    /\ Forall (fun a => exists snippet,
                   source a = js "text: '" ++ truncate snippet ++ js "'")
              (Pipeline.amounts out)
    /\ (1 <= amounts_normalized (metadata out)
        <= total_tokens_extracted (metadata out))%nat
    /\ amounts_classified (metadata out) = length (Pipeline.amounts out)
    /\ (llmEnabled = false -> llm_validation out = None).
Proof.
  intros req st st' out. unfold final.
  destruct (extraction _ _ _ _ _ _ req st) as [[[e|[s ocr]]|] st1] eqn:X;
    try discriminate.
  intros H. injection H as H _.
  assert (Hx : raw_tokens ocr <> [] ->
               currency_hint ocr <> None /\ extracted_text ocr <> []).
  { unfold extraction in X.
    destruct (_ && _); [discriminate|].
    destruct (sanitized Error (body_text Buffer req)) as [e|sanitizedText];
      [discriminate|].
    destruct (extractFromTextOrImage _ _ _ _ _ _ _ st) as [[e|res] st2] eqn:E;
      [discriminate|].
    injection X as _ -> _. now apply (extract_with_tokens _ _ _ _ E). }
  unfold afterExtraction in H.
  destruct (raw_tokens ocr) as [|t ts] eqn:T; [discriminate|].
  destruct (Hx ltac:(discriminate)) as [Hc Ht].
  pose proof (normalizedAmounts_length (t :: ts) initState) as L.
  rewrite <- (normalizeTokens_amounts config) in L.
  destruct (normalized_amounts (normalizeTokens config (t :: ts)))
    as [|a l] eqn:A; [discriminate|].
  set (text := firstNonEmpty _ _) in H.
  set (classified := classifyAmounts _ _ _ _) in H.
  set (normalized := normalizeTokens _ _) in H.
  assert (E : out = match Success Error out with
                    | Success _ o => o
                    | _ => out
                    end) by reflexivity.
  rewrite <- H in E. rewrite E. clear E H.
  cbn [currency Pipeline.amounts metadata
    amounts_normalized total_tokens_extracted amounts_classified
    llm_validation].
  subst classified.
  pose proof (classified_sources (Some text) (Some (a :: l))) as Hs.
  split; [exact Hc|]. split; [|split; [|split]].
  - apply Forall_forall. intros x Hin. apply in_map_iff in Hin.
    destruct Hin as [y [<- Hy]]. rewrite Forall_forall in Hs.
    destruct (Hs y Hy) as [sn E]. exists sn. cbn [source].
    rewrite E. reflexivity.
  - change (length (normalizedAmounts initState)) with 0%nat in L.
    cbn [length] in *. lia.
  - now rewrite length_map.
  - intros ->. reflexivity.
Qed.

End FinalSuccess.

Lemma final_success_witness :
  exists (out : Pipeline.FinalOutput) (st' : Ocr.RegexState),
    Pipeline.final asciiToLowerCase defaultConfig unit unit
      (fun _ => tt) (fun _ => inl tt) false
      (fun _ _ => {| Pipeline.validated := false; Pipeline.llm_valid := false;
                     Pipeline.llm_issues := [];
                     Pipeline.llm_suggestions := [] |})
      (textRequest "Total: 5000") Ocr.initialRegexState
    = (Pipeline.Success unit out, st')
    /\ Pipeline.currency out <> None.
Proof.
  let v := eval vm_compute in
    (Pipeline.final asciiToLowerCase defaultConfig unit unit
       (fun _ => tt) (fun _ => inl tt) false
       (fun _ _ => {| Pipeline.validated := false;
                      Pipeline.llm_valid := false;
                      Pipeline.llm_issues := [];
                      Pipeline.llm_suggestions := [] |})
       (textRequest "Total: 5000") Ocr.initialRegexState) in
  lazymatch v with
  | (Pipeline.Success _ ?out, ?st') =>
      exists out, st'; split;
      [ vm_compute; reflexivity
      | refine (proj1 (final_success asciiToLowerCase defaultConfig unit unit
                         (fun _ => tt) (fun _ => inl tt) false
                         (fun _ _ => {| Pipeline.validated := false;
                                        Pipeline.llm_valid := false;
                                        Pipeline.llm_issues := [];
                                        Pipeline.llm_suggestions := [] |})
                         (textRequest "Total: 5000") Ocr.initialRegexState
                         st' out _));
        vm_compute; reflexivity ]
  end.
Defined.

(** ** The [/final] route: a request with a text only *)

Section FinalText.
Import Normalizer Classifier Ocr Pipeline.
Variable toLowerCase : jsstring -> jsstring.
Variable config : Config.
Variable Buffer : Type.
Variable Error : Type.
Variable decodeBase64 : jsstring -> Buffer.
Variable imageBufferToText : Buffer -> Error + (jsstring * number).
Variable llmEnabled : bool.
Variable llmValidateClassification :
  jsstring -> list OutputAmount -> LlmValidation.

Lemma afterExtraction_status (s : option jsstring) (ocr : OcrResult) :
  status Error
    (afterExtraction toLowerCase config Error llmEnabled
       llmValidateClassification s ocr) <> None.
Proof.
  unfold afterExtraction.
  destruct (raw_tokens ocr); [discriminate|].
  destruct (normalized_amounts _); discriminate.
Qed.

(** X21.  For a request with neither an image nor a file, [/final]
    answers 'missing_input' exactly when the text is absent or falsy;
    it ends in an error exactly when the text is a truthy value that is
    not a string, the error being the [TypeError] of [sanitizeText], and
    the exclude patterns are then left as they were; a text that is a
    string and not empty is always answered with a status, whatever the
    OCR engine would do; and such a text that is blank once sanitized is
    answered with [no_amounts_found] and an empty [extracted_text], the
    exclude patterns being left as they were. *)
Theorem final_text_only :
  forall (text : field) (st : RegexState),
    let req := {| body_text := text; body_image_base64 := Absent;
                  file_buffer := None |} in
    let answer :=
      final toLowerCase config Buffer Error decodeBase64 imageBufferToText
        llmEnabled llmValidateClassification req st in
    (fst answer = MissingInput Error <-> toBoolean text = false)
    /\ (forall e, fst answer = Failure Error e
                  <-> text = Other true /\ e = NotAFunction Error)
    /\ (text = Other true -> snd answer = st)
    /\ (forall s, text = Str s -> s <> [] ->
                  status Error (fst answer) <> None)
    /\ (forall s, text = Str s -> s <> [] ->
                  trim (sanitizeText s) = [] ->
                  answer = (NoAmountsFound Error noAmountsReason [], st)).
Proof.
  intros text st req answer. subst req answer.
  unfold final, extraction, sanitized.
  cbn [body_text body_image_base64 file_buffer].
  destruct text as [|[|c t]|[|]];
    cbn [toBoolean negb andb isSome fst snd].
  3: {
    unfold extractFromTextOrImage.
    cbn [in_text in_image_base64 in_fileBuffer toBoolean orEmpty].
    set (s0 := sanitizeText (c :: t)).
    destruct (trim s0) eqn:T.
    - cbn [fst snd]. unfold afterExtraction.
      cbn [raw_tokens extracted_text].
      repeat split; trivial; try discriminate.
      intros [H _]. discriminate.
    - destruct (extractNumericTokensFromText toLowerCase s0 st)
        as [rawTokens st''].
      cbn [fst snd].
      pose proof (afterExtraction_status (Some s0)
        {| raw_tokens := rawTokens;
           currency_hint := Some (detectCurrency toLowerCase s0);
           confidence :=
             parseFloat_toFixed2
               (calculateConfidence toLowerCase config zero
                  (length rawTokens) s0);
           extracted_text := s0 |}) as S.
      repeat split; trivial; try discriminate;
        try (intros H; rewrite H in S; now elim S);
        try (intros [H _]; discriminate);
        try match goal with
            | H : afterExtraction _ _ _ _ _ _ _ = _ |- _ =>
                rewrite H in S; now elim S
            end.
      intros s E _ B. injection E as <-. fold s0 in B. congruence. }
  all: repeat split; trivial; try discriminate; try congruence;
    try (intros [E _]; discriminate);
    try (intros s E; discriminate);
    try (intros s E; injection E as <-; congruence).
  intros [_ ->]. reflexivity.
Qed.

End FinalText.

(** ** OCR service: the result of an extraction *)

Section ExtractionResult.
Import Ocr.
Variable toLowerCase : jsstring -> jsstring.
Variable config : Config.
Variable Buffer : Type.
Variable Error : Type.
Variable decodeBase64 : jsstring -> Buffer.
Variable imageBufferToText : Buffer -> Error + (jsstring * number).

(** X22.  When [extractFromTextOrImage] returns a result: a result
    without tokens has confidence 0; the currency hint is missing
    exactly when the extracted text is empty; a result with an empty
    extracted text has no tokens and leaves the exclude patterns as they
    were; and an extracted text that is not empty is not blank. *)
Theorem extractFromTextOrImage_result :
  forall (input : ExtractInput Buffer) (st st' : RegexState) (r : OcrResult),
    extractFromTextOrImage toLowerCase config Buffer Error decodeBase64
      imageBufferToText input st = (inr r, st') ->
    (raw_tokens r = [] -> confidence r = zero)
    /\ (currency_hint r = None <-> extracted_text r = [])
    /\ (extracted_text r = [] -> raw_tokens r = [] /\ st' = st)
    /\ (extracted_text r <> [] -> trim (extracted_text r) <> []).
Proof.
  intros input st st' r. unfold extractFromTextOrImage.
  match goal with
  | |- (match ?o with inl _ => _ | inr _ => _ end) = _ -> _ =>
      destruct o as [e|[extractedText ocrConfidence]]
  end; [discriminate|].
  destruct (trim extractedText) eqn:T.
  - intros H. injection H as <- <-. simpl. repeat split; trivial.
  - destruct (extractNumericTokensFromText toLowerCase extractedText st)
      as [rawTokens st''].
    intros H. injection H as <- _. cbn [raw_tokens confidence currency_hint
      extracted_text].
    assert (N : extractedText <> []) by (intros ->; discriminate).
    repeat split; try discriminate; try contradiction.
    + intros ->. reflexivity.
    + intros _. rewrite T. discriminate.
Qed.

End ExtractionResult.

Lemma extractFromTextOrImage_result_witness :
  exists (r : Ocr.OcrResult) (st' : Ocr.RegexState),
    Ocr.extractFromTextOrImage asciiToLowerCase defaultConfig unit unit
      (fun _ => tt) (fun _ => inl tt)
      {| Ocr.in_text := Some (js "Total: 5000");
         Ocr.in_image_base64 := Absent; Ocr.in_fileBuffer := None |}
      Ocr.initialRegexState
    = (inr r, st')
    /\ (Ocr.currency_hint r = None <-> Ocr.extracted_text r = []).
Proof.
  let v := eval vm_compute in
    (Ocr.extractFromTextOrImage asciiToLowerCase defaultConfig unit unit
       (fun _ => tt) (fun _ => inl tt)
       {| Ocr.in_text := Some (js "Total: 5000");
          Ocr.in_image_base64 := Absent; Ocr.in_fileBuffer := None |}
       Ocr.initialRegexState) in
  lazymatch v with
  | (inr ?r, ?st') =>
      exists r, st'; split;
      [ vm_compute; reflexivity
      | refine (proj1 (proj2 (extractFromTextOrImage_result asciiToLowerCase
                                defaultConfig unit unit (fun _ => tt)
                                (fun _ => inl tt)
                                {| Ocr.in_text := Some (js "Total: 5000");
                                   Ocr.in_image_base64 := Absent;
                                   Ocr.in_fileBuffer := None |}
                                Ocr.initialRegexState st' r _)));
        vm_compute; reflexivity ]
  end.
Defined.

(** ** Normalizer: the letters S and s *)

Section NormalizerLetterS.
Import Normalizer.

Lemma trim_removeAll (q : char -> bool) (s : jsstring) :
  (forall c, isWhiteSpace c = true -> q c = true) ->
  removeAll q (trim s) = removeAll q s.
Proof.
  intros Hq. unfold trim.
  destruct (dropWhile_split isWhiteSpace s) as [w1 [E1 F1]].
  set (d1 := dropWhile isWhiteSpace s) in *.
  destruct (dropWhile_split isWhiteSpace (rev d1)) as [w2 [E2 F2]].
  set (d2 := dropWhile isWhiteSpace (rev d1)) in *.
  assert (E : s = w1 ++ rev d2 ++ rev w2).
  { rewrite <- rev_app_distr, <- E2, rev_involutive. exact E1. }
  assert (A : forall w, Forall (fun c => isWhiteSpace c = true) w ->
                        removeAll q w = []).
  { intros w F. apply removeAll_all. revert F. apply Forall_impl. exact Hq. }
  clearbody d2. clearbody d1. clear E1. subst s.
  unfold removeAll in *. rewrite !filter_app.
  rewrite (A w1 F1), (A (rev w2)) by now apply Forall_rev.
  now rewrite app_nil_r.
Qed.

Lemma strip_removeAll (token : jsstring) :
  strip token
  = removeAll (fun c => isCurrencyChar c || isWhiteSpace c) token.
Proof.
  unfold strip. rewrite removeAll_twice. apply trim_removeAll.
  intros c ->. apply orb_true_r.
Qed.

Lemma strip_without_S (token : jsstring) :
  strip (removeAll (one_of [83; 115]%N) token) = strip token.
Proof.
  rewrite !strip_removeAll, removeAll_twice. unfold removeAll.
  apply filter_ext. intros c.
  destruct (one_of [83; 115]%N c) eqn:S; trivial.
  apply one_of_In in S. destruct S as [<-|[<-|[]]]; reflexivity.
Qed.

(** C3.  The correction map has S -> 5 and s -> 5, but [fixOcrDigits]
    never applies them: the stripping replacement removes every S and s
    (with R, r and the currency symbols) before the correction loop
    runs, so that deleting the letters S and s from a token leaves the
    result as it is.  [fixOcrDigits("1S0")] is ["10"] and the token
    parses to 10, and [fixOcrDigits("5s")] is ["5"], where the map next
    to a digit gives ["150"] and ["55"]. *)
Theorem fixOcrDigits_S_never_corrected :
  digitCorrections 83%N = Some 53%N
  /\ digitCorrections 115%N = Some 53%N
  /\ (forall token : jsstring,
        Forall (fun c => c <> 83%N /\ c <> 115%N) (strip token))
  /\ (forall token : jsstring,
        fixOcrDigits (removeAll (one_of [83; 115]%N) token)
        = fixOcrDigits token)
  /\ fixOcrDigits (js "1S0") = js "10"
  /\ option_map p_value (parseNumeric (js "1S0")) = Some (ofZ 10)
  /\ fixOcrDigits (js "5s") = js "5".
Proof.
  split; [reflexivity|]. split; [reflexivity|]. split; [|split].
  - intros token. rewrite strip_removeAll. apply Forall_forall.
    intros c Hc. apply filter_In in Hc. destruct Hc as [_ Hc].
    split; intros ->; discriminate.
  - intros [|c t]; [reflexivity|].
    destruct (removeAll (one_of [83; 115]%N) (c :: t)) as [|c' t'] eqn:E.
    + rewrite (fixOcrDigits_unfold (c :: t)) by discriminate.
      rewrite <- strip_without_S, E. reflexivity.
    + rewrite (fixOcrDigits_unfold (c' :: t')) by discriminate.
      rewrite (fixOcrDigits_unfold (c :: t)) by discriminate.
      now rewrite <- E, strip_without_S.
  - repeat split; reflexivity.
Qed.

End NormalizerLetterS.
